(** * EKS tag reconciliation (pkg/cloud/services/eks/tags.go)

    A shallow embedding of the tag differs and of the tag reconcilers of the
    EKS services, and the properties of the tag-reconciliation specification
    stated over it.

    Modelling conventions.
    - A Go [map[string]string] is a [gmap string string].  Go iterates a map
      in an unspecified order; a [range] loop over a map is a left fold over
      [map_to_list], one fixed enumeration without repeated keys.  The
      general statements below are about membership and lookups, so they
      hold for whatever enumeration the fold follows.
    - A [*string] that the code only reads is an [option string] ([None] is
      nil); a slice of pointers is a list of options.  Dereferencing nil is
      the outcome [Panicked].
    - The tags of the requests that the code builds entry by entry hold
      pointers into a store of string cells, so that two entries pointing at
      the same variable can be told from two entries pointing at copies.
      The variables of a [for ... range] statement are declared once for the
      whole loop, as in the Go versions the file is written for.
    - The SDK clients are the outside world; every call made to them is
      logged in order, with the error it returned.
    - The two [for] loops without condition run on fuel; a loop that is
      still turning when the fuel is spent ends with [OutOfFuel].
    - [Service.reconcileTags] for the cluster hands the whole work to the
      tags builder of another package and is left out; [ngTags],
      [describeASGs] and [infrav1.ClusterAWSCloudProviderTagKey], defined
      outside this file, are parameters. *)

From stdpp Require Import gmap strings list fin_maps.

(** ** Constants (tags.go, lines 36-40) *)

Definition eksClusterNameTag : string := "eks:cluster-name".
Definition eksNodeGroupNameTag : string := "eks:nodegroup-name".
Definition eksClusterAutoscalerEnabledTag : string := "k8s.io/cluster-autoscaler/enabled".

(** ** The tag differ (tags.go, lines 66-80) *)

Module Differ.

(** First loop: [for key := range currentTags], appending the keys that
    [tags] lacks. *)
Definition untagStep (tags : gmap string string) (untagKeys : list string)
    (kv : string * string) : list string :=
  match tags !! kv.1 with
  | Some _ => untagKeys
  | None => untagKeys ++ [kv.1]
  end.

(** Second loop: [for key, value := range tags], storing the pairs that
    [currentTags] lacks or holds with another value. *)
Definition newTagStep (currentTags : gmap string string) (newTags : gmap string string)
    (kv : string * string) : gmap string string :=
  match currentTags !! kv.1 with
  | Some currentV => if decide (kv.2 = currentV) then newTags else <[kv.1 := kv.2]> newTags
  | None => <[kv.1 := kv.2]> newTags
  end.

Definition getTagUpdates (currentTags tags : gmap string string)
    : list string * gmap string string :=
  let untagKeys := foldl (untagStep tags) [] (map_to_list currentTags) in
  let newTags := foldl (newTagStep currentTags) ∅ (map_to_list tags) in
  (untagKeys, newTags).

(** Applying a diff to a tag map: the keys of [untagKeys] are removed one
    after the other, then the pairs of [newTags] are written. *)
Definition applyUpdates (currentTags : gmap string string)
    (upd : list string * gmap string string) : gmap string string :=
  let removed := foldl (fun m k => delete k m) currentTags upd.1 in
  foldl (fun m kv => <[kv.1 := kv.2]> m) removed (map_to_list upd.2).

End Differ.

(** ** The ASG tag differ (tags.go, lines 82-112) *)

Module ASGDiffer.

Section WithProviderKey.

(** [infrav1.ClusterAWSCloudProviderTagKey] is declared in the API package,
    outside this file; the differ only needs the key it returns. *)
Variable ClusterAWSCloudProviderTagKey : string -> string.

Definition officialASGTagsByEKS (clusterName : string) : list string :=
  [ eksClusterNameTag;
    eksNodeGroupNameTag;
    "k8s.io/cluster-autoscaler/" +:+ clusterName;
    eksClusterAutoscalerEnabledTag;
    ClusterAWSCloudProviderTagKey clusterName ].

(** The inner loop of lines 94-100: a linear search with [break]. *)
Fixpoint isOfficialTag (official : list string) (k : string) : bool :=
  match official with
  | [] => false
  | tag :: rest => if decide (tag = k) then true else isOfficialTag rest k
  end.

Definition deleteStep (official : list string) (tags : gmap string string)
    (tagsToDelete : gmap string string) (kv : string * string) : gmap string string :=
  match tags !! kv.1 with
  | Some _ => tagsToDelete
  | None => if isOfficialTag official kv.1 then tagsToDelete
            else <[kv.1 := kv.2]> tagsToDelete
  end.

Definition getASGTagUpdates (clusterName : string) (currentTags tags : gmap string string)
    : gmap string string * gmap string string :=
  let official := officialASGTagsByEKS clusterName in
  let tagsToDelete := foldl (deleteStep official tags) ∅ (map_to_list currentTags) in
  let tagsToAdd := foldl (Differ.newTagStep currentTags) ∅ (map_to_list tags) in
  (tagsToDelete, tagsToAdd).

End WithProviderKey.

End ASGDiffer.

(** ** Errors and outcomes *)

(** A Go [error]: one returned by a client, or [errors.Wrap(cause, message)]. *)
Inductive error : Type :=
| AWSError (code : string)
| Wrap (cause : error) (message : string).

(** What a client call gives back: [(output, nil)] or [(_, err)]. *)
Inductive reply (A : Type) : Type :=
| Success (output : A)
| Failure (err : error).
Arguments Success {A} output.
Arguments Failure {A} err.

Definition replyError {A} (r : reply A) : option error :=
  match r with
  | Success _ => None
  | Failure err => Some err
  end.

(** How a function of the package ends: it returns a value (with a nil
    error), it returns a non-nil error, it dereferences a nil pointer, or its
    [for] loop is still turning when the fuel given to the model is spent. *)
Inductive outcome (A : Type) : Type :=
| Done (a : A)
| Failed (err : error)
| Panicked
| OutOfFuel.
Arguments Done {A} a.
Arguments Failed {A} err.
Arguments Panicked {A}.
Arguments OutOfFuel {A}.

(** ** The SDK structures the file reads and writes

    Slices of pointers are lists of options; a field of a record is named
    after the Go field, prefixed where two records of a package share it. *)

(** An address in the store of string cells. *)
Definition loc : Type := nat.

Module eks.

Record AutoScalingGroup : Type := { Name : option string }.

Record NodegroupResources : Type :=
  { AutoScalingGroups : list (option AutoScalingGroup) }.

Record Nodegroup : Type :=
  { NodegroupArn : option string;
    NodegroupName : option string;
    Resources : option NodegroupResources;
    Tags : gmap string (option string) }.

Record FargateProfile : Type :=
  { FargateProfileArn : option string;
    FargateProfile_Tags : gmap string (option string) }.

Record TagResourceInput : Type :=
  { TagResource_ResourceArn : option string;
    TagResource_Tags : gmap string string }.

Record UntagResourceInput : Type :=
  { UntagResource_ResourceArn : option string;
    TagKeys : list string }.

End eks.

Module autoscaling.

Record DescribeAutoScalingGroupsInput : Type :=
  { AutoScalingGroupNames : list (option string) }.

Record Instance : Type := { InstanceId : option string }.

Record TagDescription : Type :=
  { TagDescription_Key : option string;
    TagDescription_Value : option string }.

Record Group : Type :=
  { AutoScalingGroupName : option string;
    Instances : list (option Instance);
    Group_Tags : list (option TagDescription) }.

Record DescribeAutoScalingGroupsOutput : Type :=
  { AutoScalingGroups : list (option Group) }.

(** [autoscaling.Tag] as the code builds it: [Key] and [Value] are addresses
    of string variables. *)
Record TagPtr : Type :=
  { KeyPtr : option loc;
    PropagateAtLaunchPtr : option bool;
    ResourceIdPtr : option string;
    ResourceTypePtr : option string;
    ValuePtr : option loc }.

(** [autoscaling.Tag] as the client reads it when the request is sent. *)
Record Tag : Type :=
  { Key : option string;
    PropagateAtLaunch : option bool;
    ResourceId : option string;
    ResourceType : option string;
    Value : option string }.

Record CreateOrUpdateTagsInput : Type := { CreateOrUpdate_Tags : list (option Tag) }.

Record DeleteTagsInput : Type := { Delete_Tags : list (option Tag) }.

End autoscaling.

Module ec2.

(** [ec2.Tag] as read from a response, or as the client reads it from a
    request when the request is sent. *)
Record Tag : Type := { Key : option string; Value : option string }.

(** [ec2.Tag] as the code builds it. *)
Record TagPtr : Type := { KeyPtr : option loc; ValuePtr : option loc }.

Record EbsInstanceBlockDevice : Type := { Ebs_VolumeId : option string }.

Record InstanceBlockDeviceMapping : Type := { Ebs : option EbsInstanceBlockDevice }.

Record Instance : Type :=
  { InstanceId : option string;
    Instance_Tags : list (option Tag);
    BlockDeviceMappings : list (option InstanceBlockDeviceMapping) }.

Record Reservation : Type := { Instances : list (option Instance) }.

Record DescribeInstancesInput : Type :=
  { InstanceIds : list (option string);
    DescribeInstancesInput_NextToken : option string }.

Record DescribeInstancesOutput : Type :=
  { Reservations : list (option Reservation);
    DescribeInstances_NextToken : option string }.

Record Volume : Type :=
  { VolumeId : option string;
    Volume_Tags : list (option Tag) }.

Record DescribeVolumesInput : Type :=
  { VolumeIds : list (option string);
    DescribeVolumesInput_NextToken : option string }.

Record DescribeVolumesOutput : Type :=
  { Volumes : list (option Volume);
    DescribeVolumes_NextToken : option string }.

Record CreateTagsInput : Type :=
  { CreateTags_Resources : list (option string);
    CreateTags_Tags : list (option Tag) }.

Record DeleteTagsInput : Type :=
  { DeleteTags_Resources : list (option string);
    DeleteTags_Tags : list (option Tag) }.

End ec2.

(** ** The clients

    The three SDK clients and the [describeASGs] helper of the nodegroup
    service (defined in another file of the package) are the outside world:
    an operation takes the state of the world and a request, and gives a
    reply and the next state of the world. *)

Record Cloud : Type :=
  { world : Type;
    eksTagResource : world -> eks.TagResourceInput -> reply unit * world;
    eksUntagResource : world -> eks.UntagResourceInput -> reply unit * world;
    asgDescribeAutoScalingGroups :
      world -> autoscaling.DescribeAutoScalingGroupsInput
      -> reply autoscaling.DescribeAutoScalingGroupsOutput * world;
    asgCreateOrUpdateTags : world -> autoscaling.CreateOrUpdateTagsInput -> reply unit * world;
    asgDeleteTags : world -> autoscaling.DeleteTagsInput -> reply unit * world;
    ec2DescribeInstances :
      world -> ec2.DescribeInstancesInput -> reply ec2.DescribeInstancesOutput * world;
    ec2DescribeVolumes :
      world -> ec2.DescribeVolumesInput -> reply ec2.DescribeVolumesOutput * world;
    ec2CreateTags : world -> ec2.CreateTagsInput -> reply unit * world;
    ec2DeleteTags : world -> ec2.DeleteTagsInput -> reply unit * world;
    describeASGs : world -> eks.Nodegroup -> reply autoscaling.Group * world }.

(** A call as it reaches a client. *)
Inductive Call : Type :=
| TagResource (input : eks.TagResourceInput)
| UntagResource (input : eks.UntagResourceInput)
| DescribeAutoScalingGroups (input : autoscaling.DescribeAutoScalingGroupsInput)
| CreateOrUpdateTags (input : autoscaling.CreateOrUpdateTagsInput)
| ASGDeleteTags (input : autoscaling.DeleteTagsInput)
| DescribeInstances (input : ec2.DescribeInstancesInput)
| DescribeVolumes (input : ec2.DescribeVolumesInput)
| CreateTags (input : ec2.CreateTagsInput)
| DeleteTags (input : ec2.DeleteTagsInput)
| DescribeASGs (ng : eks.Nodegroup).

(** The state a reconciler runs in: the world behind the clients, the string
    variables whose address was taken, and the calls made so far, each with
    the error it returned ([None] for nil). *)
Record State (C : Cloud) : Type :=
  { st_world : world C;
    st_heap : list string;
    st_log : list (Call * option error) }.
Arguments st_world {C} _.
Arguments st_heap {C} _.
Arguments st_log {C} _.

(** The scope of a service: [s.scope.ClusterName()] and
    [s.scope.AdditionalTags()].  Its logging methods have no effect on the
    tags and are left out. *)
Record Scope : Type :=
  { ClusterName : string;
    AdditionalTags : gmap string string }.
(** ** The reconcilers *)

Section Services.

Context (C : Cloud).

(** [ngTags] is defined in another file of the package and
    [infrav1.ClusterAWSCloudProviderTagKey] in the API package; the code of
    this file only calls them. *)
Variable ngTags : string -> gmap string string -> gmap string string.
Variable ClusterAWSCloudProviderTagKey : string -> string.

(** *** A state and error monad for the bodies of the functions *)

Definition M (A : Type) : Type := State C -> outcome A * State C.

Definition ret {A} (a : A) : M A := fun st => (Done a, st).

(** Sequencing; a callee that does not return normally ends the caller the
    same way: this is [if err != nil { return err }] for an error. *)
Definition bind {A B} (m : M A) (k : A -> M B) : M B :=
  fun st =>
    match m st with
    | (Done a, st') => k a st'
    | (Failed err, st') => (Failed err, st')
    | (Panicked, st') => (Panicked, st')
    | (OutOfFuel, st') => (OutOfFuel, st')
    end.

Definition fail {A} (err : error) : M A := fun st => (Failed err, st).
Definition panic {A} : M A := fun st => (Panicked, st).
Definition outOfFuel {A} : M A := fun st => (OutOfFuel, st).

Notation "'do' x <- m ; k" := (bind m (fun x => k))
  (at level 10, x name, m at level 100, k at level 200, only parsing).
Notation "'do_' m ; k" := (bind m (fun _ => k))
  (at level 10, m at level 100, k at level 200, only parsing).

(** [*p] and [p.Field] for a pointer [p]. *)
Definition deref {A} (p : option A) : M A :=
  match p with
  | Some a => ret a
  | None => panic
  end.

(** [for _, x := range l { f x }] *)
Fixpoint forM_ {A} (l : list A) (f : A -> M unit) : M unit :=
  match l with
  | [] => ret tt
  | x :: l' => do_ f x; forM_ l' f
  end.

(** A [range] loop that updates a local variable [b]. *)
Fixpoint foldM {A B} (f : B -> A -> M B) (b : B) (l : list A) : M B :=
  match l with
  | [] => ret b
  | x :: l' => do b' <- f b x; foldM f b' l'
  end.

(** A string variable whose address is taken lives in the store. *)
Definition alloc (v : string) : M loc :=
  fun st => (Done (length (st_heap st)),
             {| st_world := st_world st; st_heap := st_heap st ++ [v]; st_log := st_log st |}).

Definition store (l : loc) (v : string) : M unit :=
  fun st => (Done tt,
             {| st_world := st_world st; st_heap := <[l := v]> (st_heap st); st_log := st_log st |}).

Definition readHeap : M (list string) := fun st => (Done (st_heap st), st).

(** A call of a client operation: the world answers and moves on, and the
    call is logged with the error it returned. *)
Definition invoke {I O} (op : world C -> I -> reply O * world C) (mk : I -> Call)
    (input : I) : M (reply O) :=
  fun st =>
    let r := op (st_world st) input in
    (Done r.1,
     {| st_world := r.2; st_heap := st_heap st;
        st_log := st_log st ++ [(mk input, replyError r.1)] |}).

(** What the client reads through the pointers of a request. *)
Definition load (h : list string) (p : option loc) : option string :=
  match p with
  | Some l => h !! l
  | None => None
  end.

Definition resolveEC2Tag (h : list string) (t : option ec2.TagPtr) : option ec2.Tag :=
  match t with
  | Some t => Some {| ec2.Key := load h (ec2.KeyPtr t); ec2.Value := load h (ec2.ValuePtr t) |}
  | None => None
  end.

Definition resolveASGTag (h : list string) (t : option autoscaling.TagPtr)
    : option autoscaling.Tag :=
  match t with
  | Some t =>
      Some {| autoscaling.Key := load h (autoscaling.KeyPtr t);
              autoscaling.PropagateAtLaunch := autoscaling.PropagateAtLaunchPtr t;
              autoscaling.ResourceId := autoscaling.ResourceIdPtr t;
              autoscaling.ResourceType := autoscaling.ResourceTypePtr t;
              autoscaling.Value := load h (autoscaling.ValuePtr t) |}
  | None => None
  end.

(** [aws.StringValueMap]: the entries with a nil value are dropped. *)
Definition StringValueMap (src : gmap string (option string)) : gmap string string :=
  omap id src.

(** *** updateTags (lines 277-303) *)

Definition updateTags (arn : option string) (existingTags desiredTags : gmap string string)
    : M unit :=
  let upd := Differ.getTagUpdates existingTags desiredTags in
  let untagKeys := upd.1 in
  let newTags := upd.2 in
  do_ (if decide (0 < size newTags) then
         do r <- invoke (eksTagResource C) TagResource
                   {| eks.TagResource_ResourceArn := arn; eks.TagResource_Tags := newTags |};
         match r with
         | Failure err => fail err
         | Success _ => ret tt
         end
       else ret tt);
  if decide (0 < length untagKeys) then
    do r <- invoke (eksUntagResource C) UntagResource
              {| eks.UntagResource_ResourceArn := arn; eks.TagKeys := untagKeys |};
    match r with
    | Failure err => fail err
    | Success _ => ret tt
    end
  else ret tt.

(** *** updateECSTags (lines 305-341)

    The file is written for the Go versions in which the variables of a
    [for ... range] statement are declared once for the whole loop (the
    comment of [reconcileASGTags] on implicit memory aliasing says so):
    [&k] and [&v] are the same two addresses at every iteration. *)

(** Lines 308-314. *)
Definition createTagsEntries (newTags : gmap string string) : M (list (option ec2.TagPtr)) :=
  do k <- alloc "";
  do v <- alloc "";
  foldM (fun tags kv =>
           do_ store k kv.1;
           do_ store v kv.2;
           ret (tags ++ [Some {| ec2.KeyPtr := Some k; ec2.ValuePtr := Some v |}]))
        [] (map_to_list newTags).

(** Lines 326-329: [tags] starts as [len(untagKeys)] nil pointers. *)
Definition deleteTagsEntries (untagKeys : list string) : M (list (option ec2.TagPtr)) :=
  do k <- alloc "";
  foldM (fun tags ik =>
           do_ store k ik.2;
           ret (<[ik.1 := Some {| ec2.KeyPtr := Some k; ec2.ValuePtr := None |}]> tags))
        (replicate (length untagKeys) None) (imap pair untagKeys).

Definition updateECSTags (resources : list (option string))
    (existingTags desiredTags : gmap string string) : M unit :=
  let upd := Differ.getTagUpdates existingTags desiredTags in
  let untagKeys := upd.1 in
  let newTags := upd.2 in
  do_ (if decide (0 < size newTags) then
         do tags <- createTagsEntries newTags;
         do h <- readHeap;
         do r <- invoke (ec2CreateTags C) CreateTags
                   {| ec2.CreateTags_Resources := resources;
                      ec2.CreateTags_Tags := resolveEC2Tag h <$> tags |};
         match r with
         | Failure err => fail err
         | Success _ => ret tt
         end
       else ret tt);
  if decide (0 < length untagKeys) then
    do tags <- deleteTagsEntries untagKeys;
    do h <- readHeap;
    do r <- invoke (ec2DeleteTags C) DeleteTags
              {| ec2.DeleteTags_Resources := resources;
                 ec2.DeleteTags_Tags := resolveEC2Tag h <$> tags |};
    match r with
    | Failure err => fail err
    | Success _ => ret tt
    end
  else ret tt.

(** *** reconcileEBSVolumeTags (lines 180-210) *)

(** Lines 149-154 and 192-197: a tag of the resource is copied into both
    maps when the tag, its key and its value are not nil. *)
Definition copyTag (maps : gmap string string * gmap string string) (tag : option ec2.Tag)
    : gmap string string * gmap string string :=
  match tag with
  | Some t =>
      match ec2.Key t, ec2.Value t with
      | Some k, Some v => (<[k := v]> maps.1, <[k := v]> maps.2)
      | _, _ => maps
      end
  | None => maps
  end.

(** Lines 155-157 and 198-200: [for k, v := range ngtags { desired[k] = v }]. *)
Definition overlay (desired ngtags : gmap string string) : gmap string string :=
  foldl (fun d kv => <[kv.1 := kv.2]> d) desired (map_to_list ngtags).

(** Lines 189-200: the two maps built for a volume. *)
Definition volumeTagMaps (clusterName nodegroupName : string)
    (volumeTags : list (option ec2.Tag)) (ngtags : gmap string string)
    : gmap string string * gmap string string :=
  let tags : gmap string string := ∅ in
  let desired : gmap string string :=
    <[eksNodeGroupNameTag := nodegroupName]> (<[eksClusterNameTag := clusterName]> ∅) in
  let copied := foldl copyTag (tags, desired) volumeTags in
  (copied.1, overlay copied.2 ngtags).

(** The [for] of lines 187-208: [output] is the value bound at line 183 at
    every iteration. *)
Fixpoint volumePages (fuel : nat) (body : ec2.DescribeVolumesOutput -> M unit)
    (output : ec2.DescribeVolumesOutput) : M unit :=
  match fuel with
  | 0 => outOfFuel
  | S fuel' =>
      do_ body output;
      match ec2.DescribeVolumes_NextToken output with
      | None => ret tt
      | Some _ => volumePages fuel' body output
      end
  end.

Definition reconcileEBSVolumeTags (scope : Scope) (fuel : nat)
    (volumeIds : list (option string)) (ng : eks.Nodegroup) : M unit :=
  let ngtags := ngTags (ClusterName scope) (AdditionalTags scope) in
  do r <- invoke (ec2DescribeVolumes C) DescribeVolumes
            {| ec2.VolumeIds := volumeIds; ec2.DescribeVolumesInput_NextToken := None |};
  match r with
  | Failure err => fail (Wrap err "failed to describe Volumes")
  | Success output =>
      volumePages fuel
        (fun output =>
           forM_ (ec2.Volumes output)
             (fun volume =>
                do nodegroupName <- deref (eks.NodegroupName ng);
                do volume <- deref volume;
                let maps := volumeTagMaps (ClusterName scope) nodegroupName
                              (ec2.Volume_Tags volume) ngtags in
                updateECSTags [ec2.VolumeId volume] maps.1 maps.2))
        output
  end.

(** *** reconcileInstanceTags (lines 122-178) *)

(** Lines 148-157: the two maps built for an instance. *)
Definition instanceTagMaps (instanceTags : list (option ec2.Tag)) (ngtags : gmap string string)
    : gmap string string * gmap string string :=
  let copied := foldl copyTag (∅, ∅) instanceTags in
  (copied.1, overlay copied.2 ngtags).

(** Lines 162-167. *)
Definition collectVolumeIds (mappings : list (option ec2.InstanceBlockDeviceMapping))
    : list (option string) :=
  foldl (fun volumeIds b =>
           match b with
           | Some b =>
               match ec2.Ebs b with
               | Some ebs =>
                   match ec2.Ebs_VolumeId ebs with
                   | Some id => volumeIds ++ [Some id]
                   | None => volumeIds
                   end
               | None => volumeIds
               end
           | None => volumeIds
           end) [] mappings.

(** The [for] of lines 145-176: [output] is the value bound at line 140 at
    every iteration. *)
Fixpoint instancePages (fuel : nat) (body : ec2.DescribeInstancesOutput -> M unit)
    (output : ec2.DescribeInstancesOutput) : M unit :=
  match fuel with
  | 0 => outOfFuel
  | S fuel' =>
      do_ body output;
      match ec2.DescribeInstances_NextToken output with
      | None => ret tt
      | Some _ => instancePages fuel' body output
      end
  end.

Definition reconcileInstanceTags (scope : Scope) (fuel : nat) (ng : eks.Nodegroup) : M unit :=
  let ngtags := ngTags (ClusterName scope) (AdditionalTags scope) in
  do resources <- deref (eks.Resources ng);
  do names <- foldM (fun names asg =>
                       do asg <- deref asg;
                       ret (names ++ [eks.Name asg]))
                    [] (eks.AutoScalingGroups resources);
  do r <- invoke (asgDescribeAutoScalingGroups C) DescribeAutoScalingGroups
            {| autoscaling.AutoScalingGroupNames := names |};
  match r with
  | Failure err => fail (Wrap err "failed to describe AutoScalingGroup for nodegroup")
  | Success groups =>
      do ids <- foldM (fun ids group =>
                         do group <- deref group;
                         foldM (fun ids instance =>
                                  do instance <- deref instance;
                                  ret (ids ++ [autoscaling.InstanceId instance]))
                               ids (autoscaling.Instances group))
                      [] (autoscaling.AutoScalingGroups groups);
      do r <- invoke (ec2DescribeInstances C) DescribeInstances
                {| ec2.InstanceIds := ids; ec2.DescribeInstancesInput_NextToken := None |};
      match r with
      | Failure err => fail (Wrap err "failed to describe Instances")
      | Success output =>
          instancePages fuel
            (fun output =>
               forM_ (ec2.Reservations output)
                 (fun reservation =>
                    do reservation <- deref reservation;
                    forM_ (ec2.Instances reservation)
                      (fun instance =>
                         do instance <- deref instance;
                         let maps := instanceTagMaps (ec2.Instance_Tags instance) ngtags in
                         do_ updateECSTags [ec2.InstanceId instance] maps.1 maps.2;
                         let volumeIds := collectVolumeIds (ec2.BlockDeviceMappings instance) in
                         reconcileEBSVolumeTags scope fuel volumeIds ng)))
            output
      end
  end.

(** *** NodegroupService.reconcileTags (lines 114-120) and
        FargateService.reconcileTags (lines 272-275) *)

Definition reconcileTags (scope : Scope) (fuel : nat) (ng : eks.Nodegroup) : M unit :=
  let tags := ngTags (ClusterName scope) (AdditionalTags scope) in
  do_ updateTags (eks.NodegroupArn ng) (StringValueMap (eks.Tags ng)) tags;
  reconcileInstanceTags scope fuel ng.

Definition reconcileFargateTags (scope : Scope) (fp : eks.FargateProfile) : M unit :=
  let tags := ngTags (ClusterName scope) (AdditionalTags scope) in
  updateTags (eks.FargateProfileArn fp) (StringValueMap (eks.FargateProfile_Tags fp)) tags.

(** *** reconcileASGTags (lines 212-270) *)

Definition tagDescriptionsToMap (input : list (option autoscaling.TagDescription))
    : M (gmap string string) :=
  foldM (fun tags v =>
           do v <- deref v;
           do key <- deref (autoscaling.TagDescription_Key v);
           do value <- deref (autoscaling.TagDescription_Value v);
           ret (<[key := value]> tags))
        ∅ input.

(** Lines 232-244: [kCopy] and [vCopy] are new variables at every iteration. *)
Definition createOrUpdateEntries (asg : autoscaling.Group) (tagsToAdd : gmap string string)
    : M (list (option autoscaling.TagPtr)) :=
  foldM (fun tags kv =>
           do kCopy <- alloc kv.1;
           do vCopy <- alloc kv.2;
           ret (tags ++ [Some {| autoscaling.KeyPtr := Some kCopy;
                                 autoscaling.PropagateAtLaunchPtr := Some true;
                                 autoscaling.ResourceIdPtr := autoscaling.AutoScalingGroupName asg;
                                 autoscaling.ResourceTypePtr := Some "auto-scaling-group";
                                 autoscaling.ValuePtr := Some vCopy |}]))
        [] (map_to_list tagsToAdd).

(** Lines 253-262. *)
Definition deleteEntries (asg : autoscaling.Group) (tagsToDelete : gmap string string)
    : M (list (option autoscaling.TagPtr)) :=
  foldM (fun tags kv =>
           do kCopy <- alloc kv.1;
           ret (tags ++ [Some {| autoscaling.KeyPtr := Some kCopy;
                                 autoscaling.PropagateAtLaunchPtr := None;
                                 autoscaling.ResourceIdPtr := autoscaling.AutoScalingGroupName asg;
                                 autoscaling.ResourceTypePtr := Some "auto-scaling-group";
                                 autoscaling.ValuePtr := None |}]))
        [] (map_to_list tagsToDelete).

Definition reconcileASGTags (scope : Scope) (ng : eks.Nodegroup) : M unit :=
  do _name <- deref (eks.NodegroupName ng);
  do r <- invoke (describeASGs C) DescribeASGs ng;
  match r with
  | Failure err => fail (Wrap err "failed to describe ASG for nodegroup")
  | Success asg =>
      do currentTags <- tagDescriptionsToMap (autoscaling.Group_Tags asg);
      let upd := ASGDiffer.getASGTagUpdates ClusterAWSCloudProviderTagKey
                   (ClusterName scope) currentTags (AdditionalTags scope) in
      let tagsToDelete := upd.1 in
      let tagsToAdd := upd.2 in
      do_ (if decide (0 < size tagsToAdd) then
             do tags <- createOrUpdateEntries asg tagsToAdd;
             do h <- readHeap;
             do r <- invoke (asgCreateOrUpdateTags C) CreateOrUpdateTags
                       {| autoscaling.CreateOrUpdate_Tags := resolveASGTag h <$> tags |};
             match r with
             | Failure err => fail (Wrap err "failed to add tags to nodegroup's AutoScalingGroup")
             | Success _ => ret tt
             end
           else ret tt);
      if decide (0 < size tagsToDelete) then
        do tags <- deleteEntries asg tagsToDelete;
        do h <- readHeap;
        do r <- invoke (asgDeleteTags C) ASGDeleteTags
                  {| autoscaling.Delete_Tags := resolveASGTag h <$> tags |};
        match r with
        | Failure err => fail (Wrap err "failed to delete tags to nodegroup's AutoScalingGroup")
        | Success _ => ret tt
        end
      else ret tt
  end.

End Services.

Arguments ret {C A} a.
Arguments bind {C A B} m k.
Arguments fail {C A} err.
Arguments panic {C A}.
Arguments outOfFuel {C A}.
Arguments deref {C A} p.
Arguments forM_ {C A} l f.
Arguments foldM {C A B} f b l.
Arguments alloc {C} v.
Arguments store {C} l v.
Arguments readHeap {C}.
Arguments invoke {C I O} op mk input.

(** ** Statements about the calls of a run *)

(** How a run ended, without the value returned. *)
Inductive ending : Type :=
| Returned
| Errored (err : error)
| Panics
| Spins.

Definition endingOf {A} (o : outcome A) : ending :=
  match o with
  | Done _ => Returned
  | Failed err => Errored err
  | Panicked => Panics
  | OutOfFuel => Spins
  end.

Section Triples.

Context {C : Cloud}.

(** [triple m P R]: from every state, [m] only appends calls to the log;
    the calls it appends and the way it ends satisfy [P], and the value it
    returns, when it returns one, satisfies [R]. *)
Definition triple {A} (m : M C A) (P : list (Call * option error) -> ending -> Prop)
    (R : A -> Prop) : Prop :=
  forall st, exists calls,
    st_log (m st).2 = st_log st ++ calls
    /\ P calls (endingOf (m st).1)
    /\ (forall a, (m st).1 = Done a -> R a).

(** A property of appended calls that survives sequencing. *)
Definition sequential (P : list (Call * option error) -> ending -> Prop) : Prop :=
  P [] Returned
  /\ forall c1 c2 e, P c1 Returned -> P c2 e -> P (c1 ++ c2) e.

End Triples.

(** The call is not an EC2 [DeleteTags]. *)
Definition notDeleteTags (c : Call * option error) : Prop :=
  forall input, c.1 <> DeleteTags input.

Definition noDeleteTags (calls : list (Call * option error)) (_ : ending) : Prop :=
  Forall notDeleteTags calls.


(** Every entry of a [CreateOrUpdateTags] request is set to propagate at
    launch. *)
Definition propagatesAtLaunch (t : option autoscaling.Tag) : Prop :=
  exists tag, t = Some tag /\ autoscaling.PropagateAtLaunch tag = Some true.

Definition requestsPropagate (c : Call * option error) : Prop :=
  forall input, c.1 = CreateOrUpdateTags input ->
                Forall propagatesAtLaunch (autoscaling.CreateOrUpdate_Tags input).

Definition allRequestsPropagate (calls : list (Call * option error)) (_ : ending) : Prop :=
  Forall requestsPropagate calls.

(** The message the file wraps around the error of a call, if any. *)
Definition contextOf (c : Call) : option string :=
  match c with
  | DescribeAutoScalingGroups _ => Some "failed to describe AutoScalingGroup for nodegroup"
  | DescribeInstances _ => Some "failed to describe Instances"
  | DescribeVolumes _ => Some "failed to describe Volumes"
  | DescribeASGs _ => Some "failed to describe ASG for nodegroup"
  | CreateOrUpdateTags _ => Some "failed to add tags to nodegroup's AutoScalingGroup"
  | ASGDeleteTags _ => Some "failed to delete tags to nodegroup's AutoScalingGroup"
  | TagResource _ | UntagResource _ | CreateTags _ | DeleteTags _ => None
  end.

(** The error a reconciler returns when call [c] failed with [err]. *)
Definition reported (c : Call) (err : error) : error :=
  match contextOf c with
  | Some message => Wrap err message
  | None => err
  end.

Definition succeeded (c : Call * option error) : Prop := c.2 = None.

(** The calls of a run that stops at the first failure: when the run ends
    with an error, its last call is the one that failed, every call before
    it succeeded, and the error is the one reported for that call; when it
    ends otherwise, every call succeeded. *)
Definition failFast (calls : list (Call * option error)) (e : ending) : Prop :=
  match e with
  | Errored err' =>
      exists pre c err,
        calls = pre ++ [(c, Some err)] /\ Forall succeeded pre /\ err' = reported c err
  | _ => Forall succeeded calls
  end.

Definition abortsOnFailure {C : Cloud} {A} (m : M C A) : Prop :=
  forall st, exists calls,
    st_log (m st).2 = st_log st ++ calls /\ failFast calls (endingOf (m st).1).

(** The entries of the call, when it is an EC2 [CreateTags], are all the
    same entry. *)
Definition entriesAllEqual (c : Call * option error) : Prop :=
  forall input, c.1 = CreateTags input ->
                exists t, Forall (fun t' => t' = t) (ec2.CreateTags_Tags input).

Definition createTagsAliased (calls : list (Call * option error)) (_ : ending) : Prop :=
  Forall entriesAllEqual calls.

(** The pointers of an entry point into the store [h]. *)
Definition validIn (h : list string) (t : option autoscaling.TagPtr) : Prop :=
  match t with
  | Some p =>
      (forall l, autoscaling.KeyPtr p = Some l -> l < length h)
      /\ (forall l, autoscaling.ValuePtr p = Some l -> l < length h)
  | None => True
  end.

(** The entry [reconcileASGTags] means to send for a pair of [tagsToAdd]. *)
Definition entryFor (asg : autoscaling.Group) (kv : string * string) : option autoscaling.Tag :=
  Some {| autoscaling.Key := Some kv.1;
          autoscaling.PropagateAtLaunch := Some true;
          autoscaling.ResourceId := autoscaling.AutoScalingGroupName asg;
          autoscaling.ResourceType := Some "auto-scaling-group";
          autoscaling.Value := Some kv.2 |}.

(** The call asks for a page of instances (of volumes). *)
Definition describesInstances (c : Call * option error) : bool :=
  match c.1 with
  | DescribeInstances _ => true
  | _ => false
  end.

Definition describesVolumes (c : Call * option error) : bool :=
  match c.1 with
  | DescribeVolumes _ => true
  | _ => false
  end.

(** No call of the run satisfies [p]; at most one does, and the run does
    not return. *)
Definition noCall (p : Call * option error -> bool) (calls : list (Call * option error))
    (_ : ending) : Prop :=
  Forall (fun c => p c = false) calls.

Definition atMostOnce (p : Call * option error -> bool) (calls : list (Call * option error))
    (e : ending) : Prop :=
  length (List.filter p calls) <= 1 /\ e <> Returned.


(** ** The order of the calls *)

(** A call without the tags it carries: the operation and what it is
    made on. *)
Inductive Brief : Type :=
| BTagResource (arn : option string)
| BUntagResource (arn : option string)
| BDescribeAutoScalingGroups
| BCreateOrUpdateTags
| BASGDeleteTags
| BDescribeInstances
| BDescribeVolumes (volumeIds : list (option string))
| BCreateTags (resources : list (option string))
| BDeleteTags (resources : list (option string))
| BDescribeASGs.

Definition brief (c : Call) : Brief :=
  match c with
  | TagResource input => BTagResource (eks.TagResource_ResourceArn input)
  | UntagResource input => BUntagResource (eks.UntagResource_ResourceArn input)
  | DescribeAutoScalingGroups _ => BDescribeAutoScalingGroups
  | CreateOrUpdateTags _ => BCreateOrUpdateTags
  | ASGDeleteTags _ => BASGDeleteTags
  | DescribeInstances _ => BDescribeInstances
  | DescribeVolumes input => BDescribeVolumes (ec2.VolumeIds input)
  | CreateTags input => BCreateTags (ec2.CreateTags_Resources input)
  | DeleteTags input => BDeleteTags (ec2.DeleteTags_Resources input)
  | DescribeASGs _ => BDescribeASGs
  end.

Definition briefs (calls : list (Call * option error)) : list Brief :=
  (fun c => brief c.1) <$> calls.

(** A call that writes or removes tags of an Auto Scaling Group. *)
Definition isASGTagCall (b : Brief) : bool :=
  match b with
  | BCreateOrUpdateTags | BASGDeleteTags => true
  | _ => false
  end.

(** The run returns and its calls are, in order, [s]. *)
Definition yields (s : list Brief) (calls : list (Call * option error)) (e : ending) : Prop :=
  e = Returned /\ briefs calls = s.

(** The calls [updateTags] makes on the nodegroup when every call succeeds. *)
Definition nodegroupCalls (arn : option string) (existingTags desiredTags : gmap string string)
    : list Brief :=
  let upd := Differ.getTagUpdates existingTags desiredTags in
  (if decide (0 < size upd.2) then [BTagResource arn] else [])
  ++ (if decide (0 < length upd.1) then [BUntagResource arn] else []).

(** The tag call made on an instance: none when there is nothing to write. *)
Definition instanceCalls (ngtags : gmap string string) (instance : ec2.Instance) : list Brief :=
  let maps := instanceTagMaps (ec2.Instance_Tags instance) ngtags in
  if decide (0 < size (Differ.getTagUpdates maps.1 maps.2).2)
  then [BCreateTags [ec2.InstanceId instance]] else [].

(** The tag call made on a volume. *)
Definition volumeCalls (clusterName nodegroupName : string) (ngtags : gmap string string)
    (volume : ec2.Volume) : list Brief :=
  let maps := volumeTagMaps clusterName nodegroupName (ec2.Volume_Tags volume) ngtags in
  if decide (0 < size (Differ.getTagUpdates maps.1 maps.2).2)
  then [BCreateTags [ec2.VolumeId volume]] else [].

(** ** Clients for the examples

    Stateless clients: the reply of an operation depends on the request
    only. *)

Definition answer {I O} (f : I -> reply O) : unit -> I -> reply O * unit :=
  fun _ input => (f input, tt).

(** Every tag call succeeds; a describe call is answered from the given
    tables. *)
Definition tableCloud
    (groups : autoscaling.DescribeAutoScalingGroupsOutput)
    (instances : ec2.DescribeInstancesInput -> ec2.DescribeInstancesOutput)
    (volumes : ec2.DescribeVolumesInput -> ec2.DescribeVolumesOutput)
    (asg : autoscaling.Group) : Cloud :=
  {| world := unit;
     eksTagResource := answer (fun _ => Success tt);
     eksUntagResource := answer (fun _ => Success tt);
     asgDescribeAutoScalingGroups := answer (fun _ => Success groups);
     asgCreateOrUpdateTags := answer (fun _ => Success tt);
     asgDeleteTags := answer (fun _ => Success tt);
     ec2DescribeInstances := answer (fun input => Success (instances input));
     ec2DescribeVolumes := answer (fun input => Success (volumes input));
     ec2CreateTags := answer (fun _ => Success tt);
     ec2DeleteTags := answer (fun _ => Success tt);
     describeASGs := answer (fun _ => Success asg) |}.

(** Every call is refused. *)
Definition denyCloud : Cloud :=
  {| world := unit;
     eksTagResource := answer (fun _ => Failure (AWSError "AccessDenied"));
     eksUntagResource := answer (fun _ => Failure (AWSError "AccessDenied"));
     asgDescribeAutoScalingGroups := answer (fun _ => Failure (AWSError "AccessDenied"));
     asgCreateOrUpdateTags := answer (fun _ => Failure (AWSError "AccessDenied"));
     asgDeleteTags := answer (fun _ => Failure (AWSError "AccessDenied"));
     ec2DescribeInstances := answer (fun _ => Failure (AWSError "AccessDenied"));
     ec2DescribeVolumes := answer (fun _ => Failure (AWSError "AccessDenied"));
     ec2CreateTags := answer (fun _ => Failure (AWSError "AccessDenied"));
     ec2DeleteTags := answer (fun _ => Failure (AWSError "AccessDenied"));
     describeASGs := answer (fun _ => Failure (AWSError "AccessDenied")) |}.

(** The state before the first call. *)
Definition start (C : Cloud) (w : world C) : State C :=
  {| st_world := w; st_heap := []; st_log := [] |}.

Definition emptyGroup : autoscaling.Group :=
  {| autoscaling.AutoScalingGroupName := Some "asg-1";
     autoscaling.Instances := [];
     autoscaling.Group_Tags := [] |}.

(** No group, no instance, no volume. *)
Definition emptyCloud : Cloud :=
  tableCloud {| autoscaling.AutoScalingGroups := [] |}
    (fun _ => {| ec2.Reservations := []; ec2.DescribeInstances_NextToken := None |})
    (fun _ => {| ec2.Volumes := []; ec2.DescribeVolumes_NextToken := None |})
    emptyGroup.

(** [ngTags] as the examples take it: the additional tags and the ownership
    tag of the cluster. *)
Definition sampleNgTags (clusterName : string) (additional : gmap string string)
    : gmap string string :=
  <["kubernetes.io/cluster/" +:+ clusterName := "owned"]> additional.

Definition sampleScope : Scope :=
  {| ClusterName := "c1"; AdditionalTags := {["team" := "a"]} |}.

(** An instance and a volume as the describe calls return them. *)
Definition instanceOf (id : string) (tags : list (option ec2.Tag)) (volumeId : option string)
    : ec2.Instance :=
  {| ec2.InstanceId := Some id;
     ec2.Instance_Tags := tags;
     ec2.BlockDeviceMappings :=
       match volumeId with
       | Some v => [Some {| ec2.Ebs := Some {| ec2.Ebs_VolumeId := Some v |} |}]
       | None => []
       end |}.

Definition volumeOf (id : string) (tags : list (option ec2.Tag)) : ec2.Volume :=
  {| ec2.VolumeId := Some id; ec2.Volume_Tags := tags |}.

Definition groupOf (name : string) (instanceIds : list string) : autoscaling.Group :=
  {| autoscaling.AutoScalingGroupName := Some name;
     autoscaling.Instances :=
       (fun id => Some {| autoscaling.InstanceId := Some id |}) <$> instanceIds;
     autoscaling.Group_Tags := [] |}.

Definition nodegroupOf (groupNames : list string) : eks.Nodegroup :=
  {| eks.NodegroupArn := Some "arn:ng";
     eks.NodegroupName := Some "ng-1";
     eks.Resources :=
       Some {| eks.AutoScalingGroups :=
                 (fun name => Some {| eks.Name := Some name |}) <$> groupNames |};
     eks.Tags := ∅ |}.

(** Three pages of instances, one instance each: the first page is the
    answer to a request without token. *)
Definition instancePage (id : string) (next : option string) : ec2.DescribeInstancesOutput :=
  {| ec2.Reservations := [Some {| ec2.Instances := [Some (instanceOf id [] None)] |}];
     ec2.DescribeInstances_NextToken := next |}.

Definition threePages (input : ec2.DescribeInstancesInput) : ec2.DescribeInstancesOutput :=
  match ec2.DescribeInstancesInput_NextToken input with
  | None => instancePage "i-1" (Some "page-2")
  | Some token =>
      if decide (token = "page-2") then instancePage "i-2" (Some "page-3")
      else instancePage "i-3" None
  end.

Definition pagedCloud : Cloud :=
  tableCloud {| autoscaling.AutoScalingGroups := [Some (groupOf "asg-1" ["i-1"; "i-2"; "i-3"])] |}
    threePages
    (fun _ => {| ec2.Volumes := []; ec2.DescribeVolumes_NextToken := None |})
    emptyGroup.

(** One page of instances, each in a reservation of its own, and one page
    of volumes. *)
Definition onePage (instances : list ec2.Instance) : ec2.DescribeInstancesOutput :=
  {| ec2.Reservations := (fun i => Some {| ec2.Instances := [Some i] |}) <$> instances;
     ec2.DescribeInstances_NextToken := None |}.

Definition onePageOfVolumes (volumes : list ec2.Volume) : ec2.DescribeVolumesOutput :=
  {| ec2.Volumes := Some <$> volumes; ec2.DescribeVolumes_NextToken := None |}.

(** A nodegroup with two Auto Scaling Groups, each with one instance with
    one volume; no resource has a tag yet. *)
Definition cascadeCloud : Cloud :=
  tableCloud
    {| autoscaling.AutoScalingGroups :=
         [Some (groupOf "asg-1" ["i-1"]); Some (groupOf "asg-2" ["i-2"])] |}
    (fun _ => onePage [instanceOf "i-1" [] (Some "vol-1"); instanceOf "i-2" [] (Some "vol-2")])
    (fun input =>
       match ec2.VolumeIds input with
       | [Some v] => onePageOfVolumes [volumeOf v []]
       | _ => onePageOfVolumes []
       end)
    emptyGroup.

(** ** Applying a diff in the order the calls are sent *)

(** [updateTags] and [updateECSTags] send the tags to write first and the
    keys to remove second. *)
Definition applyInCallOrder (currentTags : gmap string string)
    (upd : list string * gmap string string) : gmap string string :=
  let written := foldl (fun m kv => <[kv.1 := kv.2]> m) currentTags (map_to_list upd.2) in
  foldl (fun m k => delete k m) written upd.1.

(** [reconcileASGTags] sends [tagsToAdd] first and the keys of
    [tagsToDelete] second. *)
Definition applyASGUpdates (currentTags : gmap string string)
    (upd : gmap string string * gmap string string) : gmap string string :=
  let written := foldl (fun m kv => <[kv.1 := kv.2]> m) currentTags (map_to_list upd.2) in
  foldl (fun m kv => delete kv.1 m) written (map_to_list upd.1).

(** ** Tag lists *)

(** A tag description with a key and a value, as [tagDescriptionsToMap]
    needs it. *)
Definition describedAs (kv : string * string) : option autoscaling.TagDescription :=
  Some {| autoscaling.TagDescription_Key := Some kv.1;
          autoscaling.TagDescription_Value := Some kv.2 |}.

Definition wellFormedDescription (d : option autoscaling.TagDescription) : Prop :=
  exists kv, d = describedAs kv.

(** The volume id of a block device mapping, when the mapping, its EBS
    device and the id are not nil. *)
Definition volumeIdOf (b : option ec2.InstanceBlockDeviceMapping) : option string :=
  match b with
  | Some b =>
      match ec2.Ebs b with
      | Some ebs => ec2.Ebs_VolumeId ebs
      | None => None
      end
  | None => None
  end.

(** The identity tags a volume gets when it has no tag under their keys. *)
Definition identityTags (clusterName nodegroupName : string) : gmap string string :=
  <[eksNodeGroupNameTag := nodegroupName]> (<[eksClusterNameTag := clusterName]> ∅).

(** ** Ends of a run *)

(** The run does not end with its loop still turning. *)
Definition endsWithinFuel (_ : list (Call * option error)) (e : ending) : Prop :=
  e <> Spins.

(** ** Request entries *)

(** The pair a [range] loop over [l] leaves in its variables, [kv] when
    the loop does not turn. *)
Definition lastVisited {A} (kv : A) (l : list A) : A := foldl (fun _ x => x) kv l.

(** The entry [reconcileASGTags] means to send for a pair of
    [tagsToDelete]. *)
Definition deleteEntryFor (asg : autoscaling.Group) (kv : string * string)
    : option autoscaling.Tag :=
  Some {| autoscaling.Key := Some kv.1;
          autoscaling.PropagateAtLaunch := None;
          autoscaling.ResourceId := autoscaling.AutoScalingGroupName asg;
          autoscaling.ResourceType := Some "auto-scaling-group";
          autoscaling.Value := None |}.

(** Every [DeleteTags] request of the run has one entry for each key of
    [untagKeys], and all the entries read the same key of [untagKeys]. *)
Definition deleteRequestsShareKey (untagKeys : list string)
    (calls : list (Call * option error)) (_ : ending) : Prop :=
  Forall (fun c => forall input,
              c.1 = DeleteTags input ->
              exists k, k ∈ untagKeys
                        /\ ec2.DeleteTags_Tags input
                           = replicate (length untagKeys)
                               (Some {| ec2.Key := Some k; ec2.Value := None |})) calls.

(** The requests [reconcileASGTags] may send for the given scope: a
    [CreateOrUpdateTags] request has one entry for each pair of a map of
    additional tags; a [DeleteTags] request has one entry for each key of a
    map none of whose keys is managed by EKS or defined by the additional
    tags. *)
Definition soundASGRequest (official : list string) (additional : gmap string string)
    (c : Call * option error) : Prop :=
  (forall input,
      c.1 = CreateOrUpdateTags input ->
      exists asg (m : gmap string string),
        autoscaling.CreateOrUpdate_Tags input = (entryFor asg <$> map_to_list m)
        /\ m ⊆ additional)
  /\ (forall input,
        c.1 = ASGDeleteTags input ->
        exists asg (m : gmap string string),
          autoscaling.Delete_Tags input = (deleteEntryFor asg <$> map_to_list m)
          /\ forall k, is_Some (m !! k) -> (k ∉ official) /\ additional !! k = None).

Definition soundASGRequests (official : list string) (additional : gmap string string)
    (calls : list (Call * option error)) (_ : ending) : Prop :=
  Forall (soundASGRequest official additional) calls.

(** ** The cascade over any number of instances and volumes *)

(** The calls made for one instance when every call succeeds and
    [DescribeVolumes] answers the ids [ids] with the one page
    [volumesOf ids]: the tag call on the instance, the describe call for its
    volumes, the tag calls on the volumes of the reply. *)
Definition instanceCascade (volumesOf : list (option string) -> list ec2.Volume)
    (clusterName nodegroupName : string) (ngtags : gmap string string)
    (instance : ec2.Instance) : list Brief :=
  let volumeIds := collectVolumeIds (ec2.BlockDeviceMappings instance) in
  instanceCalls ngtags instance
  ++ BDescribeVolumes volumeIds
     :: concat (volumeCalls clusterName nodegroupName ngtags <$> volumesOf volumeIds).

(** Replies without nil entries. *)
Definition groupsReply (groups : list (string * list string))
    : autoscaling.DescribeAutoScalingGroupsOutput :=
  {| autoscaling.AutoScalingGroups := (fun g => Some (groupOf g.1 g.2)) <$> groups |}.

Definition reservationsReply (reservations : list (list ec2.Instance))
    : ec2.DescribeInstancesOutput :=
  {| ec2.Reservations := (fun r => Some {| ec2.Instances := Some <$> r |}) <$> reservations;
     ec2.DescribeInstances_NextToken := None |}.

(** The one page of volumes [cascadeCloud] answers for a list of ids. *)
Definition cascadeVolumes (volumeIds : list (option string)) : list ec2.Volume :=
  match volumeIds with
  | [Some v] => [volumeOf v []]
  | _ => []
  end.

(** A Fargate profile with a tag the nodegroup tags do not define and a tag
    without value. *)
Definition sampleProfile : eks.FargateProfile :=
  {| eks.FargateProfileArn := Some "arn:fp";
     eks.FargateProfile_Tags := <["stale" := Some "y"]> (<["empty" := None]> ∅) |}.

(** Pages of volumes that always announce a next page. *)
Definition pagedVolumesCloud : Cloud :=
  tableCloud {| autoscaling.AutoScalingGroups := [] |}
    (fun _ => onePage [])
    (fun _ => {| ec2.Volumes := [Some (volumeOf "vol-1" [])];
                 ec2.DescribeVolumes_NextToken := Some "page-2" |})
    emptyGroup.

(** A nodegroup that has no resources yet. *)
Definition pendingNodegroup : eks.Nodegroup :=
  {| eks.NodegroupArn := Some "arn:ng";
     eks.NodegroupName := Some "ng-1";
     eks.Resources := None;
     eks.Tags := ∅ |}.

(** The call is a tag call of the EKS client on [arn]. *)
Definition onResource (arn : option string) (c : Call * option error) : Prop :=
  brief c.1 = BTagResource arn \/ brief c.1 = BUntagResource arn.

(** The calls of [updateTags] on [arn], and how it may end. *)
Definition tagCallsOn (arn : option string) (calls : list (Call * option error))
    (e : ending) : Prop :=
  Forall (onResource arn) calls /\ e <> Panics /\ e <> Spins.
(** ** Properties of the differ loops *)

Section DifferLoops.

Implicit Types (l : list (string * string)) (m tags currentTags : gmap string string).

Lemma untag_loop_spec tags l acc :
  foldl (Differ.untagStep tags) acc l
  = acc ++ (filter (fun kv => tags !! kv.1 = None) l).*1.
Proof.
  revert acc. induction l as [|[k v] l IH]; intros acc; simpl.
  - by rewrite app_nil_r.
  - rewrite IH. unfold Differ.untagStep. simpl.
    rewrite filter_cons. simpl.
    destruct (decide (tags !! k = None)) as [E|E].
    + rewrite E. simpl. by rewrite <- app_assoc.
    + by destruct (tags !! k).
Qed.

Lemma newTag_loop_lookup currentTags l acc k :
  NoDup l.*1 ->
  foldl (Differ.newTagStep currentTags) acc l !! k
  = match (list_to_map l : gmap string string) !! k with
    | Some v => if decide (currentTags !! k = Some v) then acc !! k else Some v
    | None => acc !! k
    end.
Proof.
  revert acc. induction l as [|[k0 v0] l IH]; intros acc Hnd; simpl.
  - by rewrite lookup_empty.
  - apply NoDup_cons in Hnd as [Hnotin Hnd].
    rewrite IH by done.
    destruct (decide (k0 = k)) as [->|Hne].
    + rewrite lookup_insert_eq.
      rewrite (not_elem_of_list_to_map_1 _ k) by done.
      unfold Differ.newTagStep. simpl.
      destruct (currentTags !! k) as [cv|] eqn:E.
      * destruct (decide (v0 = cv)) as [->|Hv].
        -- by rewrite decide_True.
        -- rewrite decide_False by congruence. by rewrite lookup_insert_eq.
      * rewrite decide_False by done. by rewrite lookup_insert_eq.
    + rewrite lookup_insert_ne by done.
      assert (Differ.newTagStep currentTags acc (k0, v0) !! k = acc !! k) as ->; [|done].
      unfold Differ.newTagStep. simpl.
      destruct (currentTags !! k0); [case_decide|]; by rewrite ?lookup_insert_ne.
Qed.

Lemma newTags_lookup currentTags tags k :
  (Differ.getTagUpdates currentTags tags).2 !! k
  = match tags !! k with
    | Some v => if decide (currentTags !! k = Some v) then None else Some v
    | None => None
    end.
Proof.
  unfold Differ.getTagUpdates. simpl.
  rewrite newTag_loop_lookup by apply NoDup_fst_map_to_list.
  rewrite list_to_map_to_list, lookup_empty. done.
Qed.

Lemma untagKeys_elem currentTags tags k :
  k ∈ (Differ.getTagUpdates currentTags tags).1
  <-> is_Some (currentTags !! k) /\ tags !! k = None.
Proof.
  unfold Differ.getTagUpdates. simpl. rewrite untag_loop_spec. simpl.
  rewrite list_elem_of_fmap. split.
  - intros [[k' v] [-> Hin]]. apply list_elem_of_filter in Hin as [Hnone Hin].
    apply elem_of_map_to_list in Hin. simpl in *. eauto.
  - intros [[v Hv] Hnone]. exists (k, v). split; [done|].
    apply list_elem_of_filter. split; [done|]. by apply elem_of_map_to_list.
Qed.

Lemma untagKeys_NoDup currentTags tags :
  NoDup (Differ.getTagUpdates currentTags tags).1.
Proof.
  unfold Differ.getTagUpdates. simpl. rewrite untag_loop_spec. simpl.
  eapply sublist_NoDup; [apply (NoDup_fst_map_to_list currentTags)|].
  apply fmap_sublist, sublist_filter.
Qed.

End DifferLoops.

Section ApplyLoops.

Implicit Types (l : list (string * string)) (m : gmap string string).

Lemma delete_loop_lookup m (ks : list string) k :
  foldl (fun m k => delete k m) m ks !! k = if decide (k ∈ ks) then None else m !! k.
Proof.
  revert m. induction ks as [|k0 ks IH]; intros m; simpl.
  - done.
  - rewrite IH. destruct (decide (k ∈ ks)) as [Hin|Hnin].
    + rewrite decide_True; [done|]. apply elem_of_cons. by right.
    + destruct (decide (k0 = k)) as [->|Hne].
      * rewrite lookup_delete_eq. rewrite decide_True; [done|]. apply elem_of_cons. by left.
      * rewrite lookup_delete_ne by done. rewrite decide_False; [done|].
        intros Hin. apply elem_of_cons in Hin as [->|]; done.
Qed.

Lemma insert_loop_lookup l m k :
  NoDup l.*1 ->
  foldl (fun m kv => <[kv.1 := kv.2]> m) m l !! k
  = match (list_to_map l : gmap string string) !! k with
    | Some v => Some v
    | None => m !! k
    end.
Proof.
  revert m. induction l as [|[k0 v0] l IH]; intros m Hnd; simpl.
  - by rewrite lookup_empty.
  - apply NoDup_cons in Hnd as [Hnotin Hnd]. rewrite IH by done.
    destruct (decide (k0 = k)) as [->|Hne].
    + rewrite !lookup_insert_eq. by rewrite (not_elem_of_list_to_map_1 _ k).
    + by rewrite !lookup_insert_ne.
Qed.

Lemma overlay_lookup (desired ngtags : gmap string string) k :
  overlay desired ngtags !! k
  = match ngtags !! k with
    | Some v => Some v
    | None => desired !! k
    end.
Proof.
  unfold overlay. rewrite insert_loop_lookup by apply NoDup_fst_map_to_list.
  by rewrite list_to_map_to_list.
Qed.

End ApplyLoops.

Section ASGDifferLoops.

Variable ClusterAWSCloudProviderTagKey : string -> string.

Lemma isOfficialTag_true official k :
  ASGDiffer.isOfficialTag official k = true <-> k ∈ official.
Proof.
  induction official as [|tag rest IH]; simpl.
  - split; [done|]. intros H. by apply not_elem_of_nil in H.
  - destruct (decide (tag = k)) as [->|Hne].
    + split; [intros _; apply elem_of_cons; by left|done].
    + rewrite IH. split; [intros H; apply elem_of_cons; by right|].
      intros H. apply elem_of_cons in H as [->|]; done.
Qed.

Lemma delete_step_loop_lookup official (tags : gmap string string)
    (l : list (string * string)) (acc : gmap string string) k :
  NoDup l.*1 ->
  foldl (ASGDiffer.deleteStep official tags) acc l !! k
  = match (list_to_map l : gmap string string) !! k with
    | Some v => if decide (tags !! k = None /\ ASGDiffer.isOfficialTag official k = false)
                then Some v else acc !! k
    | None => acc !! k
    end.
Proof.
  revert acc. induction l as [|[k0 v0] l IH]; intros acc Hnd; simpl.
  - by rewrite lookup_empty.
  - apply NoDup_cons in Hnd as [Hnotin Hnd]. rewrite IH by done.
    destruct (decide (k0 = k)) as [->|Hne].
    + rewrite lookup_insert_eq, (not_elem_of_list_to_map_1 _ k) by done.
      unfold ASGDiffer.deleteStep. simpl.
      destruct (tags !! k) eqn:E.
      * rewrite decide_False; [done|]. by intros [? _].
      * destruct (ASGDiffer.isOfficialTag official k) eqn:E'.
        -- rewrite decide_False; [done|]. by intros [_ ?].
        -- rewrite decide_True by done. by rewrite lookup_insert_eq.
    + rewrite lookup_insert_ne by done.
      assert (ASGDiffer.deleteStep official tags acc (k0, v0) !! k = acc !! k) as ->; [|done].
      unfold ASGDiffer.deleteStep. simpl.
      destruct (tags !! k0); [done|].
      destruct (ASGDiffer.isOfficialTag official k0); [done|]. by rewrite lookup_insert_ne.
Qed.

Lemma tagsToDelete_lookup clusterName (currentTags tags : gmap string string) k :
  (ASGDiffer.getASGTagUpdates ClusterAWSCloudProviderTagKey clusterName currentTags tags).1 !! k
  = match currentTags !! k with
    | Some v =>
        if decide (tags !! k = None
                   /\ ASGDiffer.isOfficialTag
                        (ASGDiffer.officialASGTagsByEKS ClusterAWSCloudProviderTagKey clusterName) k
                      = false)
        then Some v else None
    | None => None
    end.
Proof.
  unfold ASGDiffer.getASGTagUpdates. simpl.
  rewrite delete_step_loop_lookup by apply NoDup_fst_map_to_list.
  by rewrite list_to_map_to_list, lookup_empty.
Qed.

Lemma tagsToAdd_lookup clusterName (currentTags tags : gmap string string) k :
  (ASGDiffer.getASGTagUpdates ClusterAWSCloudProviderTagKey clusterName currentTags tags).2 !! k
  = match tags !! k with
    | Some v => if decide (currentTags !! k = Some v) then None else Some v
    | None => None
    end.
Proof.
  unfold ASGDiffer.getASGTagUpdates. simpl.
  rewrite newTag_loop_lookup by apply NoDup_fst_map_to_list.
  by rewrite list_to_map_to_list, lookup_empty.
Qed.

End ASGDifferLoops.

(** ** The differ: what it returns *)

(** C1. For all tag maps [currentTags] and [tags], [getTagUpdates] returns
    as keys to delete exactly the keys of [currentTags] that [tags] lacks
    (each once), and as tags to write exactly the pairs of [tags] whose key
    [currentTags] lacks or holds with another value.  It is a function: it
    returns for every pair of maps and has no error result. *)
Theorem getTagUpdates_exact (currentTags tags : gmap string string) :
  let upd := Differ.getTagUpdates currentTags tags in
  (forall k, k ∈ upd.1 <-> is_Some (currentTags !! k) /\ tags !! k = None)
  /\ NoDup upd.1
  /\ (forall k v, upd.2 !! k = Some v
                  <-> tags !! k = Some v
                      /\ (currentTags !! k = None
                          \/ exists currentV, currentTags !! k = Some currentV /\ v <> currentV)).
Proof.
  cbv zeta. split; [|split].
  - apply untagKeys_elem.
  - apply untagKeys_NoDup.
  - intros k v. rewrite newTags_lookup.
    destruct (tags !! k) as [v'|] eqn:E.
    + destruct (decide (currentTags !! k = Some v')) as [Hc|Hc].
      * split; [done|]. intros [[= ->] [Hn|(cv & Hcv & Hne)]]; congruence.
      * split.
        -- intros [= ->]. split; [done|].
           destruct (currentTags !! k) as [cv|]; [right|by left].
           exists cv. split; [done|]. congruence.
        -- by intros [[= ->] _].
    + split; [done|]. by intros [? _].
Qed.

(** The example of the specification: current {a:1, b:2}, desired
    {b:2, c:3}. *)
Example getTagUpdates_example :
  Differ.getTagUpdates (<["a" := "1"]> (<["b" := "2"]> ∅)) (<["b" := "2"]> (<["c" := "3"]> ∅))
  = (["a"], {["c" := "3"]}).
Proof. by vm_compute. Qed.

(** C2. For all tag maps [currentTags] and [tags], removing from
    [currentTags] the keys the differ returns and then writing the pairs it
    returns gives [tags]. *)
Theorem applyUpdates_getTagUpdates (currentTags tags : gmap string string) :
  Differ.applyUpdates currentTags (Differ.getTagUpdates currentTags tags) = tags.
Proof.
  apply map_eq. intros k. unfold Differ.applyUpdates.
  rewrite insert_loop_lookup by apply NoDup_fst_map_to_list.
  rewrite list_to_map_to_list, newTags_lookup, delete_loop_lookup.
  destruct (tags !! k) as [v|] eqn:E.
  - destruct (decide (currentTags !! k = Some v)) as [Hc|Hc]; [|done].
    rewrite decide_False; [done|].
    rewrite untagKeys_elem. intros [_ ?]. congruence.
  - destruct (decide (k ∈ (Differ.getTagUpdates currentTags tags).1)) as [Hin|Hnin]; [done|].
    rewrite untagKeys_elem in Hnin.
    destruct (currentTags !! k) eqn:Ec; [|done].
    exfalso. apply Hnin. eauto.
Qed.

(** C3. For every cluster name, all tag maps [currentTags] and [tags] and
    every key [k] among the five tag keys EKS manages on an Auto Scaling
    Group: [getASGTagUpdates] never returns [k] among the tags to delete, in
    particular not when [currentTags] has it and [tags] lacks it; and when
    [tags] defines [k] with a value that [currentTags] does not hold for it,
    [k] is returned among the tags to add with that value. *)
Theorem getASGTagUpdates_protected (ClusterAWSCloudProviderTagKey : string -> string)
    (clusterName : string) (currentTags tags : gmap string string) (k : string) :
  k ∈ ASGDiffer.officialASGTagsByEKS ClusterAWSCloudProviderTagKey clusterName ->
  let upd := ASGDiffer.getASGTagUpdates ClusterAWSCloudProviderTagKey clusterName
               currentTags tags in
  (is_Some (currentTags !! k) -> tags !! k = None -> upd.1 !! k = None)
  /\ upd.1 !! k = None
  /\ (forall v, tags !! k = Some v -> currentTags !! k <> Some v -> upd.2 !! k = Some v).
Proof.
  intros Hk. cbv zeta.
  assert ((ASGDiffer.getASGTagUpdates ClusterAWSCloudProviderTagKey clusterName
             currentTags tags).1 !! k = None) as Hdel.
  { rewrite tagsToDelete_lookup. destruct (currentTags !! k); [|done].
    rewrite decide_False; [done|]. intros [_ Hoff].
    apply isOfficialTag_true in Hk. congruence. }
  split; [done|]. split; [done|].
  intros v Hv Hc. rewrite tagsToAdd_lookup, Hv. by rewrite decide_False.
Qed.

Lemma getASGTagUpdates_protected_witness :
  let currentTags : gmap string string :=
    <["eks:cluster-name" := "x"]> (<["stale" := "y"]> ∅) in
  let upd := ASGDiffer.getASGTagUpdates (fun name => "kubernetes.io/cluster/" +:+ name) "c1"
               currentTags ∅ in
  (is_Some (currentTags !! "eks:cluster-name") ->
   (∅ : gmap string string) !! "eks:cluster-name" = None ->
   upd.1 !! "eks:cluster-name" = None)
  /\ upd.1 !! "eks:cluster-name" = None
  /\ (forall v, (∅ : gmap string string) !! "eks:cluster-name" = Some v ->
                currentTags !! "eks:cluster-name" <> Some v ->
                upd.2 !! "eks:cluster-name" = Some v).
Proof.
  apply (getASGTagUpdates_protected (fun name => "kubernetes.io/cluster/" +:+ name) "c1"
           (<["eks:cluster-name" := "x"]> (<["stale" := "y"]> ∅)) ∅ "eks:cluster-name").
  unfold ASGDiffer.officialASGTagsByEKS, eksClusterNameTag. constructor.
Defined.

(** The example of the specification with a protected key: current
    {eks:cluster-name: x, stale: y}, nothing desired. *)
Example getASGTagUpdates_example :
  ASGDiffer.getASGTagUpdates (fun name => "kubernetes.io/cluster/" +:+ name) "c1"
    (<["eks:cluster-name" := "x"]> (<["stale" := "y"]> ∅)) ∅
  = ({["stale" := "y"]}, ∅).
Proof. by vm_compute. Qed.

(** A key that is not protected and that the desired tags lack is deleted. *)
Lemma getASGTagUpdates_unprotected (ClusterAWSCloudProviderTagKey : string -> string)
    (clusterName : string) (currentTags tags : gmap string string) (k v : string) :
  k ∉ ASGDiffer.officialASGTagsByEKS ClusterAWSCloudProviderTagKey clusterName ->
  currentTags !! k = Some v -> tags !! k = None ->
  (ASGDiffer.getASGTagUpdates ClusterAWSCloudProviderTagKey clusterName currentTags tags).1 !! k
  = Some v.
Proof.
  intros Hk Hc Ht. rewrite tagsToDelete_lookup, Hc.
  rewrite decide_True; [done|]. split; [done|].
  destruct (ASGDiffer.isOfficialTag _ k) eqn:E; [|done].
  by apply isOfficialTag_true in E.
Qed.

(** ** Rules for the calls a reconciler makes *)

Section Triples.

Context {C : Cloud}.

Lemma triple_weaken {A} (m : M C A) (P P' : list (Call * option error) -> ending -> Prop) (R R' : A -> Prop) :
  (forall c e, P c e -> P' c e) -> (forall a, R a -> R' a) ->
  triple m P R -> triple m P' R'.
Proof.
  intros HP HR Hm st. destruct (Hm st) as (calls & Hlog & Hp & Hr).
  exists calls. split; [done|]. split; [by apply HP|].
  intros a Ha. by apply HR, Hr.
Qed.

Lemma triple_ret {A} (a : A) P (R : A -> Prop) :
  P [] Returned -> R a -> triple (C := C) (ret a) P R.
Proof.
  intros HP HR st. exists []. simpl. rewrite app_nil_r.
  split; [done|]. split; [done|]. by intros ? [= <-].
Qed.

Lemma triple_fail {A} err P (R : A -> Prop) :
  P [] (Errored err) -> triple (C := C) (fail err) P R.
Proof. intros HP st. exists []. simpl. by rewrite app_nil_r. Qed.

Lemma triple_panic {A} P (R : A -> Prop) :
  P [] Panics -> triple (C := C) panic P R.
Proof. intros HP st. exists []. simpl. by rewrite app_nil_r. Qed.

Lemma triple_outOfFuel {A} P (R : A -> Prop) :
  P [] Spins -> triple (C := C) outOfFuel P R.
Proof. intros HP st. exists []. simpl. by rewrite app_nil_r. Qed.

Lemma triple_deref {A} (p : option A) P :
  P [] Returned -> P [] Panics -> triple (C := C) (deref p) P (fun a => p = Some a).
Proof.
  intros H1 H2. destruct p; simpl; [by apply triple_ret|by apply triple_panic].
Qed.

Lemma triple_alloc v P : P [] Returned -> triple (C := C) (alloc v) P (fun _ => True).
Proof. intros HP st. exists []. simpl. by rewrite app_nil_r. Qed.

Lemma triple_store l v P : P [] Returned -> triple (C := C) (store l v) P (fun _ => True).
Proof. intros HP st. exists []. simpl. by rewrite app_nil_r. Qed.

Lemma triple_readHeap P : P [] Returned -> triple (C := C) readHeap P (fun _ => True).
Proof. intros HP st. exists []. simpl. by rewrite app_nil_r. Qed.

(** Sequencing, with one property for each part. *)
Lemma triple_bind_gen {A B} (m : M C A) (k : A -> M C B)
    (P1 P2 P : list (Call * option error) -> ending -> Prop) (R1 : A -> Prop) (R : B -> Prop) :
  (forall c1 c2 e, P1 c1 Returned -> P2 c2 e -> P (c1 ++ c2) e) ->
  (forall c e, e <> Returned -> P1 c e -> P c e) ->
  triple m P1 R1 ->
  (forall a, R1 a -> triple (k a) P2 R) ->
  triple (bind m k) P R.
Proof.
  intros Hseq Hstop Hm Hk st. unfold bind.
  destruct (Hm st) as (c1 & Hlog1 & Hp1 & Hr1).
  destruct (m st) as [[a|err| |] st'] eqn:E; simpl in *.
  - destruct (Hk a (Hr1 a eq_refl) st') as (c2 & Hlog2 & Hp2 & Hr2).
    exists (c1 ++ c2). rewrite Hlog2, Hlog1, app_assoc. eauto.
  - exists c1. split; [done|]. split; [by apply Hstop|done].
  - exists c1. split; [done|]. split; [by apply Hstop|done].
  - exists c1. split; [done|]. split; [by apply Hstop|done].
Qed.

Lemma triple_bind {A B} (m : M C A) (k : A -> M C B) P (R1 : A -> Prop) (R : B -> Prop) :
  sequential P ->
  triple m P R1 ->
  (forall a, R1 a -> triple (k a) P R) ->
  triple (bind m k) P R.
Proof.
  intros [_ Hseq]. apply triple_bind_gen; [exact Hseq|done].
Qed.

Lemma triple_bind_ret {A B} (a : A) (k : A -> M C B) P (R : B -> Prop) :
  triple (k a) P R -> triple (bind (ret a) k) P R.
Proof. intros Hk st. exact (Hk st). Qed.

Lemma triple_forM_ {A} (l : list A) (f : A -> M C unit) P :
  sequential P ->
  (forall x, x ∈ l -> triple (f x) P (fun _ => True)) ->
  triple (forM_ l f) P (fun _ => True).
Proof.
  intros HP. induction l as [|x l IH]; intros Hf; simpl.
  - apply triple_ret; [apply HP|done].
  - eapply triple_bind; [done|apply Hf, elem_of_cons; by left|].
    intros _ _. apply IH. intros y Hy. apply Hf, elem_of_cons. by right.
Qed.

Lemma triple_foldM {A B} (f : B -> A -> M C B) (b : B) (l : list A) P (I : B -> Prop) :
  sequential P ->
  I b ->
  (forall b x, I b -> x ∈ l -> triple (f b x) P I) ->
  triple (foldM f b l) P I.
Proof.
  intros HP. revert b. induction l as [|x l IH]; intros b Hb Hf; simpl.
  - apply triple_ret; [apply HP|done].
  - eapply triple_bind; [done|apply Hf; [done|apply elem_of_cons; by left]|].
    intros b' Hb'. apply IH; [done|]. intros b'' y Hb'' Hy. apply Hf; [done|].
    apply elem_of_cons. by right.
Qed.

(** A client call followed by [if err != nil { return f(err) }]. *)
Lemma triple_call {I O B} (op : world C -> I -> reply O * world C) (mk : I -> Call)
    (input : I) (f : error -> error) (k : O -> M C B) P (R : B -> Prop) :
  sequential P ->
  P [(mk input, None)] Returned ->
  (forall err, P [(mk input, Some err)] (Errored (f err))) ->
  (forall o, triple (k o) P R) ->
  triple (bind (invoke op mk input)
            (fun r => match r with
                      | Success o => k o
                      | Failure err => fail (f err)
                      end)) P R.
Proof.
  intros [_ Hseq] Hok Herr Hk st. unfold bind, invoke.
  destruct (op (st_world st) input) as [[o|err] w] eqn:E; simpl.
  - match goal with |- context [k o ?s] => destruct (Hk o s) as (c2 & Hlog & Hp & Hr) end.
    simpl in Hlog. exists ([(mk input, None)] ++ c2).
    rewrite Hlog, <- app_assoc. split; [done|]. split; [|done].
    by apply Hseq.
  - exists [(mk input, Some err)]. split; [done|]. split; [apply Herr|done].
Qed.

Lemma triple_volumePages fuel body output P :
  sequential P -> P [] Spins ->
  triple (body output) P (fun _ => True) ->
  triple (volumePages C fuel body output) P (fun _ => True).
Proof.
  intros HP Hspin Hbody. induction fuel as [|fuel IH]; simpl.
  - by apply triple_outOfFuel.
  - eapply triple_bind; [done|exact Hbody|]. intros _ _.
    destruct (ec2.DescribeVolumes_NextToken output); [exact IH|].
    apply triple_ret; [apply HP|done].
Qed.

Lemma triple_instancePages fuel body output P :
  sequential P -> P [] Spins ->
  triple (body output) P (fun _ => True) ->
  triple (instancePages C fuel body output) P (fun _ => True).
Proof.
  intros HP Hspin Hbody. induction fuel as [|fuel IH]; simpl.
  - by apply triple_outOfFuel.
  - eapply triple_bind; [done|exact Hbody|]. intros _ _.
    destruct (ec2.DescribeInstances_NextToken output); [exact IH|].
    apply triple_ret; [apply HP|done].
Qed.

End Triples.

(** ** Builders of request entries make no call *)

Section Builders.

Context {C : Cloud}.

Lemma triple_createTagsEntries (newTags : gmap string string) P :
  sequential P ->
  triple (C := C) (createTagsEntries C newTags) P (fun _ => True).
Proof.
  intros HP. unfold createTagsEntries.
  eapply triple_bind; [done|apply triple_alloc, HP|]. intros k _.
  eapply triple_bind; [done|apply triple_alloc, HP|]. intros v _.
  apply triple_foldM; [done|done|]. intros tags kv _ _.
  eapply triple_bind; [done|apply triple_store, HP|]. intros _ _.
  eapply triple_bind; [done|apply triple_store, HP|]. intros _ _.
  apply triple_ret; [apply HP|done].
Qed.

Lemma triple_deleteTagsEntries (untagKeys : list string) P :
  sequential P ->
  triple (C := C) (deleteTagsEntries C untagKeys) P (fun _ => True).
Proof.
  intros HP. unfold deleteTagsEntries.
  eapply triple_bind; [done|apply triple_alloc, HP|]. intros k _.
  apply triple_foldM; [done|done|]. intros tags kv _ _.
  eapply triple_bind; [done|apply triple_store, HP|]. intros _ _.
  apply triple_ret; [apply HP|done].
Qed.

End Builders.

(** ** The instance and volume reconcilers delete no tag *)

Section NoDelete.

Context {C : Cloud}.
Variable ngTags : string -> gmap string string -> gmap string string.

Lemma noDeleteTags_sequential : sequential noDeleteTags.
Proof.
  split; [by apply Forall_nil|].
  intros c1 c2 e H1 H2. by apply Forall_app.
Qed.

Lemma copyTag_loop_dom (tags : list (option ec2.Tag))
    (maps : gmap string string * gmap string string) :
  dom maps.1 ⊆ dom maps.2 ->
  dom (foldl copyTag maps tags).1 ⊆ dom (foldl copyTag maps tags).2.
Proof.
  revert maps. induction tags as [|tag tags IH]; intros maps Hsub; simpl; [done|].
  apply IH. unfold copyTag.
  destruct tag as [t|]; [|done].
  destruct (ec2.Key t) as [k|]; [|done].
  destruct (ec2.Value t) as [v|]; [|done].
  simpl in *. rewrite !dom_insert_L. by apply union_mono_l.
Qed.

Lemma overlay_dom (desired ngtags : gmap string string) :
  dom desired ⊆ dom (overlay desired ngtags).
Proof.
  intros k. rewrite !elem_of_dom, overlay_lookup.
  destruct (ngtags !! k); [by eauto|done].
Qed.

Lemma instanceTagMaps_dom (instanceTags : list (option ec2.Tag)) (ngtags : gmap string string) :
  dom (instanceTagMaps instanceTags ngtags).1 ⊆ dom (instanceTagMaps instanceTags ngtags).2.
Proof.
  unfold instanceTagMaps. simpl.
  etrans; [apply (copyTag_loop_dom instanceTags (∅, ∅)); done|apply overlay_dom].
Qed.

Lemma volumeTagMaps_dom clusterName nodegroupName (volumeTags : list (option ec2.Tag))
    (ngtags : gmap string string) :
  dom (volumeTagMaps clusterName nodegroupName volumeTags ngtags).1
  ⊆ dom (volumeTagMaps clusterName nodegroupName volumeTags ngtags).2.
Proof.
  unfold volumeTagMaps. simpl.
  etrans; [apply copyTag_loop_dom; simpl; set_solver|apply overlay_dom].
Qed.

Lemma untagKeys_nil (existingTags desiredTags : gmap string string) :
  dom existingTags ⊆ dom desiredTags ->
  (Differ.getTagUpdates existingTags desiredTags).1 = [].
Proof.
  intros Hsub. apply elem_of_nil_inv. intros k Hk.
  apply untagKeys_elem in Hk as [Hc Hd].
  apply elem_of_dom in Hc. apply Hsub in Hc. apply elem_of_dom in Hc as [v Hv].
  congruence.
Qed.

Lemma updateECSTags_noDeleteTags resources (existingTags desiredTags : gmap string string) :
  dom existingTags ⊆ dom desiredTags ->
  triple (C := C) (updateECSTags C resources existingTags desiredTags)
    noDeleteTags (fun _ => True).
Proof.
  intros Hsub. unfold updateECSTags. rewrite (untagKeys_nil _ _ Hsub). simpl.
  pose proof noDeleteTags_sequential as HP.
  apply (triple_bind _ _ _ (fun _ => True)); [done| |].
  - case_decide; [|apply triple_ret; [apply HP|done]].
    eapply triple_bind; [done|by apply triple_createTagsEntries|]. intros tags _.
    eapply triple_bind; [done|apply triple_readHeap, HP|]. intros h _.
    apply (triple_call _ _ _ (fun err => err)); [done| | |].
    + apply Forall_singleton. by intros input.
    + intros err. apply Forall_singleton. by intros input.
    + intros _. apply triple_ret; [apply HP|done].
  - intros _ _. apply triple_ret; [apply HP|done].
Qed.

Lemma reconcileEBSVolumeTags_noDeleteTags scope fuel volumeIds ng :
  triple (C := C) (reconcileEBSVolumeTags C ngTags scope fuel volumeIds ng)
    noDeleteTags (fun _ => True).
Proof.
  pose proof noDeleteTags_sequential as HP.
  unfold reconcileEBSVolumeTags.
  apply (triple_call _ _ _ (fun err => Wrap err "failed to describe Volumes")); [done| | |].
  - apply Forall_singleton. by intros input.
  - intros err. apply Forall_singleton. by intros input.
  - intros output. apply triple_volumePages; [done|by apply Forall_nil|].
    apply triple_forM_; [done|]. intros volume _.
    eapply triple_bind; [done|apply triple_deref; by apply Forall_nil|]. intros name _.
    eapply triple_bind; [done|apply triple_deref; by apply Forall_nil|]. intros vol _.
    apply updateECSTags_noDeleteTags, volumeTagMaps_dom.
Qed.

Lemma reconcileInstanceTags_noDeleteTags scope fuel ng :
  triple (C := C) (reconcileInstanceTags C ngTags scope fuel ng)
    noDeleteTags (fun _ => True).
Proof.
  pose proof noDeleteTags_sequential as HP.
  assert (noDeleteTags [] Returned) as Hnil by apply HP.
  assert (noDeleteTags [] Panics) as Hpanic by done.
  unfold reconcileInstanceTags.
  eapply triple_bind; [done|by apply triple_deref|]. intros resources _.
  eapply triple_bind; [done| |].
  { apply (triple_foldM _ _ _ _ (fun _ => True)); [done|done|]. intros names asg _ _.
    eapply triple_bind; [done|by apply triple_deref|]. intros a _.
    by apply triple_ret. }
  intros names _.
  apply (triple_call _ _ _
           (fun err => Wrap err "failed to describe AutoScalingGroup for nodegroup"));
    [done| | |].
  - apply Forall_singleton. by intros input.
  - intros err. apply Forall_singleton. by intros input.
  - intros groups.
    eapply triple_bind; [done| |].
    { apply (triple_foldM _ _ _ _ (fun _ => True)); [done|done|]. intros ids group _ _.
      eapply triple_bind; [done|by apply triple_deref|]. intros g _.
      apply (triple_foldM _ _ _ _ (fun _ => True)); [done|done|]. intros ids' instance _ _.
      eapply triple_bind; [done|by apply triple_deref|]. intros i _.
      by apply triple_ret. }
    intros ids _.
    apply (triple_call _ _ _ (fun err => Wrap err "failed to describe Instances"));
      [done| | |].
    + apply Forall_singleton. by intros input.
    + intros err. apply Forall_singleton. by intros input.
    + intros output. apply triple_instancePages; [done|by apply Forall_nil|].
      apply triple_forM_; [done|]. intros reservation _.
      eapply triple_bind; [done|by apply triple_deref|]. intros res _.
      apply triple_forM_; [done|]. intros instance _.
      eapply triple_bind; [done|by apply triple_deref|]. intros inst _.
      eapply triple_bind; [done| |].
      * apply updateECSTags_noDeleteTags, instanceTagMaps_dom.
      * intros _ _. apply reconcileEBSVolumeTags_noDeleteTags.
Qed.

End NoDelete.

(** C10. The instance and volume reconcilers never remove a tag: the
    desired map built for an instance or a volume has every key of the map
    of its current tags, so the differ returns no key to delete, and no run
    of [reconcileInstanceTags] or [reconcileEBSVolumeTags], from any state
    and with any clients, makes a [DeleteTags] call. *)
Theorem instance_and_volume_tags_never_deleted (C : Cloud)
    (ngTags : string -> gmap string string -> gmap string string)
    (scope : Scope) (fuel : nat) (ng : eks.Nodegroup) :
  (forall instanceTags ngtags,
      let maps := instanceTagMaps instanceTags ngtags in
      dom maps.1 ⊆ dom maps.2 /\ (Differ.getTagUpdates maps.1 maps.2).1 = [])
  /\ (forall clusterName nodegroupName volumeTags ngtags,
        let maps := volumeTagMaps clusterName nodegroupName volumeTags ngtags in
        dom maps.1 ⊆ dom maps.2 /\ (Differ.getTagUpdates maps.1 maps.2).1 = [])
  /\ (forall st : State C, exists calls,
        st_log (reconcileInstanceTags C ngTags scope fuel ng st).2 = st_log st ++ calls
        /\ Forall (fun c => forall input, c.1 <> DeleteTags input) calls)
  /\ (forall volumeIds (st : State C), exists calls,
        st_log (reconcileEBSVolumeTags C ngTags scope fuel volumeIds ng st).2
        = st_log st ++ calls
        /\ Forall (fun c => forall input, c.1 <> DeleteTags input) calls).
Proof.
  split; [|split; [|split]].
  - intros instanceTags ngtags maps. split; [apply instanceTagMaps_dom|].
    apply untagKeys_nil, instanceTagMaps_dom.
  - intros clusterName nodegroupName volumeTags ngtags maps.
    split; [apply volumeTagMaps_dom|]. apply untagKeys_nil, volumeTagMaps_dom.
  - intros st.
    destruct (reconcileInstanceTags_noDeleteTags ngTags scope fuel ng st)
      as (calls & Hlog & Hcalls & _).
    by exists calls.
  - intros volumeIds st.
    destruct (reconcileEBSVolumeTags_noDeleteTags ngTags scope fuel volumeIds ng st)
      as (calls & Hlog & Hcalls & _).
    by exists calls.
Qed.

(** ** Convergence *)

Lemma getTagUpdates_same (d : gmap string string) :
  Differ.getTagUpdates d d = ([], ∅).
Proof.
  rewrite (surjective_pairing (Differ.getTagUpdates d d)). f_equal.
  - by apply untagKeys_nil.
  - apply map_eq. intros k. rewrite newTags_lookup, lookup_empty.
    destruct (d !! k) eqn:E; [|done]. by rewrite decide_True.
Qed.

(** C8. For every tag map [d], diffing [d] against itself gives no key to
    delete and no tag to write (for both differs), so [updateTags] and
    [updateECSTags] run with equal existing and desired tags return without
    a call: the state, and with it the log of calls, is unchanged. *)
Theorem converged_diff_is_empty (C : Cloud) (ClusterAWSCloudProviderTagKey : string -> string)
    (clusterName : string) (arn : option string) (resources : list (option string))
    (d : gmap string string) :
  Differ.getTagUpdates d d = ([], ∅)
  /\ ASGDiffer.getASGTagUpdates ClusterAWSCloudProviderTagKey clusterName d d = (∅, ∅)
  /\ (forall st, updateTags C arn d d st = (Done tt, st))
  /\ (forall st, updateECSTags C resources d d st = (Done tt, st)).
Proof.
  split; [apply getTagUpdates_same|]. split; [|split].
  - rewrite (surjective_pairing (ASGDiffer.getASGTagUpdates _ clusterName d d)). f_equal.
    + apply map_eq. intros k. rewrite tagsToDelete_lookup, lookup_empty.
      destruct (d !! k) eqn:E; [|done]. rewrite decide_False; [done|]. by intros [? _].
    + apply map_eq. intros k. rewrite tagsToAdd_lookup, lookup_empty.
      destruct (d !! k) eqn:E; [|done]. by rewrite decide_True.
  - intros st. unfold updateTags. by rewrite getTagUpdates_same.
  - intros st. unfold updateECSTags. by rewrite getTagUpdates_same.
Qed.

(** ** The ASG request *)

Section ASGRequest.

Context {C : Cloud}.

Lemma allRequestsPropagate_sequential : sequential allRequestsPropagate.
Proof.
  split; [by apply Forall_nil|].
  intros c1 c2 e H1 H2. by apply Forall_app.
Qed.

Lemma triple_tagDescriptionsToMap input P :
  sequential P -> P [] Panics ->
  triple (C := C) (tagDescriptionsToMap C input) P (fun _ => True).
Proof.
  intros HP Hpanic. unfold tagDescriptionsToMap.
  apply triple_foldM; [done|done|]. intros tags v _ _.
  eapply triple_bind; [done|apply triple_deref; [apply HP|done]|]. intros d _.
  eapply triple_bind; [done|apply triple_deref; [apply HP|done]|]. intros key _.
  eapply triple_bind; [done|apply triple_deref; [apply HP|done]|]. intros value _.
  apply triple_ret; [apply HP|done].
Qed.

Lemma triple_createOrUpdateEntries asg (tagsToAdd : gmap string string) P :
  sequential P ->
  triple (C := C) (createOrUpdateEntries C asg tagsToAdd) P
    (Forall (fun t => exists p, t = Some p /\ autoscaling.PropagateAtLaunchPtr p = Some true)).
Proof.
  intros HP. unfold createOrUpdateEntries.
  apply triple_foldM; [done|by apply Forall_nil|]. intros tags kv Htags _.
  eapply triple_bind; [done|apply triple_alloc, HP|]. intros kCopy _.
  eapply triple_bind; [done|apply triple_alloc, HP|]. intros vCopy _.
  apply triple_ret; [apply HP|].
  apply Forall_app. split; [done|]. apply Forall_singleton. eauto.
Qed.

Lemma triple_deleteEntries asg (tagsToDelete : gmap string string) P :
  sequential P ->
  triple (C := C) (deleteEntries C asg tagsToDelete) P (fun _ => True).
Proof.
  intros HP. unfold deleteEntries.
  apply triple_foldM; [done|done|]. intros tags kv _ _.
  eapply triple_bind; [done|apply triple_alloc, HP|]. intros kCopy _.
  apply triple_ret; [apply HP|done].
Qed.

Lemma reconcileASGTags_allRequestsPropagate key scope ng :
  triple (C := C) (reconcileASGTags C key scope ng) allRequestsPropagate (fun _ => True).
Proof.
  pose proof allRequestsPropagate_sequential as HP.
  assert (allRequestsPropagate [] Returned) as Hnil by apply HP.
  assert (allRequestsPropagate [] Panics) as Hpanic by done.
  unfold reconcileASGTags.
  eapply triple_bind; [done|by apply triple_deref|]. intros name _.
  apply (triple_call _ _ _ (fun err => Wrap err "failed to describe ASG for nodegroup"));
    [done| | |].
  { apply Forall_singleton. by intros input. }
  { intros err. apply Forall_singleton. by intros input. }
  intros asg.
  eapply triple_bind; [done|by apply triple_tagDescriptionsToMap|]. intros currentTags _.
  apply (triple_bind _ _ _ (fun _ => True)); [done| |].
  - case_decide; [|by apply triple_ret].
    eapply triple_bind; [done|by apply triple_createOrUpdateEntries|]. intros tags Htags.
    eapply triple_bind; [done|by apply triple_readHeap|]. intros h _.
    assert (requestsPropagate
              (CreateOrUpdateTags
                 {| autoscaling.CreateOrUpdate_Tags := resolveASGTag h <$> tags |}, None))
      as Hreq.
    { intros input [= <-]. simpl. apply Forall_fmap.
      eapply Forall_impl; [exact Htags|]. intros t (p & -> & Hp). simpl.
      eexists. split; [done|]. done. }
    apply (triple_call _ _ _
             (fun err => Wrap err "failed to add tags to nodegroup's AutoScalingGroup"));
      [done| | |].
    + by apply Forall_singleton.
    + intros err. apply Forall_singleton. intros input Hin. by apply (Hreq input).
    + intros _. by apply triple_ret.
  - intros _ _. case_decide; [|by apply triple_ret].
    eapply triple_bind; [done|by apply triple_deleteEntries|]. intros tags _.
    eapply triple_bind; [done|by apply triple_readHeap|]. intros h _.
    apply (triple_call _ _ _
             (fun err => Wrap err "failed to delete tags to nodegroup's AutoScalingGroup"));
      [done| | |].
    + apply Forall_singleton. by intros input.
    + intros err. apply Forall_singleton. by intros input.
    + intros _. by apply triple_ret.
Qed.

End ASGRequest.

(** C9. Whatever the clients, the scope, the nodegroup and the state,
    every entry of every [CreateOrUpdateTags] request that
    [reconcileASGTags] sends has [PropagateAtLaunch] set to true: the value
    is fixed in the code and no input reaches it. *)
Theorem reconcileASGTags_propagate_at_launch (C : Cloud)
    (ClusterAWSCloudProviderTagKey : string -> string) (scope : Scope) (ng : eks.Nodegroup)
    (st : State C) :
  exists calls,
    st_log (reconcileASGTags C ClusterAWSCloudProviderTagKey scope ng st).2
    = st_log st ++ calls
    /\ forall input err,
         (CreateOrUpdateTags input, err) ∈ calls ->
         Forall (fun t => exists tag, t = Some tag
                                      /\ autoscaling.PropagateAtLaunch tag = Some true)
                (autoscaling.CreateOrUpdate_Tags input).
Proof.
  destruct (reconcileASGTags_allRequestsPropagate ClusterAWSCloudProviderTagKey scope ng st)
    as (calls & Hlog & Hcalls & _).
  exists calls. split; [done|]. intros input err Hin.
  unfold allRequestsPropagate in Hcalls. rewrite Forall_forall in Hcalls.
  by apply (Hcalls _ Hin input).
Qed.

(** ** Failures *)

Section FailFast.

Context {C : Cloud}.
Variable ngTags : string -> gmap string string -> gmap string string.
Variable ClusterAWSCloudProviderTagKey : string -> string.

Lemma failFast_sequential : sequential failFast.
Proof.
  split; [by apply Forall_nil|].
  intros c1 c2 e H1 H2. destruct e as [|err'| |]; simpl in *.
  - by apply Forall_app.
  - destruct H2 as (pre & c & err & -> & Hpre & ->).
    exists (c1 ++ pre), c, err. rewrite app_assoc.
    split; [done|]. split; [by apply Forall_app|done].
  - by apply Forall_app.
  - by apply Forall_app.
Qed.

Lemma failFast_success c : failFast [(c, None)] Returned.
Proof. by apply Forall_singleton. Qed.

Lemma failFast_failure c err : failFast [(c, Some err)] (Errored (reported c err)).
Proof. exists [], c, err. split; [done|]. split; [by apply Forall_nil|done]. Qed.

Lemma triple_abortsOnFailure {A} (m : M C A) (R : A -> Prop) :
  triple m failFast R -> abortsOnFailure m.
Proof.
  intros Hm st. destruct (Hm st) as (calls & Hlog & Hcalls & _). by exists calls.
Qed.

(** The rules of above at [failFast]. *)
Ltac quiet :=
  first [ apply triple_ret; [by apply Forall_nil|done]
        | apply triple_deref; by apply Forall_nil
        | apply triple_alloc; by apply Forall_nil
        | apply triple_store; by apply Forall_nil
        | apply triple_readHeap; by apply Forall_nil ].

Ltac call f :=
  apply (triple_call _ _ _ f);
  [ apply failFast_sequential
  | apply failFast_success
  | intros ?; exact (failFast_failure _ _)
  | ].

Lemma updateTags_failFast arn (existingTags desiredTags : gmap string string) :
  triple (C := C) (updateTags C arn existingTags desiredTags) failFast (fun _ => True).
Proof.
  pose proof failFast_sequential as HP. unfold updateTags.
  apply (triple_bind _ _ _ (fun _ => True)); [done| |].
  - case_decide; [|quiet]. call (fun err : error => err). intros _. quiet.
  - intros _ _. case_decide; [|quiet]. call (fun err : error => err). intros _. quiet.
Qed.

Lemma updateECSTags_failFast resources (existingTags desiredTags : gmap string string) :
  triple (C := C) (updateECSTags C resources existingTags desiredTags) failFast (fun _ => True).
Proof.
  pose proof failFast_sequential as HP. unfold updateECSTags.
  apply (triple_bind _ _ _ (fun _ => True)); [done| |].
  - case_decide; [|quiet].
    eapply triple_bind; [done|by apply triple_createTagsEntries|]. intros tags _.
    eapply triple_bind; [done|quiet|]. intros h _.
    call (fun err : error => err). intros _. quiet.
  - intros _ _. case_decide; [|quiet].
    eapply triple_bind; [done|by apply triple_deleteTagsEntries|]. intros tags _.
    eapply triple_bind; [done|quiet|]. intros h _.
    call (fun err : error => err). intros _. quiet.
Qed.

Lemma reconcileEBSVolumeTags_failFast scope fuel volumeIds ng :
  triple (C := C) (reconcileEBSVolumeTags C ngTags scope fuel volumeIds ng)
    failFast (fun _ => True).
Proof.
  pose proof failFast_sequential as HP. unfold reconcileEBSVolumeTags.
  call (fun err => Wrap err "failed to describe Volumes").
  intros output. apply triple_volumePages; [done|by apply Forall_nil|].
  apply triple_forM_; [done|]. intros volume _.
  eapply triple_bind; [done|quiet|]. intros name _.
  eapply triple_bind; [done|quiet|]. intros vol _.
  apply updateECSTags_failFast.
Qed.

Lemma reconcileInstanceTags_failFast scope fuel ng :
  triple (C := C) (reconcileInstanceTags C ngTags scope fuel ng) failFast (fun _ => True).
Proof.
  pose proof failFast_sequential as HP. unfold reconcileInstanceTags.
  eapply triple_bind; [done|quiet|]. intros resources _.
  eapply triple_bind; [done| |].
  { apply (triple_foldM _ _ _ _ (fun _ => True)); [done|done|]. intros names asg _ _.
    eapply triple_bind; [done|quiet|]. intros a _. quiet. }
  intros names _.
  call (fun err => Wrap err "failed to describe AutoScalingGroup for nodegroup").
  intros groups.
  eapply triple_bind; [done| |].
  { apply (triple_foldM _ _ _ _ (fun _ => True)); [done|done|]. intros ids group _ _.
    eapply triple_bind; [done|quiet|]. intros g _.
    apply (triple_foldM _ _ _ _ (fun _ => True)); [done|done|]. intros ids' instance _ _.
    eapply triple_bind; [done|quiet|]. intros i _. quiet. }
  intros ids _.
  call (fun err => Wrap err "failed to describe Instances").
  intros output. apply triple_instancePages; [done|by apply Forall_nil|].
  apply triple_forM_; [done|]. intros reservation _.
  eapply triple_bind; [done|quiet|]. intros res _.
  apply triple_forM_; [done|]. intros instance _.
  eapply triple_bind; [done|quiet|]. intros inst _.
  apply (triple_bind _ _ _ (fun _ => True)); [done|apply updateECSTags_failFast|].
  intros _ _. apply reconcileEBSVolumeTags_failFast.
Qed.

Lemma reconcileTags_failFast scope fuel ng :
  triple (C := C) (reconcileTags C ngTags scope fuel ng) failFast (fun _ => True).
Proof.
  unfold reconcileTags.
  apply (triple_bind _ _ _ (fun _ => True));
    [apply failFast_sequential|apply updateTags_failFast|].
  intros _ _. apply reconcileInstanceTags_failFast.
Qed.

Lemma reconcileASGTags_failFast scope ng :
  triple (C := C) (reconcileASGTags C ClusterAWSCloudProviderTagKey scope ng)
    failFast (fun _ => True).
Proof.
  pose proof failFast_sequential as HP. unfold reconcileASGTags.
  eapply triple_bind; [done|quiet|]. intros name _.
  call (fun err => Wrap err "failed to describe ASG for nodegroup").
  intros asg.
  eapply triple_bind;
    [done|apply triple_tagDescriptionsToMap; [done|by apply Forall_nil]|].
  intros currentTags _.
  apply (triple_bind _ _ _ (fun _ => True)); [done| |].
  - case_decide; [|quiet].
    eapply triple_bind; [done|by apply triple_createOrUpdateEntries|]. intros tags _.
    eapply triple_bind; [done|quiet|]. intros h _.
    call (fun err => Wrap err "failed to add tags to nodegroup's AutoScalingGroup").
    intros _. quiet.
  - intros _ _. case_decide; [|quiet].
    eapply triple_bind; [done|by apply triple_deleteEntries|]. intros tags _.
    eapply triple_bind; [done|quiet|]. intros h _.
    call (fun err => Wrap err "failed to delete tags to nodegroup's AutoScalingGroup").
    intros _. quiet.
Qed.

End FailFast.

(** C7, as the code has it.  Whatever the clients and the state, each
    reconciler stops at the first call that fails: when it ends with an
    error, the failed call is the last call it made (no call follows it, so
    nothing is retried and nothing undone), every call before it succeeded,
    and the error returned is the error of that call, unchanged when the
    call is a tag call of [updateTags] or [updateECSTags], and wrapped in a
    message naming the operation when it is a describe call or a tag call of
    [reconcileASGTags]. *)
Theorem failure_aborts_reconciliation (C : Cloud)
    (ngTags : string -> gmap string string -> gmap string string)
    (ClusterAWSCloudProviderTagKey : string -> string)
    (scope : Scope) (fuel : nat) (ng : eks.Nodegroup) :
  (forall arn existingTags desiredTags,
      abortsOnFailure (updateTags C arn existingTags desiredTags))
  /\ (forall resources existingTags desiredTags,
        abortsOnFailure (updateECSTags C resources existingTags desiredTags))
  /\ (forall volumeIds,
        abortsOnFailure (reconcileEBSVolumeTags C ngTags scope fuel volumeIds ng))
  /\ abortsOnFailure (reconcileInstanceTags C ngTags scope fuel ng)
  /\ abortsOnFailure (reconcileTags C ngTags scope fuel ng)
  /\ abortsOnFailure (reconcileASGTags C ClusterAWSCloudProviderTagKey scope ng)
  /\ (forall err,
        (forall input, reported (TagResource input) err = err)
        /\ (forall input, reported (UntagResource input) err = err)
        /\ (forall input, reported (CreateTags input) err = err)
        /\ (forall input, reported (DeleteTags input) err = err)).
Proof.
  repeat split.
  - intros. eapply triple_abortsOnFailure, updateTags_failFast.
  - intros. eapply triple_abortsOnFailure, updateECSTags_failFast.
  - intros. eapply triple_abortsOnFailure, reconcileEBSVolumeTags_failFast.
  - eapply triple_abortsOnFailure, reconcileInstanceTags_failFast.
  - eapply triple_abortsOnFailure, reconcileTags_failFast.
  - eapply triple_abortsOnFailure, reconcileASGTags_failFast.
Qed.

(** C7, as stated, fails: when [TagResource] is refused, [updateTags]
    returns the error of the client as it is, not an error wrapped in a
    context. *)
Lemma updateTags_error_not_wrapped :
  (updateTags denyCloud (Some "arn:ng") ∅ {["a" := "1"]} (start denyCloud tt)).1
  = Failed (AWSError "AccessDenied")
  /\ ~ exists cause message,
         (updateTags denyCloud (Some "arn:ng") ∅ {["a" := "1"]} (start denyCloud tt)).1
         = Failed (Wrap cause message).
Proof.
  assert ((updateTags denyCloud (Some "arn:ng") ∅ {["a" := "1"]} (start denyCloud tt)).1
          = Failed (AWSError "AccessDenied")) as H by (by vm_compute).
  split; [done|]. intros (cause & message & H'). congruence.
Qed.

(** ** The entries of the tag requests *)

Section Entries.

Context {C : Cloud}.

Lemma createTagsAliased_sequential : sequential createTagsAliased.
Proof.
  split; [by apply Forall_nil|].
  intros c1 c2 e H1 H2. by apply Forall_app.
Qed.

(** All the entries [updateECSTags] builds for [CreateTags] hold the same
    two addresses. *)
Lemma triple_createTagsEntries_aliased (newTags : gmap string string) P :
  sequential P ->
  triple (C := C) (createTagsEntries C newTags) P
    (fun tags => exists t, Forall (fun t' => t' = t) tags).
Proof.
  intros HP. unfold createTagsEntries.
  eapply triple_bind; [done|apply triple_alloc, HP|]. intros k _.
  eapply triple_bind; [done|apply triple_alloc, HP|]. intros v _.
  eapply triple_weaken; [by intros c e H; exact H| |].
  2:{ apply (triple_foldM _ _ _ _
               (Forall (fun t' => t' = Some {| ec2.KeyPtr := Some k; ec2.ValuePtr := Some v |})));
        [done|by apply Forall_nil|].
      intros tags kv Htags _.
      eapply triple_bind; [done|apply triple_store, HP|]. intros _ _.
      eapply triple_bind; [done|apply triple_store, HP|]. intros _ _.
      apply triple_ret; [apply HP|].
      apply Forall_app. split; [done|]. by apply Forall_singleton. }
  intros tags Htags. by eexists.
Qed.

(** Whatever the tags to write, all the entries of the [CreateTags] request
    of [updateECSTags] are equal when the request is sent. *)
Lemma updateECSTags_createTagsAliased resources (existingTags desiredTags : gmap string string) :
  triple (C := C) (updateECSTags C resources existingTags desiredTags)
    createTagsAliased (fun _ => True).
Proof.
  pose proof createTagsAliased_sequential as HP.
  assert (createTagsAliased [] Returned) as Hnil by apply HP.
  unfold updateECSTags.
  apply (triple_bind _ _ _ (fun _ => True)); [done| |].
  - case_decide; [|by apply triple_ret].
    eapply triple_bind; [done|by apply triple_createTagsEntries_aliased|].
    intros tags [t Htags].
    eapply triple_bind; [done|by apply triple_readHeap|]. intros h _.
    assert (forall o, entriesAllEqual
              (CreateTags {| ec2.CreateTags_Resources := resources;
                             ec2.CreateTags_Tags := resolveEC2Tag h <$> tags |}, o)) as Hreq.
    { intros o input [= <-]. simpl. exists (resolveEC2Tag h t).
      apply Forall_fmap. eapply Forall_impl; [exact Htags|]. by intros t' ->. }
    apply (triple_call _ _ _ (fun err => err)); [done| | |].
    + by apply Forall_singleton.
    + intros err. by apply Forall_singleton.
    + intros _. by apply triple_ret.
  - intros _ _. case_decide; [|by apply triple_ret].
    eapply triple_bind; [done|by apply triple_deleteTagsEntries|]. intros tags _.
    eapply triple_bind; [done|by apply triple_readHeap|]. intros h _.
    apply (triple_call _ _ _ (fun err => err)); [done| | |].
    + apply Forall_singleton. by intros input.
    + intros err. apply Forall_singleton. by intros input.
    + intros _. by apply triple_ret.
Qed.

(** The entries of [reconcileASGTags] point at copies: read when the
    request is sent, they are the pairs of [tagsToAdd], one entry each. *)
Lemma load_app_l (h h' : list string) (p : option loc) :
  (forall l, p = Some l -> l < length h) -> load (h ++ h') p = load h p.
Proof.
  intros Hp. destruct p as [l|]; [|done]. simpl. apply lookup_app_l. by apply Hp.
Qed.

Lemma resolveASGTag_app_l (h h' : list string) t :
  validIn h t -> resolveASGTag (h ++ h') t = resolveASGTag h t.
Proof.
  destruct t as [p|]; [|done]. intros [Hk Hv]. simpl.
  by rewrite !load_app_l.
Qed.

Lemma validIn_app_l (h h' : list string) t : validIn h t -> validIn (h ++ h') t.
Proof.
  destruct t as [p|]; [|done]. intros [Hk Hv].
  split; intros l Hl; rewrite length_app; [specialize (Hk l Hl)|specialize (Hv l Hl)]; lia.
Qed.

Lemma createOrUpdate_loop_resolved asg (l : list (string * string)) :
  forall (acc : list (option autoscaling.TagPtr)) (st : State C),
    Forall (validIn (st_heap st)) acc ->
    exists tags st',
      foldM (fun tags kv =>
               bind (alloc kv.1) (fun kCopy =>
               bind (alloc kv.2) (fun vCopy =>
               ret (tags ++ [Some {| autoscaling.KeyPtr := Some kCopy;
                                     autoscaling.PropagateAtLaunchPtr := Some true;
                                     autoscaling.ResourceIdPtr :=
                                       autoscaling.AutoScalingGroupName asg;
                                     autoscaling.ResourceTypePtr := Some "auto-scaling-group";
                                     autoscaling.ValuePtr := Some vCopy |}]))))
            acc l st = (Done tags, st')
      /\ resolveASGTag (st_heap st') <$> tags
         = (resolveASGTag (st_heap st) <$> acc) ++ (entryFor asg <$> l)
      /\ st_world st' = st_world st
      /\ st_log st' = st_log st.
Proof.
  induction l as [|[k v] l IH]; intros acc st Hacc.
  - exists acc, st. simpl. by rewrite app_nil_r.
  - simpl. unfold bind at 1. unfold bind at 1. unfold bind at 1. simpl.
    match goal with
    | |- context [foldM ?f ?acc' l ?st1] =>
        destruct (IH acc' st1) as (tags & st' & Hrun & Hres & Hw & Hlog)
    end.
    { simpl. apply Forall_app. split.
      - eapply Forall_impl; [exact Hacc|]. intros t Ht.
        rewrite <- app_assoc. by apply validIn_app_l.
      - apply Forall_singleton. simpl.
        split; intros l' [= <-]; rewrite !length_app; simpl; lia. }
    exists tags, st'. split; [exact Hrun|]. split; [|by split].
    rewrite Hres. simpl. rewrite fmap_app, <- app_assoc. f_equal.
    + apply Forall_fmap_ext. eapply Forall_impl; [exact Hacc|]. intros t Ht.
      rewrite <- app_assoc. by apply resolveASGTag_app_l.
    + simpl. f_equal. unfold entryFor. simpl. f_equal. f_equal.
      * rewrite <- app_assoc. rewrite lookup_app_r by lia.
        by rewrite Nat.sub_diag.
      * rewrite lookup_app_r by (rewrite length_app; simpl; lia).
        rewrite length_app. simpl.
        by replace (length (st_heap st) + 1 - (length (st_heap st) + 1)) with 0 by lia.
Qed.

Lemma createOrUpdateEntries_resolved asg (tagsToAdd : gmap string string) (st : State C) :
  exists tags st',
    createOrUpdateEntries C asg tagsToAdd st = (Done tags, st')
    /\ resolveASGTag (st_heap st') <$> tags = entryFor asg <$> map_to_list tagsToAdd
    /\ st_world st' = st_world st
    /\ st_log st' = st_log st.
Proof.
  destruct (createOrUpdate_loop_resolved asg (map_to_list tagsToAdd) [] st)
    as (tags & st' & Hrun & Hres & Hw & Hlog); [by apply Forall_nil|].
  by exists tags, st'.
Qed.

End Entries.

(** C6 at a map of two tags.  [updateECSTags] is run to write the tags
    {a:1, b:2} on instance i-1: the two entries it builds hold the addresses
    of the same two variables (cells 0 and 1 of the store), and the
    [CreateTags] request the client receives has two entries that both read
    b:2, the pair the loop visited last; a:1 is in no entry. *)
Theorem updateECSTags_entries_share_loop_variables :
  let newTags : gmap string string := <["a" := "1"]> (<["b" := "2"]> ∅) in
  (Differ.getTagUpdates ∅ newTags).2 = newTags
  /\ (createTagsEntries emptyCloud newTags (start emptyCloud tt)).1
     = Done [Some {| ec2.KeyPtr := Some 0; ec2.ValuePtr := Some 1 |};
             Some {| ec2.KeyPtr := Some 0; ec2.ValuePtr := Some 1 |}]
  /\ updateECSTags emptyCloud [Some "i-1"] ∅ newTags (start emptyCloud tt)
     = (Done tt,
        {| st_world := (tt : world emptyCloud);
           st_heap := ["b"; "2"];
           st_log :=
             [(CreateTags
                 {| ec2.CreateTags_Resources := [Some "i-1"];
                    ec2.CreateTags_Tags :=
                      [Some {| ec2.Key := Some "b"; ec2.Value := Some "2" |};
                       Some {| ec2.Key := Some "b"; ec2.Value := Some "2" |}] |},
               None)] |}).
Proof. by vm_compute. Qed.

(** ** Pagination *)

Section Pagination.

Context {C : Cloud}.
Variable ngTags : string -> gmap string string -> gmap string string.

(** A client call, with what is known of the reply. *)
Lemma triple_call_gen {I O B} (op : world C -> I -> reply O * world C) (mk : I -> Call)
    (input : I) (f : error -> error) (k : O -> M C B)
    (P2 P : list (Call * option error) -> ending -> Prop) (R : B -> Prop) :
  (forall err, P [(mk input, Some err)] (Errored (f err))) ->
  (forall o, (exists w, (op w input).1 = Success o) -> triple (k o) P2 R) ->
  (forall c e, P2 c e -> P ((mk input, None) :: c) e) ->
  triple (bind (invoke op mk input)
            (fun r => match r with
                      | Success o => k o
                      | Failure err => fail (f err)
                      end)) P R.
Proof.
  intros Herr Hk Hcons st. unfold bind, invoke.
  destruct (op (st_world st) input) as [[o|err] w] eqn:E; simpl.
  - assert (exists w, (op w input).1 = Success o) as Ho.
    { exists (st_world st). by rewrite E. }
    match goal with |- context [k o ?s] => destruct (Hk o Ho s) as (c2 & Hlog & Hp & Hr) end.
    simpl in Hlog. exists ((mk input, None) :: c2).
    rewrite Hlog, <- app_assoc. split; [done|]. split; [by apply Hcons|done].
  - exists [(mk input, Some err)]. split; [done|]. split; [apply Herr|done].
Qed.

Lemma noCall_sequential p : sequential (noCall p).
Proof.
  split; [by apply Forall_nil|].
  intros c1 c2 e H1 H2. by apply Forall_app.
Qed.

Lemma noCall_filter p calls e : noCall p calls e -> List.filter p calls = [].
Proof.
  unfold noCall. induction calls as [|c calls IH]; intros H; simpl; [done|].
  apply Forall_cons in H as [Hc H]. rewrite Hc. by apply IH.
Qed.

Lemma updateECSTags_noCall p resources (existingTags desiredTags : gmap string string) :
  (forall input o, p (CreateTags input, o) = false) ->
  (forall input o, p (DeleteTags input, o) = false) ->
  triple (C := C) (updateECSTags C resources existingTags desiredTags)
    (noCall p) (fun _ => True).
Proof.
  intros Hc Hd. pose proof (noCall_sequential p) as HP.
  assert (noCall p [] Returned) as Hnil by apply HP.
  unfold updateECSTags.
  apply (triple_bind _ _ _ (fun _ => True)); [done| |].
  - case_decide; [|by apply triple_ret].
    eapply triple_bind; [done|by apply triple_createTagsEntries|]. intros tags _.
    eapply triple_bind; [done|by apply triple_readHeap|]. intros h _.
    apply (triple_call _ _ _ (fun err => err)); [done| | |].
    + apply Forall_singleton, Hc.
    + intros err. apply Forall_singleton, Hc.
    + intros _. by apply triple_ret.
  - intros _ _. case_decide; [|by apply triple_ret].
    eapply triple_bind; [done|by apply triple_deleteTagsEntries|]. intros tags _.
    eapply triple_bind; [done|by apply triple_readHeap|]. intros h _.
    apply (triple_call _ _ _ (fun err => err)); [done| | |].
    + apply Forall_singleton, Hd.
    + intros err. apply Forall_singleton, Hd.
    + intros _. by apply triple_ret.
Qed.

Lemma reconcileEBSVolumeTags_noDescribeInstances scope fuel volumeIds ng :
  triple (C := C) (reconcileEBSVolumeTags C ngTags scope fuel volumeIds ng)
    (noCall describesInstances) (fun _ => True).
Proof.
  pose proof (noCall_sequential describesInstances) as HP.
  assert (noCall describesInstances [] Returned) as Hnil by apply HP.
  assert (noCall describesInstances [] Panics) as Hpanic by done.
  unfold reconcileEBSVolumeTags.
  apply (triple_call _ _ _ (fun err => Wrap err "failed to describe Volumes")); [done| | |].
  - by apply Forall_singleton.
  - intros err. by apply Forall_singleton.
  - intros output. apply triple_volumePages; [done|done|].
    apply triple_forM_; [done|]. intros volume _.
    eapply triple_bind; [done|by apply triple_deref|]. intros name _.
    eapply triple_bind; [done|by apply triple_deref|]. intros vol _.
    by apply updateECSTags_noCall.
Qed.

(** A loop over a page that has a next token makes no describe call and
    does not return. *)
Lemma instancePages_stuck fuel body output :
  ec2.DescribeInstances_NextToken output <> None ->
  triple (C := C) (body output) (noCall describesInstances) (fun _ => True) ->
  triple (instancePages C fuel body output)
    (fun calls e => noCall describesInstances calls e /\ e <> Returned) (fun _ => True).
Proof.
  intros Hnext Hbody. induction fuel as [|fuel IH]; simpl.
  - apply triple_outOfFuel. split; [by apply Forall_nil|done].
  - eapply (triple_bind_gen _ _ (noCall describesInstances)
              (fun calls e => noCall describesInstances calls e /\ e <> Returned));
      [| |exact Hbody|].
    + intros c1 c2 e H1 [H2 He]. split; [by apply Forall_app|done].
    + intros c e He H. by split.
    + intros _ _. by destruct (ec2.DescribeInstances_NextToken output).
Qed.

Lemma volumePages_stuck fuel body output :
  ec2.DescribeVolumes_NextToken output <> None ->
  triple (C := C) (body output) (noCall describesVolumes) (fun _ => True) ->
  triple (volumePages C fuel body output)
    (fun calls e => noCall describesVolumes calls e /\ e <> Returned) (fun _ => True).
Proof.
  intros Hnext Hbody. induction fuel as [|fuel IH]; simpl.
  - apply triple_outOfFuel. split; [by apply Forall_nil|done].
  - eapply (triple_bind_gen _ _ (noCall describesVolumes)
              (fun calls e => noCall describesVolumes calls e /\ e <> Returned));
      [| |exact Hbody|].
    + intros c1 c2 e H1 [H2 He]. split; [by apply Forall_app|done].
    + intros c e He H. by split.
    + intros _ _. by destruct (ec2.DescribeVolumes_NextToken output).
Qed.

Lemma reconcileInstanceTags_stuck scope fuel ng :
  (forall w input output,
      ec2.DescribeInstancesInput_NextToken input = None ->
      (ec2DescribeInstances C w input).1 = Success output ->
      ec2.DescribeInstances_NextToken output <> None) ->
  triple (C := C) (reconcileInstanceTags C ngTags scope fuel ng)
    (atMostOnce describesInstances) (fun _ => True).
Proof.
  intros Hpaged.
  pose proof (noCall_sequential describesInstances) as HP.
  assert (noCall describesInstances [] Returned) as Hnil by apply HP.
  assert (noCall describesInstances [] Panics) as Hpanic by done.
  assert (forall c1 c2 e, noCall describesInstances c1 Returned ->
                          atMostOnce describesInstances c2 e ->
                          atMostOnce describesInstances (c1 ++ c2) e) as Hseq.
  { unfold atMostOnce. intros c1 c2 e H1 [H2 He]. split; [|done].
    rewrite List.filter_app, (noCall_filter _ _ _ H1). done. }
  assert (forall c e, e <> Returned -> noCall describesInstances c e ->
                      atMostOnce describesInstances c e) as Hstop.
  { intros c e He H. split; [|done]. rewrite (noCall_filter _ _ _ H). simpl. lia. }
  unfold reconcileInstanceTags.
  eapply triple_bind_gen; [exact Hseq|exact Hstop|by apply triple_deref|].
  intros resources _.
  eapply triple_bind_gen; [exact Hseq|exact Hstop| |].
  { apply (triple_foldM _ _ _ _ (fun _ => True)); [done|done|]. intros names asg _ _.
    eapply triple_bind; [done|by apply triple_deref|]. intros a _.
    by apply triple_ret. }
  intros names _.
  apply (triple_call_gen _ _ _ _ _ (atMostOnce describesInstances)).
  { intros err. split; [simpl; lia|done]. }
  2:{ unfold atMostOnce. intros c e [Hc He]. by split. }
  intros groups _.
  eapply triple_bind_gen; [exact Hseq|exact Hstop| |].
  { apply (triple_foldM _ _ _ _ (fun _ => True)); [done|done|]. intros ids group _ _.
    eapply triple_bind; [done|by apply triple_deref|]. intros g _.
    apply (triple_foldM _ _ _ _ (fun _ => True)); [done|done|]. intros ids' instance _ _.
    eapply triple_bind; [done|by apply triple_deref|]. intros i _.
    by apply triple_ret. }
  intros ids _.
  apply (triple_call_gen _ _ _ _ _
           (fun calls e => noCall describesInstances calls e /\ e <> Returned)).
  { intros err. split; [simpl; lia|done]. }
  2:{ intros c e [Hc He]. split; [|done]. simpl.
      rewrite (noCall_filter _ _ _ Hc). simpl. lia. }
  intros output [w Hw]. apply instancePages_stuck; [by eapply Hpaged; [|exact Hw]|].
  apply triple_forM_; [done|]. intros reservation _.
  eapply triple_bind; [done|by apply triple_deref|]. intros res _.
  apply triple_forM_; [done|]. intros instance _.
  eapply triple_bind; [done|by apply triple_deref|]. intros inst _.
  apply (triple_bind _ _ _ (fun _ => True)); [done|by apply updateECSTags_noCall|].
  intros _ _. apply reconcileEBSVolumeTags_noDescribeInstances.
Qed.

Lemma reconcileEBSVolumeTags_stuck scope fuel volumeIds ng :
  (forall w input output,
      ec2.DescribeVolumesInput_NextToken input = None ->
      (ec2DescribeVolumes C w input).1 = Success output ->
      ec2.DescribeVolumes_NextToken output <> None) ->
  triple (C := C) (reconcileEBSVolumeTags C ngTags scope fuel volumeIds ng)
    (atMostOnce describesVolumes) (fun _ => True).
Proof.
  intros Hpaged.
  pose proof (noCall_sequential describesVolumes) as HP.
  assert (noCall describesVolumes [] Returned) as Hnil by apply HP.
  assert (noCall describesVolumes [] Panics) as Hpanic by done.
  unfold reconcileEBSVolumeTags.
  apply (triple_call_gen _ _ _ _ _
           (fun calls e => noCall describesVolumes calls e /\ e <> Returned)).
  { intros err. split; [simpl; lia|done]. }
  2:{ intros c e [Hc He]. split; [|done]. simpl.
      rewrite (noCall_filter _ _ _ Hc). simpl. lia. }
  intros output [w Hw]. apply volumePages_stuck; [by eapply Hpaged; [|exact Hw]|].
  apply triple_forM_; [done|]. intros volume _.
  eapply triple_bind; [done|by apply triple_deref|]. intros name _.
  eapply triple_bind; [done|by apply triple_deref|]. intros vol _.
  by apply updateECSTags_noCall.
Qed.

End Pagination.

(** C4 at a reply with a next token.  Whenever the reply to a
    [DescribeInstances] request without token carries a next token,
    [reconcileInstanceTags] asks for no other page (it makes at most one
    [DescribeInstances] call) and, however long it runs, does not return
    normally: it goes round the first page until a call fails. *)
Theorem reconcileInstanceTags_reads_first_page_only (C : Cloud)
    (ngTags : string -> gmap string string -> gmap string string)
    (scope : Scope) (ng : eks.Nodegroup) :
  (forall w input output,
      ec2.DescribeInstancesInput_NextToken input = None ->
      (ec2DescribeInstances C w input).1 = Success output ->
      ec2.DescribeInstances_NextToken output <> None) ->
  forall (fuel : nat) (st : State C), exists calls,
    st_log (reconcileInstanceTags C ngTags scope fuel ng st).2 = st_log st ++ calls
    /\ length (List.filter describesInstances calls) <= 1
    /\ (reconcileInstanceTags C ngTags scope fuel ng st).1 <> Done tt.
Proof.
  intros Hpaged fuel st.
  destruct (reconcileInstanceTags_stuck ngTags scope fuel ng Hpaged st)
    as (calls & Hlog & [Hcount Hend] & _).
  exists calls. split; [done|]. split; [done|].
  intros Hdone. rewrite Hdone in Hend. by apply Hend.
Qed.

(** The same for the volumes of an instance. *)
Lemma reconcileEBSVolumeTags_reads_first_page_only (C : Cloud)
    (ngTags : string -> gmap string string -> gmap string string)
    (scope : Scope) (volumeIds : list (option string)) (ng : eks.Nodegroup) :
  (forall w input output,
      ec2.DescribeVolumesInput_NextToken input = None ->
      (ec2DescribeVolumes C w input).1 = Success output ->
      ec2.DescribeVolumes_NextToken output <> None) ->
  forall (fuel : nat) (st : State C), exists calls,
    st_log (reconcileEBSVolumeTags C ngTags scope fuel volumeIds ng st).2 = st_log st ++ calls
    /\ length (List.filter describesVolumes calls) <= 1
    /\ (reconcileEBSVolumeTags C ngTags scope fuel volumeIds ng st).1 <> Done tt.
Proof.
  intros Hpaged fuel st.
  destruct (reconcileEBSVolumeTags_stuck ngTags scope fuel volumeIds ng Hpaged st)
    as (calls & Hlog & [Hcount Hend] & _).
  exists calls. split; [done|]. split; [done|].
  intros Hdone. rewrite Hdone in Hend. by apply Hend.
Qed.

(** When the page has a next token and the body of the loop returns, the
    loop spends whatever fuel it is given. *)
Lemma instancePages_spins (C : Cloud) fuel body output :
  ec2.DescribeInstances_NextToken output <> None ->
  (forall st, (body output st).1 = Done tt) ->
  forall st, (instancePages C fuel body output st).1 = OutOfFuel.
Proof.
  intros Hnext Hbody. induction fuel as [|fuel IH]; intros st; simpl; [done|].
  unfold bind. specialize (Hbody st).
  destruct (body output st) as [[[]|err| |] st1]; try done.
  destruct (ec2.DescribeInstances_NextToken output); [apply IH|done].
Qed.

(** Three pages of one instance each, every call succeeding: however much
    fuel it is given, [reconcileInstanceTags] does not come out of its
    loop. *)
Lemma reconcileInstanceTags_three_pages_spins (fuel : nat) :
  (reconcileInstanceTags pagedCloud sampleNgTags sampleScope fuel
     (nodegroupOf ["asg-1"]) (start pagedCloud tt)).1 = OutOfFuel.
Proof.
  destruct fuel as [|fuel]; [by vm_compute|].
  unfold reconcileInstanceTags.
  cbn -[instancePages sampleNgTags instanceTagMaps updateECSTags reconcileEBSVolumeTags].
  apply instancePages_spins; [done|].
  intros st. by vm_compute.
Qed.

(** Three pages of one instance each: with fuel for three turns of the
    loop, the instance of the first page is tagged three times, the second
    and third pages are never asked for, and the loop is still turning. *)
Example reconcileInstanceTags_three_pages :
  let run := reconcileInstanceTags pagedCloud sampleNgTags sampleScope 3
               (nodegroupOf ["asg-1"]) (start pagedCloud tt) in
  run.1 = OutOfFuel
  /\ List.filter describesInstances (st_log run.2)
     = [(DescribeInstances
           {| ec2.InstanceIds := [Some "i-1"; Some "i-2"; Some "i-3"];
              ec2.DescribeInstancesInput_NextToken := None |}, None)]
  /\ (fun c => match c.1 with
               | CreateTags input => Some (ec2.CreateTags_Resources input)
               | _ => None
               end) <$> st_log run.2
     = [None; None;
        Some [Some "i-1"]; None; Some [Some "i-1"]; None; Some [Some "i-1"]; None].
Proof. by vm_compute. Qed.

Lemma reconcileInstanceTags_reads_first_page_only_witness :
  exists calls,
    st_log (reconcileInstanceTags pagedCloud sampleNgTags sampleScope 3
              (nodegroupOf ["asg-1"]) (start pagedCloud tt)).2
    = st_log (start pagedCloud tt) ++ calls
    /\ length (List.filter describesInstances calls) <= 1
    /\ (reconcileInstanceTags pagedCloud sampleNgTags sampleScope 3
          (nodegroupOf ["asg-1"]) (start pagedCloud tt)).1 <> Done tt.
Proof.
  apply (reconcileInstanceTags_reads_first_page_only pagedCloud sampleNgTags sampleScope
           (nodegroupOf ["asg-1"])).
  intros w input output Htoken. simpl. unfold threePages. rewrite Htoken.
  by intros [= <-].
Defined.

(** ** The cascade *)

Section Cascade.

Context {C : Cloud}.
Variable ngTags : string -> gmap string string -> gmap string string.

Lemma briefs_app c1 c2 : briefs (c1 ++ c2) = briefs c1 ++ briefs c2.
Proof. unfold briefs. apply fmap_app. Qed.

Lemma yields_nil_sequential : sequential (yields []).
Proof.
  split; [done|]. intros c1 c2 e [_ H1] [-> H2]. split; [done|].
  by rewrite briefs_app, H1, H2.
Qed.

Lemma triple_yields_eq {A} (m : M C A) s s' (R : A -> Prop) :
  triple m (yields s) R -> s = s' -> triple m (yields s') R.
Proof. by intros H <-. Qed.

Lemma triple_bind_yields {A B} (m : M C A) (k : A -> M C B) s1 s2
    (R1 : A -> Prop) (R : B -> Prop) :
  triple m (yields s1) R1 ->
  (forall a, R1 a -> triple (k a) (yields s2) R) ->
  triple (bind m k) (yields (s1 ++ s2)) R.
Proof.
  apply triple_bind_gen.
  - intros c1 c2 e [_ H1] [-> H2]. split; [done|]. by rewrite briefs_app, H1, H2.
  - by intros c e He [-> _].
Qed.

(** A computation that touches neither the clients nor the store. *)
Lemma triple_pure {A} (m : M C A) (a : A) :
  (forall st, m st = (Done a, st)) -> triple m (yields []) (fun x => x = a).
Proof.
  intros Hm st. exists []. rewrite Hm. simpl. rewrite app_nil_r.
  split; [done|]. split; [done|]. by intros ? [= <-].
Qed.

(** A client call that succeeds. *)
Lemma triple_call_yields {I O B} (op : world C -> I -> reply O * world C) (mk : I -> Call)
    (input : I) (o : O) (f : error -> error) (k : O -> M C B) s (R : B -> Prop) :
  (forall w, (op w input).1 = Success o) ->
  triple (k o) (yields s) R ->
  triple (bind (invoke op mk input)
            (fun r => match r with
                      | Success o => k o
                      | Failure err => fail (f err)
                      end)) (yields (brief (mk input) :: s)) R.
Proof.
  intros Hop Hk st. unfold bind, invoke. simpl. rewrite Hop.
  match goal with |- context [k o ?s] => destruct (Hk s) as (c2 & Hlog & [He Hs] & Hr) end.
  simpl in *. exists ((mk input, None) :: c2).
  rewrite Hlog, <- app_assoc. split; [done|]. split; [|done].
  split; [done|]. by rewrite <- Hs.
Qed.

Lemma updateTags_yields arn (existingTags desiredTags : gmap string string) :
  (forall w input, (eksTagResource C w input).1 = Success tt) ->
  (forall w input, (eksUntagResource C w input).1 = Success tt) ->
  triple (C := C) (updateTags C arn existingTags desiredTags)
    (yields (nodegroupCalls arn existingTags desiredTags)) (fun _ => True).
Proof.
  intros Htag Huntag. unfold updateTags, nodegroupCalls.
  apply (triple_bind_yields _ _ _ _ (fun _ => True)).
  - case_decide; [|by apply triple_ret].
    eapply triple_yields_eq;
      [apply (triple_call_yields _ _ _ tt (fun err => err));
         [by intros w|by apply triple_ret]
      |reflexivity].
  - intros _ _. case_decide; [|by apply triple_ret].
    eapply triple_yields_eq;
      [apply (triple_call_yields _ _ _ tt (fun err => err));
         [by intros w|by apply triple_ret]
      |reflexivity].
Qed.

Lemma updateECSTags_yields resources (existingTags desiredTags : gmap string string) :
  (forall w input, (ec2CreateTags C w input).1 = Success tt) ->
  dom existingTags ⊆ dom desiredTags ->
  triple (C := C) (updateECSTags C resources existingTags desiredTags)
    (yields (if decide (0 < size (Differ.getTagUpdates existingTags desiredTags).2)
             then [BCreateTags resources] else []))
    (fun _ => True).
Proof.
  intros Hcreate Hsub. pose proof yields_nil_sequential as HP.
  unfold updateECSTags. rewrite (untagKeys_nil _ _ Hsub). simpl.
  eapply triple_yields_eq; [|apply app_nil_r].
  apply (triple_bind_yields _ _ _ _ (fun _ => True)); [|intros _ _; by apply triple_ret].
  case_decide; [|by apply triple_ret].
  apply (triple_bind_yields _ _ [] [BCreateTags resources] (fun _ => True));
    [by apply triple_createTagsEntries|]. intros tags _.
  apply (triple_bind_yields _ _ [] [BCreateTags resources] (fun _ => True));
    [by apply triple_readHeap|]. intros h _.
  eapply triple_yields_eq;
    [eapply (triple_call_yields _ _ _ tt (fun err => err));
       [by intros w|by apply triple_ret]
    |reflexivity].
Qed.

Lemma reconcileEBSVolumeTags_yields scope fuel nodegroupName volumeId volume ng :
  eks.NodegroupName ng = Some nodegroupName ->
  (forall w input, (ec2CreateTags C w input).1 = Success tt) ->
  (forall w input,
      ec2.VolumeIds input = [Some volumeId] ->
      (ec2DescribeVolumes C w input).1 = Success (onePageOfVolumes [volume])) ->
  triple (C := C) (reconcileEBSVolumeTags C ngTags scope (S fuel) [Some volumeId] ng)
    (yields (BDescribeVolumes [Some volumeId]
             :: volumeCalls (ClusterName scope) nodegroupName
                  (ngTags (ClusterName scope) (AdditionalTags scope)) volume))
    (fun _ => True).
Proof.
  intros Hname Hcreate Hvolumes. unfold reconcileEBSVolumeTags.
  set (calls := volumeCalls (ClusterName scope) nodegroupName
                  (ngTags (ClusterName scope) (AdditionalTags scope)) volume).
  eapply triple_yields_eq;
    [eapply (triple_call_yields _ _ _ (onePageOfVolumes [volume])
               (fun err => Wrap err "failed to describe Volumes") _ calls);
       [by intros w; apply Hvolumes|]
    |reflexivity].
  unfold onePageOfVolumes.
  cbn [volumePages forM_ deref fmap list_fmap ec2.Volumes ec2.DescribeVolumes_NextToken].
  rewrite Hname. cbn [deref].
  eapply triple_yields_eq; [|apply app_nil_r].
  apply (triple_bind_yields _ _ calls [] (fun _ => True)); [|intros _ _; by apply triple_ret].
  eapply triple_yields_eq; [|apply app_nil_r].
  apply (triple_bind_yields _ _ calls [] (fun _ => True)); [|intros _ _; by apply triple_ret].
  apply triple_bind_ret, triple_bind_ret.
  apply updateECSTags_yields; [done|apply volumeTagMaps_dom].
Qed.

Lemma instance_yields scope fuel nodegroupName id tags volumeId volume ng :
  eks.NodegroupName ng = Some nodegroupName ->
  (forall w input, (ec2CreateTags C w input).1 = Success tt) ->
  (forall w input,
      ec2.VolumeIds input = [Some volumeId] ->
      (ec2DescribeVolumes C w input).1 = Success (onePageOfVolumes [volume])) ->
  let ngtags := ngTags (ClusterName scope) (AdditionalTags scope) in
  let instance := instanceOf id tags (Some volumeId) in
  triple (C := C)
    (bind (updateECSTags C [ec2.InstanceId instance]
             (instanceTagMaps (ec2.Instance_Tags instance) ngtags).1
             (instanceTagMaps (ec2.Instance_Tags instance) ngtags).2)
       (fun _ => reconcileEBSVolumeTags C ngTags scope (S fuel)
                   (collectVolumeIds (ec2.BlockDeviceMappings instance)) ng))
    (yields (instanceCalls ngtags instance
             ++ BDescribeVolumes [Some volumeId]
                :: volumeCalls (ClusterName scope) nodegroupName ngtags volume))
    (fun _ => True).
Proof.
  intros Hname Hcreate Hvolumes ngtags instance.
  apply (triple_bind_yields _ _ _ _ (fun _ => True)).
  - apply updateECSTags_yields; [done|apply instanceTagMaps_dom].
  - intros _ _. change (collectVolumeIds (ec2.BlockDeviceMappings instance))
      with [Some volumeId].
    by apply reconcileEBSVolumeTags_yields.
Qed.

Lemma reconcileInstanceTags_yields scope fuel ng nodegroupName asg1 asg2 g1 g2
    i1 i2 itags1 itags2 v1 v2 vol1 vol2 :
  eks.NodegroupName ng = Some nodegroupName ->
  eks.Resources ng = Some {| eks.AutoScalingGroups := [Some asg1; Some asg2] |} ->
  (forall w input, (ec2CreateTags C w input).1 = Success tt) ->
  (forall w input,
      (asgDescribeAutoScalingGroups C w input).1
      = Success {| autoscaling.AutoScalingGroups :=
                     [Some (groupOf g1 [i1]); Some (groupOf g2 [i2])] |}) ->
  (forall w input,
      (ec2DescribeInstances C w input).1
      = Success (onePage [instanceOf i1 itags1 (Some v1); instanceOf i2 itags2 (Some v2)])) ->
  (forall w input,
      ec2.VolumeIds input = [Some v1] ->
      (ec2DescribeVolumes C w input).1 = Success (onePageOfVolumes [vol1])) ->
  (forall w input,
      ec2.VolumeIds input = [Some v2] ->
      (ec2DescribeVolumes C w input).1 = Success (onePageOfVolumes [vol2])) ->
  let ngtags := ngTags (ClusterName scope) (AdditionalTags scope) in
  triple (C := C) (reconcileInstanceTags C ngTags scope (S fuel) ng)
    (yields ([BDescribeAutoScalingGroups; BDescribeInstances]
             ++ (instanceCalls ngtags (instanceOf i1 itags1 (Some v1))
                 ++ BDescribeVolumes [Some v1]
                    :: volumeCalls (ClusterName scope) nodegroupName ngtags vol1)
             ++ (instanceCalls ngtags (instanceOf i2 itags2 (Some v2))
                 ++ BDescribeVolumes [Some v2]
                    :: volumeCalls (ClusterName scope) nodegroupName ngtags vol2)))
    (fun _ => True).
Proof.
  intros Hname Hres Hcreate Hgroups Hinstances Hvol1 Hvol2 ngtags.
  unfold reconcileInstanceTags. rewrite Hres. cbn [deref].
  apply triple_bind_ret.
  cbn [foldM deref eks.AutoScalingGroups].
  apply (triple_bind_yields _ _ [] _ (fun _ => True));
    [eapply triple_weaken; [| |eapply triple_pure; by intros st]; done|].
  intros names _.
  set (first := instanceCalls ngtags (instanceOf i1 itags1 (Some v1))
                ++ BDescribeVolumes [Some v1]
                   :: volumeCalls (ClusterName scope) nodegroupName ngtags vol1).
  set (second := instanceCalls ngtags (instanceOf i2 itags2 (Some v2))
                 ++ BDescribeVolumes [Some v2]
                    :: volumeCalls (ClusterName scope) nodegroupName ngtags vol2).
  eapply triple_yields_eq;
    [eapply (triple_call_yields _ _ _ _ _ _ (BDescribeInstances :: first ++ second));
       [by intros w; apply Hgroups|]
    |reflexivity].
  unfold groupOf.
  cbn [foldM deref autoscaling.AutoScalingGroups autoscaling.Instances fmap list_fmap].
  apply (triple_bind_yields _ _ [] _ (fun _ => True));
    [eapply triple_weaken; [| |eapply triple_pure; by intros st]; done|].
  intros ids _.
  eapply triple_yields_eq;
    [eapply (triple_call_yields _ _ _ _ _ _ (first ++ second));
       [by intros w; apply Hinstances|]
    |reflexivity].
  unfold onePage.
  cbn [instancePages forM_ deref fmap list_fmap ec2.Reservations ec2.Instances
       ec2.DescribeInstances_NextToken].
  eapply triple_yields_eq; [|apply app_nil_r].
  apply (triple_bind_yields _ _ (first ++ second) [] (fun _ => True));
    [|intros _ _; by apply triple_ret].
  apply (triple_bind_yields _ _ first second (fun _ => True)).
  - apply triple_bind_ret. cbn [forM_ deref ec2.Instances].
    eapply triple_yields_eq; [|apply app_nil_r].
    apply (triple_bind_yields _ _ first [] (fun _ => True));
      [|intros _ _; by apply triple_ret].
    apply triple_bind_ret. by apply instance_yields.
  - intros _ _.
    eapply triple_yields_eq; [|apply app_nil_r].
    apply (triple_bind_yields _ _ second [] (fun _ => True));
      [|intros _ _; by apply triple_ret].
    apply triple_bind_ret. cbn [forM_ deref ec2.Instances].
    eapply triple_yields_eq; [|apply app_nil_r].
    apply (triple_bind_yields _ _ second [] (fun _ => True));
      [|intros _ _; by apply triple_ret].
    apply triple_bind_ret. by apply instance_yields.
Qed.

Lemma instanceCalls_no_ASG_tag_call ngtags instance :
  Forall (fun b => isASGTagCall b = false) (instanceCalls ngtags instance).
Proof. unfold instanceCalls. simpl. case_decide; repeat constructor. Qed.

Lemma volumeCalls_no_ASG_tag_call clusterName nodegroupName ngtags volume :
  Forall (fun b => isASGTagCall b = false)
    (volumeCalls clusterName nodegroupName ngtags volume).
Proof. unfold volumeCalls. simpl. case_decide; repeat constructor. Qed.

Lemma nodegroupCalls_no_ASG_tag_call arn (existingTags desiredTags : gmap string string) :
  Forall (fun b => isASGTagCall b = false) (nodegroupCalls arn existingTags desiredTags).
Proof.
  unfold nodegroupCalls. simpl. apply Forall_app.
  split; case_decide; repeat constructor.
Qed.

End Cascade.

(** C5, as the code has it.  [reconcileTags] is run on a nodegroup with two
    Auto Scaling Groups, each with one instance with one volume; the
    describe calls answer with one page and every tag call succeeds.  Then
    it returns, and its calls are, in this order: the tag calls on the
    nodegroup itself (a [TagResource] when there are tags to write, an
    [UntagResource] when there are keys to remove), one
    [DescribeAutoScalingGroups], one [DescribeInstances], and for each
    instance in turn one [CreateTags] on the instance when there are tags to
    write on it, one [DescribeVolumes] for its volume and one [CreateTags]
    on the volume when there are tags to write on it.  No call writes or
    removes tags of an Auto Scaling Group. *)
Theorem reconcileTags_cascade_order (C : Cloud)
    (ngTags : string -> gmap string string -> gmap string string)
    (scope : Scope) (fuel : nat) (arn : option string) (nodegroupName : string)
    (tags : gmap string (option string)) (asg1 asg2 : eks.AutoScalingGroup)
    (g1 g2 i1 i2 : string) (itags1 itags2 : list (option ec2.Tag)) (v1 v2 : string)
    (vol1 vol2 : ec2.Volume) :
  let ng := {| eks.NodegroupArn := arn;
               eks.NodegroupName := Some nodegroupName;
               eks.Resources := Some {| eks.AutoScalingGroups := [Some asg1; Some asg2] |};
               eks.Tags := tags |} in
  let ngtags := ngTags (ClusterName scope) (AdditionalTags scope) in
  let instance1 := instanceOf i1 itags1 (Some v1) in
  let instance2 := instanceOf i2 itags2 (Some v2) in
  (forall w input, (eksTagResource C w input).1 = Success tt) ->
  (forall w input, (eksUntagResource C w input).1 = Success tt) ->
  (forall w input, (ec2CreateTags C w input).1 = Success tt) ->
  (forall w input,
      (asgDescribeAutoScalingGroups C w input).1
      = Success {| autoscaling.AutoScalingGroups :=
                     [Some (groupOf g1 [i1]); Some (groupOf g2 [i2])] |}) ->
  (forall w input,
      (ec2DescribeInstances C w input).1 = Success (onePage [instance1; instance2])) ->
  (forall w input,
      ec2.VolumeIds input = [Some v1] ->
      (ec2DescribeVolumes C w input).1 = Success (onePageOfVolumes [vol1])) ->
  (forall w input,
      ec2.VolumeIds input = [Some v2] ->
      (ec2DescribeVolumes C w input).1 = Success (onePageOfVolumes [vol2])) ->
  forall st : State C, exists calls,
    (reconcileTags C ngTags scope (S fuel) ng st).1 = Done tt
    /\ st_log (reconcileTags C ngTags scope (S fuel) ng st).2 = st_log st ++ calls
    /\ briefs calls
       = nodegroupCalls arn (StringValueMap tags) ngtags
         ++ [BDescribeAutoScalingGroups; BDescribeInstances]
         ++ (instanceCalls ngtags instance1
             ++ BDescribeVolumes [Some v1]
                :: volumeCalls (ClusterName scope) nodegroupName ngtags vol1)
         ++ (instanceCalls ngtags instance2
             ++ BDescribeVolumes [Some v2]
                :: volumeCalls (ClusterName scope) nodegroupName ngtags vol2)
    /\ Forall (fun b => isASGTagCall b = false) (briefs calls).
Proof.
  intros ng ngtags instance1 instance2 Htag Huntag Hcreate Hgroups Hinstances Hvol1 Hvol2 st.
  assert (triple (C := C) (reconcileTags C ngTags scope (S fuel) ng)
            (yields (nodegroupCalls arn (StringValueMap tags) ngtags
                     ++ [BDescribeAutoScalingGroups; BDescribeInstances]
                     ++ (instanceCalls ngtags instance1
                         ++ BDescribeVolumes [Some v1]
                            :: volumeCalls (ClusterName scope) nodegroupName ngtags vol1)
                     ++ (instanceCalls ngtags instance2
                         ++ BDescribeVolumes [Some v2]
                            :: volumeCalls (ClusterName scope) nodegroupName ngtags vol2)))
            (fun _ => True)) as Hrun.
  { unfold reconcileTags. apply (triple_bind_yields _ _ _ _ (fun _ => True)).
    - by apply updateTags_yields.
    - intros _ _. by apply (reconcileInstanceTags_yields ngTags scope fuel ng nodegroupName
                              asg1 asg2 g1 g2 i1 i2 itags1 itags2 v1 v2 vol1 vol2). }
  destruct (Hrun st) as (calls & Hlog & [Hend Hcalls] & _).
  exists calls. split; [|split; [done|split; [done|]]].
  - destruct (reconcileTags C ngTags scope (S fuel) ng st).1 as [[]| | |]; by try done.
  - rewrite Hcalls. apply Forall_app. split; [apply nodegroupCalls_no_ASG_tag_call|].
    apply Forall_app. split; [by repeat constructor|].
    apply Forall_app. split.
    + apply Forall_app. split; [apply instanceCalls_no_ASG_tag_call|].
      apply Forall_cons. split; [done|apply volumeCalls_no_ASG_tag_call].
    + apply Forall_app. split; [apply instanceCalls_no_ASG_tag_call|].
      apply Forall_cons. split; [done|apply volumeCalls_no_ASG_tag_call].
Qed.

Lemma reconcileTags_cascade_order_witness :
  exists calls,
    (reconcileTags cascadeCloud sampleNgTags sampleScope 1
       (nodegroupOf ["asg-1"; "asg-2"]) (start cascadeCloud tt)).1 = Done tt
    /\ st_log (reconcileTags cascadeCloud sampleNgTags sampleScope 1
                 (nodegroupOf ["asg-1"; "asg-2"]) (start cascadeCloud tt)).2
       = st_log (start cascadeCloud tt) ++ calls
    /\ briefs calls
       = nodegroupCalls (Some "arn:ng") (StringValueMap ∅) (sampleNgTags "c1" {["team" := "a"]})
         ++ [BDescribeAutoScalingGroups; BDescribeInstances]
         ++ (instanceCalls (sampleNgTags "c1" {["team" := "a"]})
               (instanceOf "i-1" [] (Some "vol-1"))
             ++ BDescribeVolumes [Some "vol-1"]
                :: volumeCalls "c1" "ng-1" (sampleNgTags "c1" {["team" := "a"]})
                     (volumeOf "vol-1" []))
         ++ (instanceCalls (sampleNgTags "c1" {["team" := "a"]})
               (instanceOf "i-2" [] (Some "vol-2"))
             ++ BDescribeVolumes [Some "vol-2"]
                :: volumeCalls "c1" "ng-1" (sampleNgTags "c1" {["team" := "a"]})
                     (volumeOf "vol-2" []))
    /\ Forall (fun b => isASGTagCall b = false) (briefs calls).
Proof.
  apply (reconcileTags_cascade_order cascadeCloud sampleNgTags sampleScope 0
           (Some "arn:ng") "ng-1" ∅ {| eks.Name := Some "asg-1" |} {| eks.Name := Some "asg-2" |}
           "asg-1" "asg-2" "i-1" "i-2" [] [] "vol-1" "vol-2"
           (volumeOf "vol-1" []) (volumeOf "vol-2" [])).
  - reflexivity.
  - reflexivity.
  - reflexivity.
  - reflexivity.
  - reflexivity.
  - intros w input Hids. simpl. rewrite Hids. reflexivity.
  - intros w input Hids. simpl. rewrite Hids. reflexivity.
Defined.

(** C5, as stated, fails: on the nodegroup with two Auto Scaling Groups,
    each with one instance with one volume, [reconcileTags] returns after
    nine calls, none of which is a tag call on an Auto Scaling Group, where
    the claim has one for each of the two groups. *)
Lemma reconcileTags_makes_no_ASG_tag_call :
  let run := reconcileTags cascadeCloud sampleNgTags sampleScope 1
               (nodegroupOf ["asg-1"; "asg-2"]) (start cascadeCloud tt) in
  run.1 = Done tt
  /\ briefs (st_log run.2)
     = [BTagResource (Some "arn:ng");
        BDescribeAutoScalingGroups; BDescribeInstances;
        BCreateTags [Some "i-1"]; BDescribeVolumes [Some "vol-1"]; BCreateTags [Some "vol-1"];
        BCreateTags [Some "i-2"]; BDescribeVolumes [Some "vol-2"]; BCreateTags [Some "vol-2"]]
  /\ length (List.filter isASGTagCall (briefs (st_log run.2))) <> 2.
Proof. by vm_compute. Qed.

(** * Further properties of the code *)

(** ** The differs *)

Section MoreDiffer.

Variable ClusterAWSCloudProviderTagKey : string -> string.

Lemma delete_pairs_loop_lookup (m : gmap string string) (l : list (string * string)) k :
  foldl (fun m kv => delete kv.1 m) m l !! k = if decide (k ∈ l.*1) then None else m !! k.
Proof.
  revert m. induction l as [|[k0 v0] l IH]; intros m; simpl; [done|].
  rewrite IH. destruct (decide (k ∈ l.*1)) as [Hin|Hnin].
  - rewrite decide_True; [done|]. apply elem_of_cons. by right.
  - destruct (decide (k0 = k)) as [->|Hne].
    + rewrite lookup_delete_eq. rewrite decide_True; [done|]. apply elem_of_cons. by left.
    + rewrite lookup_delete_ne by done. rewrite decide_False; [done|].
      intros Hin. apply elem_of_cons in Hin as [->|]; done.
Qed.

Lemma elem_of_map_to_list_fst (m : gmap string string) k :
  k ∈ (map_to_list m).*1 <-> is_Some (m !! k).
Proof.
  rewrite list_elem_of_fmap. split.
  - intros [[k' v] [-> Hin]]. apply elem_of_map_to_list in Hin. by exists v.
  - intros [v Hv]. exists (k, v). split; [done|]. by apply elem_of_map_to_list.
Qed.

End MoreDiffer.

(** X1. [getASGTagUpdates] returns as tags to delete exactly the pairs of
    the current tags whose key the desired tags lack and that is none of the
    five keys EKS manages, and as tags to add exactly the pairs of the
    desired tags that the current tags lack or hold with another value. *)
Theorem getASGTagUpdates_exact (ClusterAWSCloudProviderTagKey : string -> string)
    (clusterName : string) (currentTags tags : gmap string string) :
  let upd := ASGDiffer.getASGTagUpdates ClusterAWSCloudProviderTagKey clusterName
               currentTags tags in
  (forall k v, upd.1 !! k = Some v
               <-> currentTags !! k = Some v /\ tags !! k = None
                   /\ k ∉ ASGDiffer.officialASGTagsByEKS ClusterAWSCloudProviderTagKey
                            clusterName)
  /\ (forall k v, upd.2 !! k = Some v <-> tags !! k = Some v /\ currentTags !! k <> Some v).
Proof.
  cbv zeta. split; intros k v.
  - rewrite tagsToDelete_lookup.
    destruct (currentTags !! k) as [cv|] eqn:Ec.
    + case_decide as Hd.
      * destruct Hd as [Ht Hoff]. split.
        -- intros [= ->]. split; [done|]. split; [done|].
           intros Hin. apply isOfficialTag_true in Hin. congruence.
        -- by intros [[= ->] _].
      * split; [done|]. intros ([= ->] & Ht & Hoff). exfalso. apply Hd. split; [done|].
        destruct (ASGDiffer.isOfficialTag _ k) eqn:E; [|done].
        by apply isOfficialTag_true in E.
    + split; [done|]. by intros [? _].
  - rewrite tagsToAdd_lookup. destruct (tags !! k) as [tv|] eqn:Et.
    + case_decide as Hd.
      * split; [done|]. intros [[= ->] Hne]. done.
      * split; [intros [= ->]; by split|]. by intros [[= ->] _].
    + split; [done|]. by intros [? _].
Qed.

(** X2. Writing the tags to add and then removing the tags to delete, the
    order in which [reconcileASGTags] sends them, turns the current tags of
    the group into the desired tags plus the tags of the group under one of
    the five keys EKS manages that the desired tags do not define. *)
Theorem applyASGUpdates_getASGTagUpdates (ClusterAWSCloudProviderTagKey : string -> string)
    (clusterName : string) (currentTags tags : gmap string string) (k : string) :
  applyASGUpdates currentTags
    (ASGDiffer.getASGTagUpdates ClusterAWSCloudProviderTagKey clusterName currentTags tags)
  !! k
  = match tags !! k with
    | Some v => Some v
    | None =>
        if decide (k ∈ ASGDiffer.officialASGTagsByEKS ClusterAWSCloudProviderTagKey clusterName)
        then currentTags !! k else None
    end.
Proof.
  unfold applyASGUpdates. rewrite delete_pairs_loop_lookup.
  rewrite insert_loop_lookup by apply NoDup_fst_map_to_list.
  rewrite list_to_map_to_list, tagsToAdd_lookup.
  set (upd := ASGDiffer.getASGTagUpdates ClusterAWSCloudProviderTagKey clusterName
                currentTags tags).
  assert (k ∈ (map_to_list upd.1).*1
          <-> is_Some (currentTags !! k) /\ tags !! k = None
              /\ k ∉ ASGDiffer.officialASGTagsByEKS ClusterAWSCloudProviderTagKey clusterName)
    as Hdel.
  { rewrite elem_of_map_to_list_fst. unfold upd. rewrite tagsToDelete_lookup.
    destruct (currentTags !! k) as [cv|] eqn:Ec.
    - case_decide as Hd.
      + destruct Hd as [Ht Hoff]. split; [|by eauto]. intros _. split; [by eauto|].
        split; [done|]. intros Hin. apply isOfficialTag_true in Hin. congruence.
      + split; [by intros [? ?]|]. intros (_ & Ht & Hoff). exfalso. apply Hd.
        split; [done|]. destruct (ASGDiffer.isOfficialTag _ k) eqn:E; [|done].
        by apply isOfficialTag_true in E.
    - split; [by intros [? ?]|]. by intros [[? ?] _]. }
  destruct (tags !! k) as [tv|] eqn:Et.
  - rewrite decide_False by (rewrite Hdel; by intros (_ & ? & _)).
    by destruct (decide (currentTags !! k = Some tv)).
  - destruct (decide (k ∈ ASGDiffer.officialASGTagsByEKS _ clusterName)) as [Hoff|Hoff].
    + rewrite decide_False; [done|]. rewrite Hdel. by intros (_ & _ & ?).
    + destruct (currentTags !! k) as [cv|] eqn:Ec.
      * rewrite decide_True; [done|]. apply Hdel. eauto.
      * by destruct (decide _).
Qed.

(** X3. No key that [getTagUpdates] returns for removal is among the tags
    it returns for writing, so the order of the two calls does not matter:
    writing the tags first and removing the keys second, as [updateTags] and
    [updateECSTags] do, also turns the current tags into the desired ones. *)
Theorem applyInCallOrder_getTagUpdates (currentTags tags : gmap string string) :
  (forall k, k ∈ (Differ.getTagUpdates currentTags tags).1 ->
             (Differ.getTagUpdates currentTags tags).2 !! k = None)
  /\ applyInCallOrder currentTags (Differ.getTagUpdates currentTags tags) = tags.
Proof.
  split.
  - intros k Hk. apply untagKeys_elem in Hk as [_ Ht]. by rewrite newTags_lookup, Ht.
  - apply map_eq. intros k. unfold applyInCallOrder.
    rewrite delete_loop_lookup, insert_loop_lookup by apply NoDup_fst_map_to_list.
    rewrite list_to_map_to_list, newTags_lookup.
    destruct (decide (k ∈ (Differ.getTagUpdates currentTags tags).1)) as [Hin|Hnin].
    + apply untagKeys_elem in Hin as [_ Ht]. by rewrite Ht.
    + rewrite untagKeys_elem in Hnin.
      destruct (tags !! k) as [v|] eqn:Et.
      * by destruct (decide (currentTags !! k = Some v)).
      * destruct (currentTags !! k) eqn:Ec; [|done]. exfalso. apply Hnin. eauto.
Qed.

(** X4. With no current tag, [getTagUpdates] removes nothing and writes all
    the desired tags; with no desired tag, it writes nothing and removes
    every key of the current tags, each once, in the order the loop visits
    them. *)
Theorem getTagUpdates_empty (m : gmap string string) :
  Differ.getTagUpdates ∅ m = ([], m)
  /\ Differ.getTagUpdates m ∅ = ((map_to_list m).*1, ∅).
Proof.
  split.
  - assert ((Differ.getTagUpdates ∅ m).1 = []) as H1.
    { apply untagKeys_nil. rewrite dom_empty_L. apply empty_subseteq. }
    assert ((Differ.getTagUpdates ∅ m).2 = m) as H2.
    { apply map_eq. intros k. rewrite newTags_lookup, lookup_empty. by destruct (m !! k). }
    by rewrite (surjective_pairing (Differ.getTagUpdates ∅ m)), H1, H2.
  - assert ((Differ.getTagUpdates m ∅).1 = (map_to_list m).*1) as H1.
    { unfold Differ.getTagUpdates. cbn [fst]. rewrite untag_loop_spec. simpl.
      f_equal. induction (map_to_list m) as [|kv l IH]; [done|].
      rewrite filter_cons_True by apply lookup_empty. by rewrite IH. }
    assert ((Differ.getTagUpdates m ∅).2 = ∅) as H2.
    { apply map_eq. intros k. by rewrite newTags_lookup, lookup_empty. }
    by rewrite (surjective_pairing (Differ.getTagUpdates m ∅)), H1, H2.
Qed.

(** ** The tag maps of the reconcilers *)

Section TagMaps.

Context {C : Cloud}.

Lemma insert_loop_list_to_map (l : list (string * string)) (acc : gmap string string) :
  foldl (fun m kv => <[kv.1 := kv.2]> m) acc l = list_to_map (reverse l) ∪ acc.
Proof.
  revert acc. induction l as [|[k v] l IH]; intros acc; simpl.
  - by rewrite (left_id_L ∅ (∪)).
  - rewrite IH, reverse_cons, list_to_map_app. simpl.
    rewrite <- (assoc_L (∪)). f_equal.
    rewrite insert_empty. by rewrite <- insert_union_singleton_l.
Qed.

Lemma tagDescriptions_loop (pairs : list (string * string)) (acc : gmap string string)
    (st : State C) :
  foldM (fun tags v =>
           bind (deref v) (fun v =>
           bind (deref (autoscaling.TagDescription_Key v)) (fun key =>
           bind (deref (autoscaling.TagDescription_Value v)) (fun value =>
           ret (<[key := value]> tags)))))
        acc (describedAs <$> pairs) st
  = (Done (foldl (fun m kv => <[kv.1 := kv.2]> m) acc pairs), st).
Proof.
  revert acc. induction pairs as [|[k v] pairs IH]; intros acc; simpl; [done|].
  unfold bind at 1. simpl. apply IH.
Qed.

Lemma tagDescriptions_loop_panics (input : list (option autoscaling.TagDescription))
    (acc : gmap string string) (st : State C) :
  ~ Forall wellFormedDescription input ->
  foldM (fun tags v =>
           bind (deref v) (fun v =>
           bind (deref (autoscaling.TagDescription_Key v)) (fun key =>
           bind (deref (autoscaling.TagDescription_Value v)) (fun value =>
           ret (<[key := value]> tags)))))
        acc input st
  = (Panicked, st).
Proof.
  revert acc. induction input as [|d input IH]; intros acc Hbad.
  - exfalso. apply Hbad. by apply Forall_nil.
  - simpl. unfold bind at 1.
    destruct d as [[[k|] [v|]]|]; simpl; try done.
    apply IH. intros Hall. apply Hbad. apply Forall_cons. split; [|done].
    by exists (k, v).
Qed.

Lemma copyTag_loop_desired (D : gmap string string) (tags : list (option ec2.Tag))
    (maps : gmap string string * gmap string string) k :
  (forall k, maps.2 !! k = match maps.1 !! k with Some v => Some v | None => D !! k end) ->
  (foldl copyTag maps tags).2 !! k
  = match (foldl copyTag maps tags).1 !! k with
    | Some v => Some v
    | None => D !! k
    end.
Proof.
  revert maps k. induction tags as [|tag tags IH]; intros maps k Hinv; simpl; [apply Hinv|].
  apply IH. intros k'. unfold copyTag.
  destruct tag as [t|]; [|apply Hinv].
  destruct (ec2.Key t) as [key|]; [|apply Hinv].
  destruct (ec2.Value t) as [value|]; [|apply Hinv].
  simpl. destruct (decide (key = k')) as [->|Hne].
  - by rewrite !lookup_insert_eq.
  - rewrite !lookup_insert_ne by done. apply Hinv.
Qed.

Lemma instanceTagMaps_desired (instanceTags : list (option ec2.Tag))
    (ngtags : gmap string string) k :
  (instanceTagMaps instanceTags ngtags).2 !! k
  = match ngtags !! k with
    | Some v => Some v
    | None => (instanceTagMaps instanceTags ngtags).1 !! k
    end.
Proof.
  unfold instanceTagMaps. cbn [fst snd]. rewrite overlay_lookup.
  destruct (ngtags !! k); [done|].
  rewrite (copyTag_loop_desired ∅); [|by intros k'; rewrite !lookup_empty].
  rewrite lookup_empty. by destruct (_ !! k).
Qed.

Lemma volumeTagMaps_desired clusterName nodegroupName (volumeTags : list (option ec2.Tag))
    (ngtags : gmap string string) k :
  (volumeTagMaps clusterName nodegroupName volumeTags ngtags).2 !! k
  = match ngtags !! k with
    | Some v => Some v
    | None =>
        match (volumeTagMaps clusterName nodegroupName volumeTags ngtags).1 !! k with
        | Some v => Some v
        | None => identityTags clusterName nodegroupName !! k
        end
    end.
Proof.
  unfold volumeTagMaps. cbn [fst snd]. rewrite overlay_lookup.
  destruct (ngtags !! k); [done|].
  apply (copyTag_loop_desired (identityTags clusterName nodegroupName)).
  intros k'. cbn [fst snd]. by rewrite lookup_empty.
Qed.

End TagMaps.

(** X5. [tagDescriptionsToMap] reads a list of tag descriptions that all
    have a key and a value into the map of their pairs, a later description
    replacing an earlier one with the same key, and touches neither the
    clients nor the store; on a list with a nil description, a nil key or a
    nil value it panics. *)
Theorem tagDescriptionsToMap_result (C : Cloud) (st : State C) :
  (forall pairs : list (string * string),
      tagDescriptionsToMap C (describedAs <$> pairs) st
      = (Done (list_to_map (reverse pairs)), st))
  /\ (forall input,
        ~ Forall wellFormedDescription input ->
        tagDescriptionsToMap C input st = (Panicked, st)).
Proof.
  split.
  - intros pairs. unfold tagDescriptionsToMap. rewrite tagDescriptions_loop.
    by rewrite insert_loop_list_to_map, (right_id_L ∅ (∪)).
  - intros input Hbad. by apply tagDescriptions_loop_panics.
Qed.

(** X6. In the desired tags built for an instance or a volume, a tag of the
    nodegroup wins over a tag of the resource with the same key, and a tag
    of the resource is otherwise kept; for a volume, the cluster-name and
    nodegroup-name tags are added only under a key that neither the
    nodegroup tags nor the volume define, so a volume that already has one
    of them keeps its value. *)
Theorem desired_tags_priority (clusterName nodegroupName : string)
    (resourceTags : list (option ec2.Tag)) (ngtags : gmap string string) (k : string) :
  (instanceTagMaps resourceTags ngtags).2 !! k
  = match ngtags !! k with
    | Some v => Some v
    | None => (instanceTagMaps resourceTags ngtags).1 !! k
    end
  /\ (volumeTagMaps clusterName nodegroupName resourceTags ngtags).2 !! k
     = match ngtags !! k with
       | Some v => Some v
       | None =>
           match (volumeTagMaps clusterName nodegroupName resourceTags ngtags).1 !! k with
           | Some v => Some v
           | None =>
               if decide (k = eksNodeGroupNameTag) then Some nodegroupName
               else if decide (k = eksClusterNameTag) then Some clusterName
               else None
           end
       end.
Proof.
  split; [apply instanceTagMaps_desired|].
  rewrite volumeTagMaps_desired. destruct (ngtags !! k); [done|].
  destruct (_ !! k); [done|]. unfold identityTags.
  destruct (decide (k = eksNodeGroupNameTag)) as [->|Hn]; [by rewrite lookup_insert_eq|].
  rewrite lookup_insert_ne by done.
  destruct (decide (k = eksClusterNameTag)) as [->|Hc]; [by rewrite lookup_insert_eq|].
  by rewrite lookup_insert_ne, lookup_empty.
Qed.


(** X8. An instance that already holds every tag of the nodegroup gets no
    call: [updateECSTags] on the two maps built for it returns without
    touching the clients or the store. *)
Theorem instance_with_nodegroup_tags_is_left_alone (C : Cloud)
    (instanceId : option string) (instanceTags : list (option ec2.Tag))
    (ngtags : gmap string string) (st : State C) :
  ngtags ⊆ (instanceTagMaps instanceTags ngtags).1 ->
  updateECSTags C [instanceId] (instanceTagMaps instanceTags ngtags).1
    (instanceTagMaps instanceTags ngtags).2 st
  = (Done tt, st).
Proof.
  intros Hsub.
  assert ((instanceTagMaps instanceTags ngtags).2 = (instanceTagMaps instanceTags ngtags).1)
    as Heq.
  { apply map_eq. intros k. rewrite instanceTagMaps_desired.
    destruct (ngtags !! k) as [nv|] eqn:En; [|done].
    symmetry. by eapply lookup_weaken. }
  rewrite Heq. unfold updateECSTags. by rewrite getTagUpdates_same.
Qed.

Lemma instance_with_nodegroup_tags_is_left_alone_witness :
  updateECSTags emptyCloud [Some "i-1"]
    (instanceTagMaps [Some {| ec2.Key := Some "team"; ec2.Value := Some "a" |};
                      Some {| ec2.Key := Some "Name"; ec2.Value := Some "node" |}]
       {["team" := "a"]}).1
    (instanceTagMaps [Some {| ec2.Key := Some "team"; ec2.Value := Some "a" |};
                      Some {| ec2.Key := Some "Name"; ec2.Value := Some "node" |}]
       {["team" := "a"]}).2
    (start emptyCloud tt)
  = (Done tt, start emptyCloud tt).
Proof.
  apply (instance_with_nodegroup_tags_is_left_alone emptyCloud (Some "i-1")).
  apply map_subseteq_spec. intros k v Hkv.
  apply lookup_singleton_Some in Hkv as [<- <-]. by vm_compute.
Defined.

(** X9. [collectVolumeIds] keeps, in order, the volume id of every block
    device mapping that has one and drops the mappings that are nil, have no
    EBS device or have no volume id: the list it passes on has no nil
    entry. *)
Theorem collectVolumeIds_result (mappings : list (option ec2.InstanceBlockDeviceMapping)) :
  collectVolumeIds mappings = Some <$> omap volumeIdOf mappings
  /\ Forall is_Some (collectVolumeIds mappings).
Proof.
  assert (forall acc,
             foldl (fun volumeIds b =>
                      match b with
                      | Some b =>
                          match ec2.Ebs b with
                          | Some ebs =>
                              match ec2.Ebs_VolumeId ebs with
                              | Some id => volumeIds ++ [Some id]
                              | None => volumeIds
                              end
                          | None => volumeIds
                          end
                      | None => volumeIds
                      end) acc mappings
             = acc ++ (Some <$> omap volumeIdOf mappings)) as Hloop.
  { induction mappings as [|b l IH]; intros acc; simpl; [by rewrite app_nil_r|].
    rewrite IH. destruct b as [[[[[id|]]|]]|]; simpl; try done.
    by rewrite <- app_assoc. }
  assert (collectVolumeIds mappings = Some <$> omap volumeIdOf mappings) as Heq.
  { unfold collectVolumeIds. by rewrite Hloop. }
  split; [done|]. rewrite Heq. apply Forall_fmap, Forall_forall. by eauto.
Qed.

(** ** Replies of one page *)

Section OnePage.

Context {C : Cloud}.
Variable ngTags : string -> gmap string string -> gmap string string.

Lemma endsWithinFuel_sequential : sequential endsWithinFuel.
Proof. split; [done|]. by intros c1 c2 e _ H. Qed.

Lemma updateECSTags_endsWithinFuel resources (existingTags desiredTags : gmap string string) :
  triple (C := C) (updateECSTags C resources existingTags desiredTags)
    endsWithinFuel (fun _ => True).
Proof.
  pose proof endsWithinFuel_sequential as HP.
  assert (endsWithinFuel [] Returned) as Hnil by done.
  unfold updateECSTags.
  apply (triple_bind _ _ _ (fun _ => True)); [done| |].
  - case_decide; [|by apply triple_ret].
    eapply triple_bind; [done|by apply triple_createTagsEntries|]. intros tags _.
    eapply triple_bind; [done|by apply triple_readHeap|]. intros h _.
    apply (triple_call _ _ _ (fun err => err)); [done|done|done|].
    intros _. by apply triple_ret.
  - intros _ _. case_decide; [|by apply triple_ret].
    eapply triple_bind; [done|by apply triple_deleteTagsEntries|]. intros tags _.
    eapply triple_bind; [done|by apply triple_readHeap|]. intros h _.
    apply (triple_call _ _ _ (fun err => err)); [done|done|done|].
    intros _. by apply triple_ret.
Qed.

Lemma reconcileEBSVolumeTags_endsWithinFuel scope fuel volumeIds ng :
  (forall w input output,
      (ec2DescribeVolumes C w input).1 = Success output ->
      ec2.DescribeVolumes_NextToken output = None) ->
  triple (C := C) (reconcileEBSVolumeTags C ngTags scope (S fuel) volumeIds ng)
    endsWithinFuel (fun _ => True).
Proof.
  intros Hone. pose proof endsWithinFuel_sequential as HP.
  assert (endsWithinFuel [] Returned) as Hnil by done.
  assert (endsWithinFuel [] Panics) as Hpanic by done.
  unfold reconcileEBSVolumeTags.
  apply (triple_call_gen _ _ _ _ _ endsWithinFuel); [done| |done].
  intros output [w Hw]. cbn [volumePages]. rewrite (Hone _ _ _ Hw).
  apply (triple_bind _ _ _ (fun _ => True)); [done| |intros _ _; by apply triple_ret].
  apply triple_forM_; [done|]. intros volume _.
  eapply triple_bind; [done|by apply triple_deref|]. intros name _.
  eapply triple_bind; [done|by apply triple_deref|]. intros vol _.
  apply updateECSTags_endsWithinFuel.
Qed.

Lemma reconcileInstanceTags_endsWithinFuel scope fuel ng :
  (forall w input output,
      (ec2DescribeInstances C w input).1 = Success output ->
      ec2.DescribeInstances_NextToken output = None) ->
  (forall w input output,
      (ec2DescribeVolumes C w input).1 = Success output ->
      ec2.DescribeVolumes_NextToken output = None) ->
  triple (C := C) (reconcileInstanceTags C ngTags scope (S fuel) ng)
    endsWithinFuel (fun _ => True).
Proof.
  intros Hone Hvol. pose proof endsWithinFuel_sequential as HP.
  assert (endsWithinFuel [] Returned) as Hnil by done.
  assert (endsWithinFuel [] Panics) as Hpanic by done.
  unfold reconcileInstanceTags.
  eapply triple_bind; [done|by apply triple_deref|]. intros resources _.
  eapply triple_bind; [done| |].
  { apply (triple_foldM _ _ _ _ (fun _ => True)); [done|done|]. intros names asg _ _.
    eapply triple_bind; [done|by apply triple_deref|]. intros a _.
    by apply triple_ret. }
  intros names _.
  apply (triple_call _ _ _
           (fun err => Wrap err "failed to describe AutoScalingGroup for nodegroup"));
    [done|done|done|].
  intros groups.
  eapply triple_bind; [done| |].
  { apply (triple_foldM _ _ _ _ (fun _ => True)); [done|done|]. intros ids group _ _.
    eapply triple_bind; [done|by apply triple_deref|]. intros g _.
    apply (triple_foldM _ _ _ _ (fun _ => True)); [done|done|]. intros ids' instance _ _.
    eapply triple_bind; [done|by apply triple_deref|]. intros i _.
    by apply triple_ret. }
  intros ids _.
  apply (triple_call_gen _ _ _ _ _ endsWithinFuel); [done| |done].
  intros output [w Hw]. cbn [instancePages]. rewrite (Hone _ _ _ Hw).
  apply (triple_bind _ _ _ (fun _ => True)); [done| |intros _ _; by apply triple_ret].
  apply triple_forM_; [done|]. intros reservation _.
  eapply triple_bind; [done|by apply triple_deref|]. intros res _.
  apply triple_forM_; [done|]. intros instance _.
  eapply triple_bind; [done|by apply triple_deref|]. intros inst _.
  apply (triple_bind _ _ _ (fun _ => True)); [done|apply updateECSTags_endsWithinFuel|].
  intros _ _. by apply reconcileEBSVolumeTags_endsWithinFuel.
Qed.

End OnePage.

(** X10. When the replies to [DescribeInstances] and [DescribeVolumes]
    carry no next token, the two loops turn once: with fuel for a single
    turn, [reconcileInstanceTags] and [reconcileEBSVolumeTags] end (with a
    value, an error or a panic), whatever the clients otherwise answer. *)
Theorem one_page_replies_end_the_loops (C : Cloud)
    (ngTags : string -> gmap string string -> gmap string string)
    (scope : Scope) (fuel : nat) (ng : eks.Nodegroup) :
  (forall w input output,
      (ec2DescribeInstances C w input).1 = Success output ->
      ec2.DescribeInstances_NextToken output = None) ->
  (forall w input output,
      (ec2DescribeVolumes C w input).1 = Success output ->
      ec2.DescribeVolumes_NextToken output = None) ->
  forall st : State C,
    (reconcileInstanceTags C ngTags scope (S fuel) ng st).1 <> OutOfFuel
    /\ (forall volumeIds,
          (reconcileEBSVolumeTags C ngTags scope (S fuel) volumeIds ng st).1 <> OutOfFuel).
Proof.
  intros Hone Hvol st. split.
  - destruct (reconcileInstanceTags_endsWithinFuel ngTags scope fuel ng Hone Hvol st)
      as (calls & _ & Hend & _).
    intros Hspin. rewrite Hspin in Hend. by apply Hend.
  - intros volumeIds.
    destruct (reconcileEBSVolumeTags_endsWithinFuel ngTags scope fuel volumeIds ng Hvol st)
      as (calls & _ & Hend & _).
    intros Hspin. rewrite Hspin in Hend. by apply Hend.
Qed.

Lemma one_page_replies_end_the_loops_witness :
  (reconcileInstanceTags cascadeCloud sampleNgTags sampleScope 1
     (nodegroupOf ["asg-1"; "asg-2"]) (start cascadeCloud tt)).1 <> OutOfFuel
  /\ (forall volumeIds,
        (reconcileEBSVolumeTags cascadeCloud sampleNgTags sampleScope 1 volumeIds
           (nodegroupOf ["asg-1"; "asg-2"]) (start cascadeCloud tt)).1 <> OutOfFuel).
Proof.
  apply (one_page_replies_end_the_loops cascadeCloud sampleNgTags sampleScope 0
           (nodegroupOf ["asg-1"; "asg-2"])).
  - intros w input output. simpl. by intros [= <-].
  - intros w input output. simpl.
    destruct (ec2.VolumeIds input) as [|[v|] [|? ?]]; by intros [= <-].
Defined.

(** ** What the EC2 requests carry *)

Section EC2Requests.

Context {C : Cloud}.

Lemma bind_Done {A B} (m : M C A) (k : A -> M C B) st a st' :
  m st = (Done a, st') -> bind m k st = k a st'.
Proof. intros H. unfold bind. by rewrite H. Qed.

Lemma lastVisited_elem {A} (kv : A) (l : list A) :
  l <> [] -> lastVisited kv l ∈ l.
Proof.
  unfold lastVisited. revert kv. induction l as [|x l IH]; intros kv Hne; [done|].
  simpl. destruct l as [|y l].
  - simpl. apply elem_of_cons. by left.
  - apply elem_of_cons. right. by apply IH.
Qed.

Lemma createTags_loop (l : list (string * string)) :
  forall (acc : list (option ec2.TagPtr)) (h0 : list string) (a b : string) (st : State C),
    st_heap st = h0 ++ [a; b] ->
    foldM (fun tags kv =>
             bind (store (length h0) kv.1) (fun _ =>
             bind (store (S (length h0)) kv.2) (fun _ =>
             ret (tags ++ [Some {| ec2.KeyPtr := Some (length h0);
                                   ec2.ValuePtr := Some (S (length h0)) |}]))))
          acc l st
    = (Done (acc ++ replicate (length l)
                      (Some {| ec2.KeyPtr := Some (length h0);
                               ec2.ValuePtr := Some (S (length h0)) |})),
       {| st_world := st_world st;
          st_heap := h0 ++ [(lastVisited (a, b) l).1; (lastVisited (a, b) l).2];
          st_log := st_log st |}).
Proof.
  induction l as [|[k v] l IH]; intros acc h0 a b st Hheap.
  - simpl. rewrite app_nil_r, <- Hheap. by destruct st.
  - cbn [foldM]. unfold bind at 1. unfold bind at 1. unfold bind at 1. cbn [store ret fst snd].
    rewrite (IH _ h0 k v).
    + cbn [st_world st_log length replicate]. f_equal.
      by rewrite <- app_assoc.
    + cbn [st_heap]. rewrite Hheap.
      rewrite insert_app_r_alt by lia. rewrite Nat.sub_diag. cbn [list_insert insert].
      rewrite insert_app_r_alt by lia.
      replace (S (length h0) - length h0) with 1 by lia. done.
Qed.

Lemma createTagsEntries_run (newTags : gmap string string) (st : State C) :
  createTagsEntries C newTags st
  = (Done (replicate (size newTags)
             (Some {| ec2.KeyPtr := Some (length (st_heap st));
                      ec2.ValuePtr := Some (S (length (st_heap st))) |})),
     {| st_world := st_world st;
        st_heap := st_heap st ++ [(lastVisited ("", "") (map_to_list newTags)).1;
                                  (lastVisited ("", "") (map_to_list newTags)).2];
        st_log := st_log st |}).
Proof.
  unfold createTagsEntries.
  unfold bind at 1. cbn [alloc]. unfold bind at 1. cbn [alloc st_heap].
  rewrite length_app. cbn [length]. rewrite Nat.add_1_r.
  rewrite (createTags_loop _ _ (st_heap st) "" "").
  - cbn [st_world st_log app]. by rewrite length_map_to_list.
  - cbn [st_heap]. by rewrite <- app_assoc.
Qed.

Lemma resolve_shared_entry (h : list string) (k v : string) :
  resolveEC2Tag (h ++ [k; v])
    (Some {| ec2.KeyPtr := Some (length h); ec2.ValuePtr := Some (S (length h)) |})
  = Some {| ec2.Key := Some k; ec2.Value := Some v |}.
Proof.
  simpl. f_equal. f_equal.
  - rewrite lookup_app_r by lia. by rewrite Nat.sub_diag.
  - rewrite lookup_app_r by lia. by replace (S (length h) - length h) with 1 by lia.
Qed.

Lemma triple_any {A} (m : M C A) :
  triple m (fun _ _ => True) (fun _ => True) ->
  forall st, exists calls, st_log (m st).2 = st_log st ++ calls.
Proof. intros Hm st. destruct (Hm st) as (calls & Hlog & _). by exists calls. Qed.

End EC2Requests.

(** X11. Whenever there are tags to write, the first call of
    [updateECSTags] is a [CreateTags] on the given resources whose request
    has one entry for each tag to write, and all these entries read the same
    pair of the tags to write, the one the loop visited last. *)
Theorem updateECSTags_CreateTags_request (C : Cloud) (resources : list (option string))
    (existingTags desiredTags : gmap string string) (st : State C) :
  0 < size (Differ.getTagUpdates existingTags desiredTags).2 ->
  exists k v o rest,
    (Differ.getTagUpdates existingTags desiredTags).2 !! k = Some v
    /\ st_log (updateECSTags C resources existingTags desiredTags st).2
       = st_log st
         ++ (CreateTags
               {| ec2.CreateTags_Resources := resources;
                  ec2.CreateTags_Tags :=
                    replicate (size (Differ.getTagUpdates existingTags desiredTags).2)
                      (Some {| ec2.Key := Some k; ec2.Value := Some v |}) |}, o)
            :: rest.
Proof.
  intros Hsize.
  set (newTags := (Differ.getTagUpdates existingTags desiredTags).2) in *.
  set (kv := lastVisited ("", "") (map_to_list newTags)).
  assert (newTags !! kv.1 = Some kv.2) as Hkv.
  { apply elem_of_map_to_list. rewrite <- surjective_pairing. apply lastVisited_elem.
    intros Hnil. apply (f_equal length) in Hnil. rewrite length_map_to_list in Hnil.
    simpl in Hnil. lia. }
  assert (forall st1 : State C, exists calls,
             st_log ((if decide (0 < length (Differ.getTagUpdates existingTags desiredTags).1)
                      then bind (deleteTagsEntries C (Differ.getTagUpdates existingTags
                                                        desiredTags).1)
                             (fun tags => bind readHeap (fun h =>
                                bind (invoke (ec2DeleteTags C) DeleteTags
                                        {| ec2.DeleteTags_Resources := resources;
                                           ec2.DeleteTags_Tags := resolveEC2Tag h <$> tags |})
                                  (fun r => match r with
                                            | Success _ => ret tt
                                            | Failure err => fail err
                                            end)))
                      else ret tt) st1).2 = st_log st1 ++ calls) as Hrest.
  { apply triple_any.
    assert (sequential (fun _ _ => True)) as HP by done.
    case_decide; [|by apply triple_ret].
    eapply triple_bind; [done|by apply triple_deleteTagsEntries|]. intros tags _.
    eapply triple_bind; [done|by apply triple_readHeap|]. intros h _.
    apply (triple_call _ _ _ (fun err => err)); [done|done|done|].
    intros _. by apply triple_ret. }
  exists kv.1, kv.2. unfold updateECSTags. fold newTags.
  rewrite decide_True by done.
  unfold bind at 1. unfold bind at 1. rewrite createTagsEntries_run.
  unfold bind at 1. cbn [readHeap st_heap]. unfold bind at 1. cbn [invoke st_world st_heap st_log].
  rewrite fmap_replicate, resolve_shared_entry. fold kv.
  match goal with
  | |- context [ec2CreateTags C ?w ?i] => destruct (ec2CreateTags C w i) as [[[]|err] w']
  end; cbn [fst snd replyError ret fail].
  - match goal with
    | |- context [(if decide _ then _ else _) ?s] => destruct (Hrest s) as (calls & Hcalls)
    end.
    exists None, calls. split; [done|].
    rewrite Hcalls. cbn [st_log]. by rewrite <- app_assoc.
  - exists (Some err), []. split; [done|]. done.
Qed.

Lemma updateECSTags_CreateTags_request_witness :
  exists k v o rest,
    (Differ.getTagUpdates ∅ (<["a" := "1"]> (<["b" := "2"]> ∅))).2 !! k = Some v
    /\ st_log (updateECSTags emptyCloud [Some "i-1"] ∅ (<["a" := "1"]> (<["b" := "2"]> ∅))
                 (start emptyCloud tt)).2
       = st_log (start emptyCloud tt)
         ++ (CreateTags
               {| ec2.CreateTags_Resources := [Some "i-1"];
                  ec2.CreateTags_Tags :=
                    replicate (size (Differ.getTagUpdates ∅
                                       (<["a" := "1"]> (<["b" := "2"]> ∅))).2)
                      (Some {| ec2.Key := Some k; ec2.Value := Some v |}) |}, o)
            :: rest.
Proof.
  apply (updateECSTags_CreateTags_request emptyCloud [Some "i-1"] ∅
           (<["a" := "1"]> (<["b" := "2"]> ∅)) (start emptyCloud tt)).
  vm_compute. lia.
Defined.

(** ** Requests built entry by entry *)

Section BuiltRequests.

Context {C : Cloud}.

(** A request built by a loop, read through the store and sent. *)
Lemma triple_built_call {T I O B} (build : M C T) (mkInput : list string -> T -> I)
    (op : world C -> I -> reply O * world C) (mk : I -> Call) (f : error -> error)
    (k : O -> M C B) (input : I) P (R : B -> Prop) :
  (forall st, exists t st',
      build st = (Done t, st') /\ mkInput (st_heap st') t = input
      /\ st_world st' = st_world st /\ st_log st' = st_log st) ->
  sequential P ->
  P [(mk input, None)] Returned ->
  (forall err, P [(mk input, Some err)] (Errored (f err))) ->
  (forall o, triple (k o) P R) ->
  triple (bind build (fun t =>
          bind readHeap (fun h =>
          bind (invoke op mk (mkInput h t))
            (fun r => match r with
                      | Success o => k o
                      | Failure err => fail (f err)
                      end)))) P R.
Proof.
  intros Hbuild HP Hok Herr Hk st.
  destruct (Hbuild st) as (t & st' & Hrun & Hin & Hw & Hl).
  rewrite (bind_Done _ _ _ _ _ Hrun).
  change (bind readHeap ?K st') with (K (st_heap st') st'). cbv beta. rewrite Hin.
  destruct (triple_call op mk input f k P R HP Hok Herr Hk st') as (calls & Hlog & Hp & Hr).
  exists calls. rewrite Hlog, Hl. eauto.
Qed.

Lemma deleteTags_loop (l : list string) :
  forall (j : nat) (h0 : list string) (a : string) (st : State C),
    st_heap st = h0 ++ [a] ->
    foldM (fun tags ik =>
             bind (store (length h0) ik.2) (fun _ =>
             ret (<[ik.1 := Some {| ec2.KeyPtr := Some (length h0); ec2.ValuePtr := None |}]>
                    tags)))
          (replicate j (Some {| ec2.KeyPtr := Some (length h0); ec2.ValuePtr := None |})
           ++ replicate (length l) None)
          (imap (fun i x => (j + i, x)) l) st
    = (Done (replicate (j + length l)
               (Some {| ec2.KeyPtr := Some (length h0); ec2.ValuePtr := None |})),
       {| st_world := st_world st;
          st_heap := h0 ++ [lastVisited a l];
          st_log := st_log st |}).
Proof.
  induction l as [|x l IH]; intros j h0 a st Hheap.
  - simpl. rewrite app_nil_r, Nat.add_0_r, <- Hheap. by destruct st.
  - cbn [imap foldM length]. unfold bind at 1. unfold bind at 1. cbn [store ret fst snd].
    rewrite Nat.add_0_r.
    rewrite insert_app_r_alt by (rewrite length_replicate; lia).
    rewrite length_replicate, Nat.sub_diag. cbn [replicate list_insert insert].
    rewrite (imap_ext _ (fun i x => (S j + i, x))) by (intros; simpl; f_equal; lia).
    replace (replicate j (Some {| ec2.KeyPtr := Some (length h0); ec2.ValuePtr := None |})
             ++ Some {| ec2.KeyPtr := Some (length h0); ec2.ValuePtr := None |}
                :: replicate (length l) None)
      with (replicate (S j) (Some {| ec2.KeyPtr := Some (length h0); ec2.ValuePtr := None |})
            ++ replicate (length l) None)
      by (rewrite replicate_S_end, <- app_assoc; done).
    rewrite (IH (S j) h0 x).
    + replace (j + S (length l)) with (S j + length l) by lia. done.
    + cbn [st_heap]. rewrite Hheap.
      rewrite insert_app_r_alt by lia. by rewrite Nat.sub_diag.
Qed.

Lemma deleteTagsEntries_run (untagKeys : list string) (st : State C) :
  deleteTagsEntries C untagKeys st
  = (Done (replicate (length untagKeys)
             (Some {| ec2.KeyPtr := Some (length (st_heap st)); ec2.ValuePtr := None |})),
     {| st_world := st_world st;
        st_heap := st_heap st ++ [lastVisited "" untagKeys];
        st_log := st_log st |}).
Proof.
  unfold deleteTagsEntries. unfold bind at 1. cbn [alloc].
  rewrite (deleteTags_loop untagKeys 0 (st_heap st) ""); done.
Qed.

Lemma deleteRequestsShareKey_sequential untagKeys :
  sequential (deleteRequestsShareKey untagKeys).
Proof.
  split; [by apply Forall_nil|].
  intros c1 c2 e H1 H2. by apply Forall_app.
Qed.

Lemma updateECSTags_deleteRequestsShareKey resources
    (existingTags desiredTags : gmap string string) :
  triple (C := C) (updateECSTags C resources existingTags desiredTags)
    (deleteRequestsShareKey (Differ.getTagUpdates existingTags desiredTags).1)
    (fun _ => True).
Proof.
  set (untagKeys := (Differ.getTagUpdates existingTags desiredTags).1).
  pose proof (deleteRequestsShareKey_sequential untagKeys) as HP.
  assert (deleteRequestsShareKey untagKeys [] Returned) as Hnil by apply HP.
  unfold updateECSTags. fold untagKeys.
  apply (triple_bind _ _ _ (fun _ => True)); [done| |].
  - case_decide; [|by apply triple_ret].
    eapply triple_bind; [done|by apply triple_createTagsEntries|]. intros tags _.
    eapply triple_bind; [done|by apply triple_readHeap|]. intros h _.
    apply (triple_call _ _ _ (fun err => err)); [done| | |].
    + apply Forall_singleton. by intros input.
    + intros err. apply Forall_singleton. by intros input.
    + intros _. by apply triple_ret.
  - intros _ _. case_decide as Hlen; [|by apply triple_ret].
    assert (forall o,
               deleteRequestsShareKey untagKeys
                 [(DeleteTags
                     {| ec2.DeleteTags_Resources := resources;
                        ec2.DeleteTags_Tags :=
                          replicate (length untagKeys)
                            (Some {| ec2.Key := Some (lastVisited "" untagKeys);
                                     ec2.Value := None |}) |}, o)] Returned) as Hreq.
    { intros o. apply Forall_singleton. intros input [= <-].
      exists (lastVisited "" untagKeys). split; [|done].
      apply lastVisited_elem. intros Hempty. rewrite Hempty in Hlen. simpl in Hlen. lia. }
    apply (triple_built_call (deleteTagsEntries C untagKeys)
             (fun h tags => {| ec2.DeleteTags_Resources := resources;
                               ec2.DeleteTags_Tags := resolveEC2Tag h <$> tags |})
             _ _ (fun err => err) _
             {| ec2.DeleteTags_Resources := resources;
                ec2.DeleteTags_Tags :=
                  replicate (length untagKeys)
                    (Some {| ec2.Key := Some (lastVisited "" untagKeys);
                             ec2.Value := None |}) |}); [|done|apply Hreq| |].
    + intros st. eexists _, _. split; [apply deleteTagsEntries_run|].
      cbn [st_heap st_world st_log]. split; [|done].
      rewrite fmap_replicate. simpl. f_equal. f_equal. f_equal. f_equal.
      rewrite lookup_app_r by lia. by rewrite Nat.sub_diag.
    + intros err. apply (Hreq (Some err)).
    + intros _. by apply triple_ret.
Qed.

End BuiltRequests.

(** X12. Every [DeleteTags] request that [updateECSTags] sends has one
    entry for each key to remove, without value, and all its entries read
    the same key of the keys to remove, the one the loop visited last. *)
Theorem updateECSTags_DeleteTags_request (C : Cloud) (resources : list (option string))
    (existingTags desiredTags : gmap string string) (st : State C) :
  exists calls,
    st_log (updateECSTags C resources existingTags desiredTags st).2 = st_log st ++ calls
    /\ forall input o,
         (DeleteTags input, o) ∈ calls ->
         exists k,
           k ∈ (Differ.getTagUpdates existingTags desiredTags).1
           /\ ec2.DeleteTags_Tags input
              = replicate (length (Differ.getTagUpdates existingTags desiredTags).1)
                  (Some {| ec2.Key := Some k; ec2.Value := None |}).
Proof.
  destruct (updateECSTags_deleteRequestsShareKey resources existingTags desiredTags st)
    as (calls & Hlog & Hcalls & _).
  exists calls. split; [done|]. intros input o Hin.
  unfold deleteRequestsShareKey in Hcalls. rewrite Forall_forall in Hcalls.
  by apply (Hcalls _ Hin input).
Qed.

(** ** What the requests of [reconcileASGTags] carry *)

Section ASGRequests.

Context {C : Cloud}.
Variable ClusterAWSCloudProviderTagKey : string -> string.

Lemma delete_loop_resolved asg (l : list (string * string)) :
  forall (acc : list (option autoscaling.TagPtr)) (st : State C),
    Forall (validIn (st_heap st)) acc ->
    exists tags st',
      foldM (fun tags kv =>
               bind (alloc kv.1) (fun kCopy =>
               ret (tags ++ [Some {| autoscaling.KeyPtr := Some kCopy;
                                     autoscaling.PropagateAtLaunchPtr := None;
                                     autoscaling.ResourceIdPtr :=
                                       autoscaling.AutoScalingGroupName asg;
                                     autoscaling.ResourceTypePtr := Some "auto-scaling-group";
                                     autoscaling.ValuePtr := None |}])))
            acc l st = (Done tags, st')
      /\ resolveASGTag (st_heap st') <$> tags
         = (resolveASGTag (st_heap st) <$> acc) ++ (deleteEntryFor asg <$> l)
      /\ st_world st' = st_world st
      /\ st_log st' = st_log st.
Proof.
  induction l as [|[k v] l IH]; intros acc st Hacc.
  - exists acc, st. simpl. by rewrite app_nil_r.
  - simpl. unfold bind at 1. unfold bind at 1. simpl.
    match goal with
    | |- context [foldM ?f ?acc' l ?st1] =>
        destruct (IH acc' st1) as (tags & st' & Hrun & Hres & Hw & Hlog)
    end.
    { simpl. apply Forall_app. split.
      - eapply Forall_impl; [exact Hacc|]. intros t Ht. by apply validIn_app_l.
      - apply Forall_singleton. simpl.
        split; intros l' [= <-]; rewrite !length_app; simpl; lia. }
    exists tags, st'. split; [exact Hrun|]. split; [|by split].
    rewrite Hres. simpl. rewrite fmap_app, <- app_assoc. f_equal.
    + apply Forall_fmap_ext. eapply Forall_impl; [exact Hacc|]. intros t Ht.
      by apply resolveASGTag_app_l.
    + simpl. f_equal. unfold deleteEntryFor. simpl. f_equal. f_equal.
      rewrite lookup_app_r by lia. by rewrite Nat.sub_diag.
Qed.

Lemma deleteEntries_resolved asg (tagsToDelete : gmap string string) (st : State C) :
  exists tags st',
    deleteEntries C asg tagsToDelete st = (Done tags, st')
    /\ resolveASGTag (st_heap st') <$> tags = deleteEntryFor asg <$> map_to_list tagsToDelete
    /\ st_world st' = st_world st
    /\ st_log st' = st_log st.
Proof.
  destruct (delete_loop_resolved asg (map_to_list tagsToDelete) [] st)
    as (tags & st' & Hrun & Hres & Hw & Hlog); [by apply Forall_nil|].
  by exists tags, st'.
Qed.

Lemma soundASGRequests_sequential official additional :
  sequential (soundASGRequests official additional).
Proof.
  split; [by apply Forall_nil|].
  intros c1 c2 e H1 H2. by apply Forall_app.
Qed.

Lemma reconcileASGTags_soundASGRequests scope ng :
  triple (C := C) (reconcileASGTags C ClusterAWSCloudProviderTagKey scope ng)
    (soundASGRequests
       (ASGDiffer.officialASGTagsByEKS ClusterAWSCloudProviderTagKey (ClusterName scope))
       (AdditionalTags scope))
    (fun _ => True).
Proof.
  set (official := ASGDiffer.officialASGTagsByEKS ClusterAWSCloudProviderTagKey
                     (ClusterName scope)).
  set (P := soundASGRequests official (AdditionalTags scope)).
  pose proof (soundASGRequests_sequential official (AdditionalTags scope)) as HP.
  fold P in HP.
  assert (P [] Returned) as Hnil by apply HP.
  assert (P [] Panics) as Hpanic by apply HP.
  unfold reconcileASGTags.
  eapply triple_bind; [done|by apply triple_deref|]. intros name _.
  apply (triple_call _ _ _ (fun err => Wrap err "failed to describe ASG for nodegroup"));
    [done| | |].
  { apply Forall_singleton. by split; intros input. }
  { intros err. apply Forall_singleton. by split; intros input. }
  intros asg.
  eapply triple_bind; [done|by apply triple_tagDescriptionsToMap|]. intros currentTags _.
  set (upd := ASGDiffer.getASGTagUpdates ClusterAWSCloudProviderTagKey (ClusterName scope)
                currentTags (AdditionalTags scope)).
  apply (triple_bind _ _ _ (fun _ => True)); [done| |].
  - case_decide; [|by apply triple_ret].
    assert (forall o,
               P [(CreateOrUpdateTags
                     {| autoscaling.CreateOrUpdate_Tags := entryFor asg <$> map_to_list upd.2 |},
                   o)] Returned) as Hreq.
    { intros o. apply Forall_singleton. split; [|by intros input].
      intros input [= <-]. exists asg, upd.2. split; [done|].
      apply map_subseteq_spec. intros k v. unfold upd. rewrite tagsToAdd_lookup.
      destruct (AdditionalTags scope !! k); [|done]. by case_decide. }
    apply (triple_built_call (createOrUpdateEntries C asg upd.2)
             (fun h tags => {| autoscaling.CreateOrUpdate_Tags := resolveASGTag h <$> tags |})
             _ _ (fun err => Wrap err "failed to add tags to nodegroup's AutoScalingGroup") _
             {| autoscaling.CreateOrUpdate_Tags := entryFor asg <$> map_to_list upd.2 |});
      [|done|apply Hreq| |].
    + intros st. destruct (createOrUpdateEntries_resolved asg upd.2 st)
        as (tags & st' & Hrun & Hres & Hw & Hl).
      exists tags, st'. split; [done|]. by rewrite Hres.
    + intros err. apply (Hreq (Some err)).
    + intros _. by apply triple_ret.
  - intros _ _. case_decide; [|by apply triple_ret].
    assert (forall o,
               P [(ASGDeleteTags
                     {| autoscaling.Delete_Tags := deleteEntryFor asg <$> map_to_list upd.1 |},
                   o)] Returned) as Hreq.
    { intros o. apply Forall_singleton. split; [by intros input|].
      intros input [= <-]. exists asg, upd.1. split; [done|].
      intros k [v Hk]. unfold upd in Hk. rewrite tagsToDelete_lookup in Hk.
      destruct (currentTags !! k); [|done]. case_decide as Hd; [|done].
      destruct Hd as [Hadd Hoff]. split; [|done].
      intros Hin. apply isOfficialTag_true in Hin. unfold official in Hin. congruence. }
    apply (triple_built_call (deleteEntries C asg upd.1)
             (fun h tags => {| autoscaling.Delete_Tags := resolveASGTag h <$> tags |})
             _ _ (fun err => Wrap err "failed to delete tags to nodegroup's AutoScalingGroup") _
             {| autoscaling.Delete_Tags := deleteEntryFor asg <$> map_to_list upd.1 |});
      [|done|apply Hreq| |].
    + intros st. destruct (deleteEntries_resolved asg upd.1 st)
        as (tags & st' & Hrun & Hres & Hw & Hl).
      exists tags, st'. split; [done|]. by rewrite Hres.
    + intros err. apply (Hreq (Some err)).
    + intros _. by apply triple_ret.
Qed.

End ASGRequests.


(** X14. No [DeleteTags] request that [reconcileASGTags] sends names one of
    the five tag keys EKS manages on the group, nor a key that the
    additional tags of the scope define; every entry has a key and no
    value. *)
Theorem reconcileASGTags_DeleteTags_request (C : Cloud)
    (ClusterAWSCloudProviderTagKey : string -> string) (scope : Scope) (ng : eks.Nodegroup)
    (st : State C) :
  exists calls,
    st_log (reconcileASGTags C ClusterAWSCloudProviderTagKey scope ng st).2
    = st_log st ++ calls
    /\ forall input o,
         (ASGDeleteTags input, o) ∈ calls ->
         Forall (fun t =>
                   exists tag k,
                     t = Some tag /\ autoscaling.Key tag = Some k
                     /\ autoscaling.Value tag = None
                     /\ (k ∉ ASGDiffer.officialASGTagsByEKS ClusterAWSCloudProviderTagKey
                              (ClusterName scope))
                     /\ AdditionalTags scope !! k = None)
                (autoscaling.Delete_Tags input).
Proof.
  destruct (reconcileASGTags_soundASGRequests ClusterAWSCloudProviderTagKey scope ng st)
    as (calls & Hlog & Hcalls & _).
  exists calls. split; [done|]. intros input o Hin.
  unfold soundASGRequests in Hcalls. rewrite Forall_forall in Hcalls.
  destruct (Hcalls _ Hin) as [_ Hdel].
  destruct (Hdel input eq_refl) as (asg & m & -> & Hm).
  apply Forall_fmap, Forall_forall. intros [k v] Hkv. simpl.
  apply elem_of_map_to_list in Hkv.
  destruct (Hm k) as [Hoff Hadd]; [by eauto|].
  eexists _, k. split; [done|]. simpl. done.
Qed.

(** ** The cascade over any number of instances and volumes *)

Section GeneralCascade.

Context {C : Cloud}.
Variable ngTags : string -> gmap string string -> gmap string string.

Lemma triple_silent {A} (m : M C A) :
  (forall st, exists a, m st = (Done a, st)) -> triple m (yields []) (fun _ => True).
Proof.
  intros Hm st. destruct (Hm st) as [a Ha]. exists []. rewrite Ha. simpl.
  by rewrite app_nil_r.
Qed.

Lemma triple_forM_yields {A B} (h : A -> B) (l : list A) (f : B -> M C unit)
    (g : A -> list Brief) :
  (forall x, x ∈ l -> triple (f (h x)) (yields (g x)) (fun _ => True)) ->
  triple (forM_ (h <$> l) f) (yields (concat (g <$> l))) (fun _ => True).
Proof.
  induction l as [|x l IH]; intros Hf; simpl.
  - by apply triple_ret.
  - apply (triple_bind_yields _ _ _ _ (fun _ => True)).
    + apply Hf, elem_of_cons. by left.
    + intros _ _. apply IH. intros y Hy. apply Hf, elem_of_cons. by right.
Qed.

Lemma names_loop (asgs : list eks.AutoScalingGroup) (acc : list (option string))
    (st : State C) :
  foldM (fun names asg => bind (deref asg) (fun asg => ret (names ++ [eks.Name asg])))
        acc (Some <$> asgs) st
  = (Done (acc ++ (eks.Name <$> asgs)), st).
Proof.
  revert acc. induction asgs as [|a asgs IH]; intros acc; simpl.
  - by rewrite app_nil_r.
  - unfold bind at 1. simpl. rewrite IH. by rewrite <- app_assoc.
Qed.

Lemma instance_ids_loop (ids : list string) (acc : list (option string)) (st : State C) :
  foldM (fun ids instance =>
           bind (deref instance) (fun instance =>
           ret (ids ++ [autoscaling.InstanceId instance])))
        acc ((fun id => Some {| autoscaling.InstanceId := Some id |}) <$> ids) st
  = (Done (acc ++ (Some <$> ids)), st).
Proof.
  revert acc. induction ids as [|i ids IH]; intros acc; simpl.
  - by rewrite app_nil_r.
  - unfold bind at 1. simpl. rewrite IH. by rewrite <- app_assoc.
Qed.

Lemma group_ids_loop (groups : list (string * list string)) (acc : list (option string))
    (st : State C) :
  exists ids,
    foldM (fun ids group =>
             bind (deref group) (fun group =>
             foldM (fun ids instance =>
                      bind (deref instance) (fun instance =>
                      ret (ids ++ [autoscaling.InstanceId instance])))
                   ids (autoscaling.Instances group)))
          acc ((fun g => Some (groupOf g.1 g.2)) <$> groups) st
    = (Done ids, st).
Proof.
  revert acc. induction groups as [|[name members] groups IH]; intros acc.
  - by exists acc.
  - rewrite fmap_cons. cbn [foldM].
    destruct (IH (acc ++ (Some <$> members))) as [ids Hids]. exists ids.
    erewrite bind_Done; [exact Hids|].
    change (bind (deref (Some ?g)) ?k st) with (k g st). cbv beta.
    unfold groupOf. cbn [autoscaling.Instances fst snd]. apply instance_ids_loop.
Qed.

Lemma reconcileEBSVolumeTags_cascade scope fuel nodegroupName volumeIds volumesOf ng :
  eks.NodegroupName ng = Some nodegroupName ->
  (forall w input, (ec2CreateTags C w input).1 = Success tt) ->
  (forall w input,
      (ec2DescribeVolumes C w input).1
      = Success (onePageOfVolumes (volumesOf (ec2.VolumeIds input)))) ->
  triple (C := C) (reconcileEBSVolumeTags C ngTags scope (S fuel) volumeIds ng)
    (yields (BDescribeVolumes volumeIds
             :: concat (volumeCalls (ClusterName scope) nodegroupName
                          (ngTags (ClusterName scope) (AdditionalTags scope))
                        <$> volumesOf volumeIds)))
    (fun _ => True).
Proof.
  intros Hname Hcreate Hvolumes. unfold reconcileEBSVolumeTags.
  set (calls := concat (volumeCalls (ClusterName scope) nodegroupName
                          (ngTags (ClusterName scope) (AdditionalTags scope))
                        <$> volumesOf volumeIds)).
  eapply triple_yields_eq;
    [eapply (triple_call_yields _ _ _ (onePageOfVolumes (volumesOf volumeIds))
               (fun err => Wrap err "failed to describe Volumes") _ calls);
       [by intros w; rewrite Hvolumes|]
    |reflexivity].
  unfold onePageOfVolumes.
  cbn [volumePages ec2.Volumes ec2.DescribeVolumes_NextToken].
  eapply triple_yields_eq; [|apply app_nil_r].
  apply (triple_bind_yields _ _ calls [] (fun _ => True)); [|intros _ _; by apply triple_ret].
  apply triple_forM_yields. intros volume _.
  rewrite Hname. cbn [deref]. apply triple_bind_ret, triple_bind_ret.
  apply updateECSTags_yields; [done|apply volumeTagMaps_dom].
Qed.

Lemma concat_fmap_concat {A} (g : A -> list Brief) (ls : list (list A)) :
  concat ((fun l => concat (g <$> l)) <$> ls) = concat (g <$> concat ls).
Proof.
  induction ls as [|l ls IH]; [done|].
  rewrite fmap_cons. cbn [concat]. rewrite fmap_app, concat_app. by rewrite IH.
Qed.

Lemma reconcileInstanceTags_cascade scope fuel ng nodegroupName asgs groups reservations
    volumesOf :
  eks.NodegroupName ng = Some nodegroupName ->
  eks.Resources ng = Some {| eks.AutoScalingGroups := Some <$> asgs |} ->
  (forall w input, (ec2CreateTags C w input).1 = Success tt) ->
  (forall w input,
      (asgDescribeAutoScalingGroups C w input).1 = Success (groupsReply groups)) ->
  (forall w input,
      (ec2DescribeInstances C w input).1 = Success (reservationsReply reservations)) ->
  (forall w input,
      (ec2DescribeVolumes C w input).1
      = Success (onePageOfVolumes (volumesOf (ec2.VolumeIds input)))) ->
  triple (C := C) (reconcileInstanceTags C ngTags scope (S fuel) ng)
    (yields ([BDescribeAutoScalingGroups; BDescribeInstances]
             ++ concat (instanceCascade volumesOf (ClusterName scope) nodegroupName
                          (ngTags (ClusterName scope) (AdditionalTags scope))
                        <$> concat reservations)))
    (fun _ => True).
Proof.
  intros Hname Hres Hcreate Hgroups Hinstances Hvolumes.
  set (ngtags := ngTags (ClusterName scope) (AdditionalTags scope)).
  set (cascade := instanceCascade volumesOf (ClusterName scope) nodegroupName ngtags).
  unfold reconcileInstanceTags. rewrite Hres. cbn [deref].
  apply triple_bind_ret. cbn [eks.AutoScalingGroups].
  apply (triple_bind_yields _ _ [] _ (fun _ => True)).
  { apply triple_silent. intros st. eexists. apply names_loop. }
  intros names _.
  eapply triple_yields_eq;
    [eapply (triple_call_yields _ _ _ _ _ _
               (BDescribeInstances :: concat (cascade <$> concat reservations)));
       [by intros w; apply Hgroups|]
    |reflexivity].
  unfold groupsReply. cbn [autoscaling.AutoScalingGroups].
  apply (triple_bind_yields _ _ [] _ (fun _ => True)).
  { apply triple_silent. intros st. apply group_ids_loop. }
  intros ids _.
  eapply triple_yields_eq;
    [eapply (triple_call_yields _ _ _ _ _ _ (concat (cascade <$> concat reservations)));
       [by intros w; apply Hinstances|]
    |reflexivity].
  unfold reservationsReply.
  cbn [instancePages ec2.Reservations ec2.DescribeInstances_NextToken].
  eapply triple_yields_eq; [|apply app_nil_r].
  apply (triple_bind_yields _ _ _ [] (fun _ => True)); [|intros _ _; by apply triple_ret].
  eapply triple_yields_eq; [|apply concat_fmap_concat].
  apply triple_forM_yields. intros reservation _.
  cbn [deref]. apply triple_bind_ret. cbn [ec2.Instances].
  apply triple_forM_yields. intros instance _.
  cbn [deref]. apply triple_bind_ret.
  unfold cascade, instanceCascade.
  apply (triple_bind_yields _ _ _ _ (fun _ => True)).
  - apply updateECSTags_yields; [done|apply instanceTagMaps_dom].
  - intros _ _. by apply reconcileEBSVolumeTags_cascade.
Qed.

End GeneralCascade.

(** X15. [reconcileTags] on a nodegroup with any number of Auto Scaling
    Groups, instances and volumes, when every tag call succeeds and every
    describe call answers with a single page without nil entry: it returns,
    and its calls are, in order, the tag calls on the nodegroup, one
    [DescribeAutoScalingGroups], one [DescribeInstances], and for each
    instance of the reply in turn the [CreateTags] on the instance when
    there are tags to write on it, one [DescribeVolumes] for the volume ids
    of its block device mappings, and a [CreateTags] on each volume of that
    reply that has tags to write on it. *)
Theorem reconcileTags_cascade (C : Cloud)
    (ngTags : string -> gmap string string -> gmap string string)
    (scope : Scope) (fuel : nat) (arn : option string) (nodegroupName : string)
    (tags : gmap string (option string)) (asgs : list eks.AutoScalingGroup)
    (groups : list (string * list string)) (reservations : list (list ec2.Instance))
    (volumesOf : list (option string) -> list ec2.Volume) :
  let ng := {| eks.NodegroupArn := arn;
               eks.NodegroupName := Some nodegroupName;
               eks.Resources := Some {| eks.AutoScalingGroups := Some <$> asgs |};
               eks.Tags := tags |} in
  let ngtags := ngTags (ClusterName scope) (AdditionalTags scope) in
  (forall w input, (eksTagResource C w input).1 = Success tt) ->
  (forall w input, (eksUntagResource C w input).1 = Success tt) ->
  (forall w input, (ec2CreateTags C w input).1 = Success tt) ->
  (forall w input,
      (asgDescribeAutoScalingGroups C w input).1 = Success (groupsReply groups)) ->
  (forall w input,
      (ec2DescribeInstances C w input).1 = Success (reservationsReply reservations)) ->
  (forall w input,
      (ec2DescribeVolumes C w input).1
      = Success (onePageOfVolumes (volumesOf (ec2.VolumeIds input)))) ->
  forall st : State C, exists calls,
    (reconcileTags C ngTags scope (S fuel) ng st).1 = Done tt
    /\ st_log (reconcileTags C ngTags scope (S fuel) ng st).2 = st_log st ++ calls
    /\ briefs calls
       = nodegroupCalls arn (StringValueMap tags) ngtags
         ++ [BDescribeAutoScalingGroups; BDescribeInstances]
         ++ concat (instanceCascade volumesOf (ClusterName scope) nodegroupName ngtags
                    <$> concat reservations).
Proof.
  intros ng ngtags Htag Huntag Hcreate Hgroups Hinstances Hvolumes st.
  assert (triple (C := C) (reconcileTags C ngTags scope (S fuel) ng)
            (yields (nodegroupCalls arn (StringValueMap tags) ngtags
                     ++ [BDescribeAutoScalingGroups; BDescribeInstances]
                     ++ concat (instanceCascade volumesOf (ClusterName scope) nodegroupName
                                  ngtags <$> concat reservations)))
            (fun _ => True)) as Hrun.
  { unfold reconcileTags. apply (triple_bind_yields _ _ _ _ (fun _ => True)).
    - by apply updateTags_yields.
    - intros _ _.
      by apply (reconcileInstanceTags_cascade ngTags scope fuel ng nodegroupName asgs groups
                  reservations volumesOf). }
  destruct (Hrun st) as (calls & Hlog & [Hend Hcalls] & _).
  exists calls. split; [|by split].
  destruct (reconcileTags C ngTags scope (S fuel) ng st).1 as [[]| | |]; by try done.
Qed.

Lemma reconcileTags_cascade_witness :
  exists calls,
    (reconcileTags cascadeCloud sampleNgTags sampleScope 1
       (nodegroupOf ["asg-1"; "asg-2"]) (start cascadeCloud tt)).1 = Done tt
    /\ st_log (reconcileTags cascadeCloud sampleNgTags sampleScope 1
                 (nodegroupOf ["asg-1"; "asg-2"]) (start cascadeCloud tt)).2
       = st_log (start cascadeCloud tt) ++ calls
    /\ briefs calls
       = nodegroupCalls (Some "arn:ng") (StringValueMap ∅) (sampleNgTags "c1" {["team" := "a"]})
         ++ [BDescribeAutoScalingGroups; BDescribeInstances]
         ++ concat (instanceCascade cascadeVolumes "c1" "ng-1"
                      (sampleNgTags "c1" {["team" := "a"]})
                    <$> concat [[instanceOf "i-1" [] (Some "vol-1")];
                                [instanceOf "i-2" [] (Some "vol-2")]]).
Proof.
  apply (reconcileTags_cascade cascadeCloud sampleNgTags sampleScope 0
           (Some "arn:ng") "ng-1" ∅ [{| eks.Name := Some "asg-1" |}; {| eks.Name := Some "asg-2" |}]
           [("asg-1", ["i-1"]); ("asg-2", ["i-2"])]
           [[instanceOf "i-1" [] (Some "vol-1")]; [instanceOf "i-2" [] (Some "vol-2")]]
           cascadeVolumes).
  - reflexivity.
  - reflexivity.
  - reflexivity.
  - reflexivity.
  - reflexivity.
  - intros w input. simpl. by destruct (ec2.VolumeIds input) as [|[v|] [|? ?]].
Defined.

(** ** Tags the desired tags do not define *)

Section ForeignTags.

Context {C : Cloud}.

Lemma updateTags_untags arn (existingTags desiredTags : gmap string string) (st : State C) :
  (forall w input, (eksTagResource C w input).1 = Success tt) ->
  0 < length (Differ.getTagUpdates existingTags desiredTags).1 ->
  exists pre o,
    st_log (updateTags C arn existingTags desiredTags st).2
    = st_log st ++ pre
      ++ [(UntagResource
             {| eks.UntagResource_ResourceArn := arn;
                eks.TagKeys := (Differ.getTagUpdates existingTags desiredTags).1 |}, o)].
Proof.
  intros Htag Hlen. unfold updateTags. rewrite (decide_True _ _ Hlen).
  case_decide.
  - unfold bind at 1. unfold bind at 1. cbn [invoke fst snd].
    rewrite Htag. cbn [ret replyError].
    unfold bind at 1. cbn [invoke fst snd st_log].
    match goal with
    | |- context [eksUntagResource C ?w ?i] =>
        destruct (eksUntagResource C w i) as [[[]|err] w']
    end; cbn [fst snd replyError ret fail st_log];
      eexists [_], _; by rewrite <- app_assoc.
  - unfold bind at 1. cbn [ret]. unfold bind at 1. cbn [invoke fst snd st_log].
    match goal with
    | |- context [eksUntagResource C ?w ?i] =>
        destruct (eksUntagResource C w i) as [[[]|err] w']
    end; cbn [fst snd replyError ret fail st_log]; by eexists [], _.
Qed.

Lemma StringValueMap_lookup (src : gmap string (option string)) k :
  StringValueMap src !! k = match src !! k with Some (Some v) => Some v | _ => None end.
Proof.
  unfold StringValueMap. rewrite lookup_omap. by destruct (src !! k) as [[v|]|].
Qed.

End ForeignTags.

(** X16. Unlike the instance and volume reconcilers, [updateTags] removes
    the tags that the desired tags do not define: when the Fargate profile
    has a tag, with a value, under a key that the desired tags lack, and
    [TagResource] does not fail, [FargateService.reconcileTags] ends with an
    [UntagResource] call on the profile whose keys include that key.  A tag
    of the profile without value is not among the keys removed. *)
Theorem reconcileFargateTags_removes_foreign_tags (C : Cloud)
    (ngTags : string -> gmap string string -> gmap string string)
    (scope : Scope) (fp : eks.FargateProfile) (k v : string) (st : State C) :
  eks.FargateProfile_Tags fp !! k = Some (Some v) ->
  ngTags (ClusterName scope) (AdditionalTags scope) !! k = None ->
  (forall w input, (eksTagResource C w input).1 = Success tt) ->
  exists pre keys o,
    st_log (reconcileFargateTags C ngTags scope fp st).2
    = st_log st ++ pre
      ++ [(UntagResource {| eks.UntagResource_ResourceArn := eks.FargateProfileArn fp;
                            eks.TagKeys := keys |}, o)]
    /\ k ∈ keys
    /\ forall k', eks.FargateProfile_Tags fp !! k' = Some None -> k' ∉ keys.
Proof.
  intros Hk Hng Htag. unfold reconcileFargateTags.
  set (existing := StringValueMap (eks.FargateProfile_Tags fp)).
  set (desired := ngTags (ClusterName scope) (AdditionalTags scope)).
  assert (k ∈ (Differ.getTagUpdates existing desired).1) as Hin.
  { apply untagKeys_elem. split; [|done]. exists v. unfold existing.
    by rewrite StringValueMap_lookup, Hk. }
  destruct (updateTags_untags (eks.FargateProfileArn fp) existing desired st Htag)
    as (pre & o & Hlog).
  { destruct (Differ.getTagUpdates existing desired).1; [|simpl; lia].
    by apply not_elem_of_nil in Hin. }
  exists pre, (Differ.getTagUpdates existing desired).1, o.
  split; [done|]. split; [done|].
  intros k' Hnil Hk'. apply untagKeys_elem in Hk' as [[v' Hv'] _].
  unfold existing in Hv'. by rewrite StringValueMap_lookup, Hnil in Hv'.
Qed.

Lemma reconcileFargateTags_removes_foreign_tags_witness :
  exists pre keys o,
    st_log (reconcileFargateTags emptyCloud sampleNgTags sampleScope sampleProfile
              (start emptyCloud tt)).2
    = st_log (start emptyCloud tt) ++ pre
      ++ [(UntagResource {| eks.UntagResource_ResourceArn := eks.FargateProfileArn sampleProfile;
                            eks.TagKeys := keys |}, o)]
    /\ "stale" ∈ keys
    /\ forall k', eks.FargateProfile_Tags sampleProfile !! k' = Some None -> k' ∉ keys.
Proof.
  apply (reconcileFargateTags_removes_foreign_tags emptyCloud sampleNgTags sampleScope
           sampleProfile "stale" "y" (start emptyCloud tt)).
  - by vm_compute.
  - by vm_compute.
  - reflexivity.
Defined.

(** ** Pages of volumes, and a nodegroup without resources *)

(** X17. Whenever the reply to a [DescribeVolumes] request without token
    carries a next token, [reconcileEBSVolumeTags] asks for no other page
    (it makes at most one [DescribeVolumes] call) and, however long it runs,
    does not return normally: it goes round the first page until a call
    fails. *)
Theorem reconcileEBSVolumeTags_first_page_only (C : Cloud)
    (ngTags : string -> gmap string string -> gmap string string)
    (scope : Scope) (volumeIds : list (option string)) (ng : eks.Nodegroup) :
  (forall w input output,
      ec2.DescribeVolumesInput_NextToken input = None ->
      (ec2DescribeVolumes C w input).1 = Success output ->
      ec2.DescribeVolumes_NextToken output <> None) ->
  forall (fuel : nat) (st : State C), exists calls,
    st_log (reconcileEBSVolumeTags C ngTags scope fuel volumeIds ng st).2 = st_log st ++ calls
    /\ length (List.filter describesVolumes calls) <= 1
    /\ (reconcileEBSVolumeTags C ngTags scope fuel volumeIds ng st).1 <> Done tt.
Proof.
  intros Hpaged fuel st.
  destruct (reconcileEBSVolumeTags_stuck ngTags scope fuel volumeIds ng Hpaged st)
    as (calls & Hlog & [Hcount Hend] & _).
  exists calls. split; [done|]. split; [done|].
  intros Hdone. rewrite Hdone in Hend. by apply Hend.
Qed.

Lemma reconcileEBSVolumeTags_first_page_only_witness :
  exists calls,
    st_log (reconcileEBSVolumeTags pagedVolumesCloud sampleNgTags sampleScope 3
              [Some "vol-1"] (nodegroupOf ["asg-1"]) (start pagedVolumesCloud tt)).2
    = st_log (start pagedVolumesCloud tt) ++ calls
    /\ length (List.filter describesVolumes calls) <= 1
    /\ (reconcileEBSVolumeTags pagedVolumesCloud sampleNgTags sampleScope 3
          [Some "vol-1"] (nodegroupOf ["asg-1"]) (start pagedVolumesCloud tt)).1 <> Done tt.
Proof.
  apply (reconcileEBSVolumeTags_first_page_only pagedVolumesCloud sampleNgTags sampleScope
           [Some "vol-1"] (nodegroupOf ["asg-1"])).
  intros w input output Htoken. simpl. by intros [= <-].
Defined.

Section TagCallsOn.

Context {C : Cloud}.

Lemma triple_conj {A} (m : M C A) P Q (R : A -> Prop) :
  triple m P R -> triple m Q R -> triple m (fun calls e => P calls e /\ Q calls e) R.
Proof.
  intros HP HQ st. destruct (HP st) as (c1 & Hl1 & Hp & Hr).
  destruct (HQ st) as (c2 & Hl2 & Hq & _).
  assert (c2 = c1) as -> by (apply (app_inv_head (st_log st)); congruence).
  exists c1. eauto.
Qed.

Lemma tagCallsOn_sequential arn : sequential (tagCallsOn arn).
Proof.
  split; [by split; [apply Forall_nil|]|].
  intros c1 c2 e [H1 _] [H2 He]. split; [by apply Forall_app|done].
Qed.

Lemma updateTags_tagCallsOn arn (existingTags desiredTags : gmap string string) :
  triple (C := C) (updateTags C arn existingTags desiredTags) (tagCallsOn arn)
    (fun _ => True).
Proof.
  pose proof (tagCallsOn_sequential arn) as HP.
  assert (tagCallsOn arn [] Returned) as Hnil by apply HP.
  unfold updateTags.
  apply (triple_bind _ _ _ (fun _ => True)); [done| |].
  - case_decide; [|by apply triple_ret].
    apply (triple_call _ _ _ (fun err => err)); [done| | |].
    + split; [|done]. apply Forall_singleton. by left.
    + intros err. split; [|done]. apply Forall_singleton. by left.
    + intros _. by apply triple_ret.
  - intros _ _. case_decide; [|by apply triple_ret].
    apply (triple_call _ _ _ (fun err => err)); [done| | |].
    + split; [|done]. apply Forall_singleton. by right.
    + intros err. split; [|done]. apply Forall_singleton. by right.
    + intros _. by apply triple_ret.
Qed.

End TagCallsOn.

(** X18. On a nodegroup whose [Resources] is nil, [reconcileTags] never
    returns normally: once the tags of the nodegroup itself are updated it
    dereferences [ng.Resources] and panics, before any describe call; it
    returns an error only when one of the two tag calls on the nodegroup
    failed. *)
Theorem reconcileTags_without_resources (C : Cloud)
    (ngTags : string -> gmap string string -> gmap string string)
    (scope : Scope) (fuel : nat) (ng : eks.Nodegroup) (st : State C) :
  eks.Resources ng = None ->
  exists calls,
    st_log (reconcileTags C ngTags scope fuel ng st).2 = st_log st ++ calls
    /\ Forall (onResource (eks.NodegroupArn ng)) calls
    /\ ((reconcileTags C ngTags scope fuel ng st).1 = Panicked
        /\ Forall succeeded calls
        \/ exists c err,
             (reconcileTags C ngTags scope fuel ng st).1 = Failed err
             /\ last calls = Some (c, Some err)).
Proof.
  intros Hres.
  assert (triple (C := C) (reconcileTags C ngTags scope fuel ng)
            (fun calls e =>
               Forall (onResource (eks.NodegroupArn ng)) calls
               /\ (e = Panics /\ Forall succeeded calls
                   \/ exists c err, e = Errored err /\ last calls = Some (c, Some err)))
            (fun _ => True)) as Hrun.
  { unfold reconcileTags.
    eapply (triple_bind_gen _ _
              (fun calls e => tagCallsOn (eks.NodegroupArn ng) calls e /\ failFast calls e)
              (fun calls e => calls = [] /\ e = Panics)).
    - intros c1 c2 e [[Hon _] Hff] [-> ->]. rewrite app_nil_r. split; [done|]. by left.
    - intros c e He [[Hon [Hp Hs]] Hff]. split; [done|]. right.
      destruct e as [|err| |]; try done.
      destruct Hff as (pre & c0 & err0 & -> & Hpre & ->).
      exists c0, err0. rewrite last_snoc. split; [|done].
      apply Forall_app in Hon as [_ Hc0]. rewrite Forall_singleton in Hc0.
      unfold onResource in Hc0.
      destruct c0; simpl in Hc0; destruct Hc0 as [Hc0|Hc0]; try discriminate Hc0; done.
    - apply triple_conj; [apply updateTags_tagCallsOn|apply updateTags_failFast].
    - intros _ _ st'. exists []. unfold reconcileInstanceTags. rewrite Hres. simpl.
      by rewrite app_nil_r. }
  destruct (Hrun st) as (calls & Hlog & [Hon Hend] & _).
  exists calls. split; [done|]. split; [done|].
  destruct (reconcileTags C ngTags scope fuel ng st).1 as [[]|err| |];
    destruct Hend as [[He Hok]|(c & err' & He & Hlast)]; try done.
  - right. simpl in He. injection He as ->. by exists c, err'.
  - left. by split.
Qed.

Lemma reconcileTags_without_resources_witness :
  exists calls,
    st_log (reconcileTags emptyCloud sampleNgTags sampleScope 1 pendingNodegroup
              (start emptyCloud tt)).2
    = st_log (start emptyCloud tt) ++ calls
    /\ Forall (onResource (eks.NodegroupArn pendingNodegroup)) calls
    /\ ((reconcileTags emptyCloud sampleNgTags sampleScope 1 pendingNodegroup
           (start emptyCloud tt)).1 = Panicked
        /\ Forall succeeded calls
        \/ exists c err,
             (reconcileTags emptyCloud sampleNgTags sampleScope 1 pendingNodegroup
                (start emptyCloud tt)).1 = Failed err
             /\ last calls = Some (c, Some err)).
Proof.
  apply (reconcileTags_without_resources emptyCloud sampleNgTags sampleScope 1
           pendingNodegroup (start emptyCloud tt)).
  reflexivity.
Defined.
